(** * swproj2eq: the binary profile parser and the DSP helpers

    A shallow embedding of [swproj2eq/core/parser.py], [swproj2eq/core/dsp.py]
    and [swproj2eq/core/models.py].

    Conventions.
    - Python [int] is [Z]; buffer offsets are [Z] too, because the slicing
      primitives give a meaning to negative offsets (counted from the end).
    - Python [bytes] is [list byte].
    - Python [str] is a list of code points ([pystr]); the only non-ASCII code
      point the parser can produce is U+FFFD, the replacement character of
      [decode("ascii", errors="replace")].
    - Python [float] is an IEEE-754 binary64 value, modelled by [spec_float]
      with the operations of [SpecFloat] at precision 53 (round to nearest,
      ties to even).  The functions of the C mathematical library
      ([math.log], [math.cos], ...) are parameters: their last bit is not
      fixed by any standard.
    - A Python function that may raise returns a [result]; an exception is
      named after its class and the place that raises it. *)

From Stdlib Require Import String Ascii.
From Stdlib Require Import Strings.Byte.
From Stdlib Require Import ZArith List Bool Lia.
From Stdlib Require Import Floats.
From Stdlib Require Import Sorting.Sorted Sorting.Permutation.
Import ListNotations.
Open Scope Z_scope.
Set Warnings "-inexact-float".

(** * Python runtime *)

Module Py.

(** ** Exceptions *)

Inductive exn : Type :=
| ValueError_no_project_header            (* parser.py:73 *)
| ValueError_no_data_blocks               (* parser.py:85 *)
| ValueError_not_stereo (count : Z)       (* parser.py:123 *)
| ValueError_int (literal : list Z)       (* int(str) on a non-numeral *)
| ValueError_float (literal : list Z)     (* float(str) on a non-numeral *)
| ValueError_int_of_nan                   (* int(float('nan')) *)
| ValueError_empty_max                    (* max() of an empty sequence *)
| ValueError_math_domain                  (* math.log, math.cos outside their domain *)
| OverflowError_int_of_infinity           (* int(float('inf')) *)
| OverflowError_math_range                (* math.exp, float ** float, int / int out of range *)
| ZeroDivisionError
| IndexError
| struct_error.                           (* struct.unpack_from past the end of the buffer *)

(** [isinstance(e, ValueError)]: [struct.error] derives from [Exception],
    [IndexError] from [LookupError], the other two from [ArithmeticError]. *)
Definition is_ValueError (e : exn) : bool :=
  match e with
  | ValueError_no_project_header | ValueError_no_data_blocks | ValueError_not_stereo _
  | ValueError_int _ | ValueError_float _ | ValueError_int_of_nan
  | ValueError_empty_max | ValueError_math_domain => true
  | OverflowError_int_of_infinity | OverflowError_math_range
  | ZeroDivisionError | IndexError | struct_error => false
  end.

Inductive result (A : Type) : Type :=
| Ok (a : A)
| Raise (e : exn).
Arguments Ok {A} a.
Arguments Raise {A} e.

Definition bind {A B : Type} (r : result A) (k : A -> result B) : result B :=
  match r with
  | Ok a => k a
  | Raise e => Raise e
  end.

Notation "x <- r ;; k" := (bind r (fun x => k))
  (at level 61, r at next level, right associativity).

(** [[f(x) for x in l]], stopping at the first exception. *)
Fixpoint mapM {A B : Type} (f : A -> result B) (l : list A) : result (list B) :=
  match l with
  | [] => Ok []
  | x :: l' => y <- f x ;; ys <- mapM f l' ;; Ok (y :: ys)
  end.

(** ** Sequences *)

Definition len {A : Type} (l : list A) : Z := Z.of_nat (length l).

(** [range(n)] as a list of [Z]. *)
Definition range (n : nat) : list Z := map Z.of_nat (seq 0 n).

(** [enumerate(l)]. *)
Definition enumerate {A : Type} (l : list A) : list (Z * A) :=
  combine (range (length l)) l.

(** [min(l, default=d)] over integers. *)
Definition min_default (l : list Z) (d : Z) : Z :=
  match l with
  | [] => d
  | x :: l' => fold_left Z.min l' x
  end.

(** [sorted(l, key=key)]: a stable sort; an element goes in front of the
    first element of the sorted tail whose key is not smaller.  *)
Section Sorted.
Context {A : Type} (key : A -> Z).

Fixpoint insert_by (x : A) (l : list A) : list A :=
  match l with
  | [] => [x]
  | y :: l' => if key x <=? key y then x :: y :: l' else y :: insert_by x l'
  end.

Fixpoint sorted_by (l : list A) : list A :=
  match l with
  | [] => []
  | x :: l' => insert_by x (sorted_by l')
  end.

End Sorted.

(** ** Slice indices

    The start and the end of [b.find(sub, start, end)] and of [b[start:end]]:
    a negative index counts from the end, and both are clipped to the
    buffer. *)

Definition adjust_start (n i : Z) : Z :=
  if i <? 0 then Z.max 0 (i + n) else i.

Definition adjust_end (n j : Z) : Z :=
  if j >? n then n else if j <? 0 then Z.max 0 (j + n) else j.

(** ** bytes *)

Definition bytes := list byte.

Fixpoint starts_with (sub l : bytes) : bool :=
  match sub, l with
  | [], _ => true
  | b :: sub', c :: l' => Byte.eqb b c && starts_with sub' l'
  | _ :: _, [] => false
  end.

(** The first of the [n] offsets [i], [i+1], ... at which [sub] starts in
    [l] (the buffer from offset [i] on), or [-1]. *)
Fixpoint find_in (sub l : bytes) (i : Z) (n : nat) {struct n} : Z :=
  match n with
  | O => -1
  | S n' =>
      if starts_with sub l then i
      else match l with
           | [] => -1
           | _ :: l' => find_in sub l' (i + 1) n'
           end
  end.

(** [data.find(sub, start, stop)]. *)
Definition find (data sub : bytes) (start stop : Z) : Z :=
  let s := adjust_start (len data) start in
  let e := adjust_end (len data) stop in
  if e - s <? len sub then -1
  else find_in sub (skipn (Z.to_nat s) data) s (Z.to_nat (e - s - len sub + 1)).

(** [data[start:stop]]. *)
Definition slice {A : Type} (data : list A) (start stop : Z) : list A :=
  let s := Z.min (len data) (adjust_start (len data) start) in
  let e := adjust_end (len data) stop in
  firstn (Z.to_nat (e - s)) (skipn (Z.to_nat s) data).

(** ** str *)

Definition pystr := list Z.

Definition REPLACEMENT_CHARACTER : Z := 65533.

Definition str (s : string) : pystr :=
  map (fun b => Z.of_N (Byte.to_N b)) (list_byte_of_string s).

Fixpoint str_eqb (a b : pystr) : bool :=
  match a, b with
  | [], [] => true
  | x :: a', y :: b' => (x =? y) && str_eqb a' b'
  | _, _ => false
  end.

(** [b.decode("ascii", errors="replace")]: one U+FFFD for each byte above 127. *)
Definition decode_ascii_replace (b : bytes) : pystr :=
  map (fun c => let n := Z.of_N (Byte.to_N c) in
                if n <? 128 then n else REPLACEMENT_CHARACTER) b.

(** [c.isprintable()] on the code points a decoded string can hold: the
    ASCII range 0x20..0x7e, and U+FFFD (category So). *)
Definition char_isprintable (c : Z) : bool :=
  ((32 <=? c) && (c <=? 126)) || (c =? REPLACEMENT_CHARACTER).

Definition isprintable (s : pystr) : bool := forallb char_isprintable s.

(** [str(n)] for an integer, and so [f"{n}"]. *)
Fixpoint decimal_digits (fuel : nat) (n : Z) (acc : pystr) : pystr :=
  match fuel with
  | O => acc
  | S fuel' =>
      let acc' := (48 + n mod 10) :: acc in
      if n <? 10 then acc' else decimal_digits fuel' (n / 10) acc'
  end.

Definition str_of_int (n : Z) : pystr :=
  if n <? 0 then 45 :: decimal_digits (S (Z.to_nat (Z.log2 (- n)))) (- n) []
  else decimal_digits (S (Z.to_nat (Z.log2 n))) n [].

(** *** Numerals: the grammar shared by [int(str)] and [float(str)] *)

(** The white space both conversions strip: tab, line feed, vertical tab,
    form feed, carriage return and space. *)
Definition is_space (c : Z) : bool := ((9 <=? c) && (c <=? 13)) || (c =? 32).
Definition is_digit (c : Z) : bool := (48 <=? c) && (c <=? 57).

Fixpoint lstrip (s : pystr) : pystr :=
  match s with
  | c :: s' => if is_space c then lstrip s' else s
  | [] => []
  end.

Definition strip (s : pystr) : pystr := rev (lstrip (rev (lstrip s))).

(** An optional sign: [(negative, rest)]. *)
Definition take_sign (s : pystr) : bool * pystr :=
  match s with
  | c :: s' => if c =? 45 then (true, s') else if c =? 43 then (false, s') else (false, s)
  | [] => (false, [])
  end.

(** Underscores may group digits: each must stand between two digits, and
    is then dropped ([prev] is the character before [s], 0 at the start). *)
Fixpoint drop_underscores (prev : Z) (s : pystr) : option pystr :=
  match s with
  | [] => if prev =? 95 then None else Some []
  | c :: s' =>
      if c =? 95 then
        if is_digit prev then drop_underscores c s' else None
      else if (prev =? 95) && negb (is_digit c) then None
      else option_map (cons c) (drop_underscores c s')
  end.

(** The longest run of digits at the front: [(digits, rest)]. *)
Fixpoint take_digits (s : pystr) : list Z * pystr :=
  match s with
  | c :: s' =>
      if is_digit c then let (ds, r) := take_digits s' in ((c - 48) :: ds, r)
      else ([], s)
  | [] => ([], [])
  end.

Definition digits_value (ds : list Z) : Z :=
  fold_left (fun acc d => 10 * acc + d) ds 0.

(** [int(s)] for a string [s], base 10. *)
Definition int_of_str (s : pystr) : result Z :=
  match drop_underscores 0 (strip s) with
  | Some t =>
      let (neg, body) := take_sign t in
      match take_digits body with
      | (d :: ds, []) =>
          let v := digits_value (d :: ds) in Ok (if neg then - v else v)
      | _ => Raise (ValueError_int s)
      end
  | None => Raise (ValueError_int s)
  end.

(** *** dict

    Insertion-ordered: an assignment to a present key keeps its place. *)
Section Dict.
Context {K V : Type} (eqb : K -> K -> bool).

Fixpoint dict_get (d : list (K * V)) (k : K) : option V :=
  match d with
  | [] => None
  | (k', v) :: d' => if eqb k' k then Some v else dict_get d' k
  end.

Fixpoint dict_set (d : list (K * V)) (k : K) (v : V) : list (K * V) :=
  match d with
  | [] => [(k, v)]
  | (k', v') :: d' =>
      if eqb k' k then (k', v) :: d' else (k', v') :: dict_set d' k v
  end.

Definition dict_contains (d : list (K * V)) (k : K) : bool :=
  match dict_get d k with Some _ => true | None => false end.

Definition dict_values (d : list (K * V)) : list V := map snd d.

End Dict.

(** [d.get(k, default)]. *)
Definition get_default {K V : Type} (eqb : K -> K -> bool)
    (d : list (K * V)) (k : K) (default : V) : V :=
  match dict_get eqb d k with Some v => v | None => default end.

(** ** struct *)

Definition byte_val (b : byte) : Z := Z.of_N (Byte.to_N b).

(** The little-endian unsigned integer held by a byte string. *)
Fixpoint le_uint (b : bytes) : Z :=
  match b with
  | [] => 0
  | c :: b' => byte_val c + 256 * le_uint b'
  end.

(** The four bytes [struct.unpack_from] reads at [offset]; a negative
    offset counts from the end of the buffer. *)
Definition unpack_window (data : bytes) (offset : Z) : result bytes :=
  let off := if offset <? 0 then offset + len data else offset in
  if off <? 0 then Raise struct_error
  else if len data - off <? 4 then Raise struct_error
  else Ok (firstn 4 (skipn (Z.to_nat off) data)).

(** [struct.unpack_from("<I", data, offset)[0]]. *)
Definition unpack_from_I (data : bytes) (offset : Z) : result Z :=
  w <- unpack_window data offset ;; Ok (le_uint w).

End Py.

(** * Python floats *)

Module Float.
Import Py.

Definition float := spec_float.

Definition add : float -> float -> float := SFadd prec emax.
Definition sub : float -> float -> float := SFsub prec emax.
Definition mul : float -> float -> float := SFmul prec emax.
Definition neg : float -> float := SFopp.
Definition abs : float -> float := SFabs.

Definition ltb : float -> float -> bool := SFltb.
Definition leb : float -> float -> bool := SFleb.
Definition eqb : float -> float -> bool := SFeqb.
Definition gtb (x y : float) : bool := SFltb y x.
Definition geb (x y : float) : bool := SFleb y x.
Definition neqb (x y : float) : bool := negb (SFeqb x y).

Definition is_nan (x : float) : bool :=
  match x with S754_nan => true | _ => false end.
Definition is_inf (x : float) : bool :=
  match x with S754_infinity _ => true | _ => false end.
Definition is_zero (x : float) : bool :=
  match x with S754_zero _ => true | _ => false end.
Definition is_finite (x : float) : bool :=
  match x with S754_zero _ | S754_finite _ _ _ => true | _ => false end.

(** Literals of the source, rounded as the Python parser rounds them. *)
Definition f0 : float := S754_zero false.
Definition f1 : float := Eval vm_compute in Prim2SF 1.0.
Definition f20 : float := Eval vm_compute in Prim2SF 20.0.
Definition f0_95 : float := Eval vm_compute in Prim2SF 0.95.
Definition f1e_10 : float := Eval vm_compute in Prim2SF 1e-10.
Definition pi : float := Eval vm_compute in Prim2SF 3.141592653589793.

(** [float(n)] for an integer that a float can hold or round to. *)
Definition of_int (n : Z) : float := binary_normalize prec emax n 0 false.

(** [x / y] on floats. *)
Definition div (x y : float) : result float :=
  if is_zero y then Raise ZeroDivisionError else Ok (SFdiv prec emax x y).

(** [a / b] on integers: the quotient rounded once. *)
Definition int_truediv (a b : Z) : result float :=
  match a, b with
  | _, Z0 => Raise ZeroDivisionError
  | Z0, _ => Ok (S754_zero (b <? 0))
  | _, _ =>
      let q := SFdiv prec emax
                 (S754_finite (a <? 0) (Z.to_pos (Z.abs a)) 0)
                 (S754_finite (b <? 0) (Z.to_pos (Z.abs b)) 0) in
      if is_inf q then Raise OverflowError_math_range else Ok q
  end.

(** [int(x)]: truncation towards zero. *)
Definition to_int (x : float) : result Z :=
  match x with
  | S754_nan => Raise ValueError_int_of_nan
  | S754_infinity _ => Raise OverflowError_int_of_infinity
  | S754_zero _ => Ok 0
  | S754_finite s m e =>
      Ok (cond_Zopp s (if 0 <=? e then Zpos m * 2 ^ e else Zpos m / 2 ^ (- e)))
  end.

(** [round(x)]: to the nearest integer, a tie to the even one. *)
Definition round (x : float) : result Z :=
  match x with
  | S754_nan => Raise ValueError_int_of_nan
  | S754_infinity _ => Raise OverflowError_int_of_infinity
  | S754_zero _ => Ok 0
  | S754_finite s m e =>
      if 0 <=? e then Ok (cond_Zopp s (Zpos m * 2 ^ e))
      else
        let d := 2 ^ (- e) in
        let q := Zpos m / d in
        let r := Zpos m mod d in
        Ok (cond_Zopp s
              match 2 * r ?= d with
              | Lt => q
              | Gt => q + 1
              | Eq => if Z.even q then q else q + 1
              end)
  end.

(** The place of a float that is not a NaN in the order of the floats:
    class (negative infinity, negative, zero, positive, positive infinity),
    then exponent, then mantissa, compared in that order. *)
Definition rank (x : float) : Z * Z * Z :=
  match x with
  | S754_nan => (0, 0, 0)
  | S754_zero _ => (0, 0, 0)
  | S754_infinity true => (-2, 0, 0)
  | S754_infinity false => (2, 0, 0)
  | S754_finite true m e => (-1, - e, Zneg m)
  | S754_finite false m e => (1, e, Zpos m)
  end.

Definition lex_compare (a b : Z * Z * Z) : comparison :=
  let '(a1, a2, a3) := a in
  let '(b1, b2, b3) := b in
  match a1 ?= b1 with
  | Eq => match a2 ?= b2 with
          | Eq => a3 ?= b3
          | c => c
          end
  | c => c
  end.

(** [max(x, y)] with two arguments: the second only when it is greater. *)
Definition max2 (x y : float) : float := if gtb y x then y else x.
Definition min2 (x y : float) : float := if ltb y x then y else x.

(** [max(l)]: the first item, replaced by each later item that is greater. *)
Definition max_list (l : list float) : result float :=
  match l with
  | [] => Raise ValueError_empty_max
  | x :: l' => Ok (fold_left max2 l' x)
  end.

(** The value of a binary32 bit pattern, as [struct.unpack("<f")] widens
    it to a float. *)
Definition of_bits32 (w : Z) : float :=
  let s := Z.testbit w 31 in
  let e := Z.land (Z.shiftr w 23) 255 in
  let m := Z.land w (2 ^ 23 - 1) in
  if e =? 255 then (if m =? 0 then S754_infinity s else S754_nan)
  else if e =? 0 then
    match m with
    | Zpos p => binary_round prec emax s p (-149)
    | _ => S754_zero s
    end
  else binary_round prec emax s (Z.to_pos (m + 2 ^ 23)) (e - 150).

(** [struct.unpack_from("<f", data, offset)[0]]. *)
Definition unpack_from_f (data : bytes) (offset : Z) : result float :=
  w <- unpack_window data offset ;; Ok (of_bits32 (le_uint w)).

(** ** [float(str)] *)

Fixpoint drop_zeros (ds : list Z) : list Z :=
  match ds with
  | d :: ds' => if d =? 0 then drop_zeros ds' else ds
  | [] => []
  end.

(** The float nearest to [± D * 10^E], [ds] the decimal digits of [D]. *)
Definition of_decimal (negative : bool) (ds : list Z) (E : Z) : float :=
  let sig := drop_zeros ds in
  let D := digits_value sig in
  let magnitude := len sig + E in
  if D =? 0 then S754_zero negative
  else if 310 <? magnitude then S754_infinity negative
  else if magnitude <? -330 then S754_zero negative
  else if 0 <=? E then binary_normalize prec emax (cond_Zopp negative (D * 10 ^ E)) 0 false
  else SFdiv prec emax (S754_finite negative (Z.to_pos D) 0)
                       (S754_finite false (Z.to_pos (10 ^ (- E))) 0).

Definition lower (c : Z) : Z := if (65 <=? c) && (c <=? 90) then c + 32 else c.

Definition float_of_str (s : pystr) : result float :=
  match drop_underscores 0 (strip s) with
  | None => Raise (ValueError_float s)
  | Some t =>
      let (negative, body) := take_sign t in
      let word := map lower body in
      if str_eqb word (str "inf") || str_eqb word (str "infinity")
      then Ok (S754_infinity negative)
      else if str_eqb word (str "nan") then Ok S754_nan
      else
        let (ip, r1) := take_digits body in
        let (fp, r2) :=
          match r1 with
          | c :: r => if c =? 46 then take_digits r else ([], r1)
          | [] => ([], [])
          end in
        match ip ++ fp, r2 with
        | [], _ => Raise (ValueError_float s)
        | ds, [] => Ok (of_decimal negative ds (- len fp))
        | ds, c :: r =>
            if (c =? 101) || (c =? 69) then
              let (eneg, r') := take_sign r in
              match take_digits r' with
              | (d :: es, []) =>
                  let ex := digits_value (d :: es) in
                  Ok (of_decimal negative ds ((if eneg then - ex else ex) - len fp))
              | _ => Raise (ValueError_float s)
              end
            else Raise (ValueError_float s)
        end
  end.

End Float.

(** * core/models.py *)

Module Models.
Import Py Float.

Record ChannelData : Type := {
  name : pystr;
  index : Z;
  group : pystr;
  delay_ms : float;
  frequencies : list float;
  correction_dB : list float;
  measurement_dB : list float
}.

Record Profile : Type := {
  source_path : pystr;
  channels : list ChannelData
}.

(** Attribute assignments. *)
Definition set_delay_ms (ch : ChannelData) (d : float) : ChannelData :=
  {| name := name ch; index := index ch; group := group ch; delay_ms := d;
     frequencies := frequencies ch; correction_dB := correction_dB ch;
     measurement_dB := measurement_dB ch |}.

Definition set_correction (ch : ChannelData) (fs vs : list float) : ChannelData :=
  {| name := name ch; index := index ch; group := group ch;
     delay_ms := delay_ms ch;
     frequencies := fs; correction_dB := vs;
     measurement_dB := measurement_dB ch |}.

Definition set_measurement (ch : ChannelData) (vs : list float) : ChannelData :=
  {| name := name ch; index := index ch; group := group ch;
     delay_ms := delay_ms ch;
     frequencies := frequencies ch; correction_dB := correction_dB ch;
     measurement_dB := vs |}.

End Models.

(** * core/parser.py *)

Module Parser.
Import Py Float Models.

Definition POINTS_PER_CURVE : Z := 355.
Definition DATA_HEADER : bytes := [x63; x01; x00; x00; x07; x00; x00; x00]%byte.
Definition PROJECT_HEADER_END : bytes := list_byte_of_string "</ProjectHeader>".
Definition CHANNEL_DELAY_MS : bytes := list_byte_of_string "ChannelDelayMs".

(** ** _parse_metadata *)

Definition metadata := list (pystr * pystr).

(** What one turn of the [while pos < end] loop does at [pos]. *)
Inductive scan_step : Type :=
| Resync                                       (* pos += 1; continue *)
| Accept (key val : pystr) (next_pos : Z)      (* meta[key] = val; pos = next_pos *)
| Stop.                                        (* break *)

Definition metadata_step (data : bytes) (pos : Z) : result scan_step :=
  let null_pos := find data [x00%byte] pos (pos + 100) in
  if (null_pos =? -1) || (null_pos - pos >? 50) then Ok Resync
  else
    let key := decode_ascii_replace (slice data pos null_pos) in
    if negb (isprintable key) || (len key <? 2) then Ok Resync
    else
      let val_len_pos := null_pos + 1 in
      if val_len_pos + 4 >? len data then Ok Stop
      else
        val_len <- unpack_from_I data val_len_pos ;;
        if val_len >? 200 then Ok Resync
        else
          let val := decode_ascii_replace
                       (slice data (val_len_pos + 4) (val_len_pos + 4 + val_len)) in
          Ok (Accept key val (val_len_pos + 4 + val_len)).

(** The loop, with a bound on the number of turns: [None] when the bound is
    reached before the loop ends. *)
Fixpoint metadata_loop (fuel : nat) (data : bytes) (end_ pos : Z) (meta : metadata)
    {struct fuel} : option (result metadata) :=
  if pos <? end_ then
    match fuel with
    | O => None
    | S fuel' =>
        match metadata_step data pos with
        | Raise e => Some (Raise e)
        | Ok Resync => metadata_loop fuel' data end_ (pos + 1) meta
        | Ok (Accept key val next_pos) =>
            metadata_loop fuel' data end_ next_pos (dict_set str_eqb meta key val)
        | Ok Stop => Some (Ok meta)
        end
    end
  else Some (Ok meta).

Definition metadata_end (data : bytes) (start_pos : Z) (boundaries : list Z) : Z :=
  min_default (filter (fun b => b >? start_pos) boundaries) (len data).

(** Every turn moves [pos] forward ([metadata_loop_terminates] below), so
    [end - start_pos] turns are enough and the last case is never taken. *)
Definition _parse_metadata (data : bytes) (start_pos : Z) (boundaries : list Z)
    : result metadata :=
  let end_ := metadata_end data start_pos boundaries in
  match metadata_loop (Z.to_nat (end_ - start_pos)) data end_ start_pos [] with
  | Some r => r
  | None => Ok []
  end.

(** ** _parse_blocks *)

Record block : Type := {
  fpp : Z;
  freqs : list float;
  values : list float
}.

Definition parse_point (data : bytes) (float_start fpp i : Z) : result (float * float) :=
  let offset := float_start + i * fpp * 4 in
  freq <- unpack_from_f data offset ;;
  val <- unpack_from_f data (offset + 4) ;;
  Ok (freq, val).

Definition parse_block (data : bytes) (boundaries : list Z) (header : Z) : result block :=
  let float_start := header + 8 in
  let next_boundary :=
    min_default (filter (fun b => b >? float_start) (boundaries ++ [len data]))
                (len data) in
  let block_bytes := next_boundary - float_start in
  q <- int_truediv (block_bytes / 4) POINTS_PER_CURVE ;;
  fpp <- Float.round q ;;
  points <- mapM (parse_point data float_start fpp)
                 (range (Z.to_nat POINTS_PER_CURVE)) ;;
  Ok {| fpp := fpp; freqs := map fst points; values := map snd points |}.

Definition _parse_blocks (data : bytes) (data_headers boundaries : list Z)
    : result (list block) :=
  mapM (parse_block data boundaries) data_headers.

(** ** parse_swproj *)

(** The offsets at which [pat] is found when the search resumes [step]
    bytes after each hit: [step = 1] is the [while True] loop over
    [data.find(DATA_HEADER, pos)], [step = len(pat)] is [re.finditer] of a
    literal.  Each hit is at or after [pos], so the search resumes further
    on and [fuel = len(data) + 1] turns are enough. *)
Fixpoint find_all (fuel : nat) (data pat : bytes) (pos step : Z) : list Z :=
  match fuel with
  | O => []
  | S fuel' =>
      let idx := find data pat pos (len data) in
      if idx =? -1 then [] else idx :: find_all fuel' data pat (idx + step) step
  end.

Definition find_data_headers (data : bytes) : list Z :=
  find_all (S (length data)) data DATA_HEADER 0 1.

Definition finditer_starts (pat data : bytes) : list Z :=
  find_all (S (length data)) data pat 0 (len pat).

Definition channel_key : Type := pystr * Z.

Definition key_eqb (a b : channel_key) : bool :=
  str_eqb (fst a) (fst b) && (snd a =? snd b).

Definition channel_dict := list (channel_key * ChannelData).

(** One turn of [for i, meta_start in enumerate(delay_positions)]. *)
Definition add_channel (data : bytes) (boundaries : list Z)
    (channels : channel_dict) (item : Z * Z) : result channel_dict :=
  let (i, meta_start) := item in
  meta <- _parse_metadata data meta_start boundaries ;;
  let ch_name :=
    get_default str_eqb meta (str "ChannelName") (str "Channel_" ++ str_of_int i) in
  ch_idx <- match dict_get str_eqb meta (str "ChannelIndex") with
            | Some v => int_of_str v
            | None => Ok i
            end ;;
  let key := (ch_name, ch_idx) in
  let channels :=
    if dict_contains key_eqb channels key then channels
    else dict_set key_eqb channels key
           {| name := ch_name; index := ch_idx;
              group := get_default str_eqb meta (str "ChannelGroup") (str "");
              delay_ms := f0;
              frequencies := []; correction_dB := []; measurement_dB := [] |} in
  let delay_str := get_default str_eqb meta (str "ChannelDelayMs") (str "0") in
  delay_val <- (if str_eqb delay_str (str "-0") || str_eqb delay_str (str "0")
                then Ok f0 else float_of_str delay_str) ;;
  if neqb delay_val f0 then
    match dict_get key_eqb channels key with
    | Some ch => Ok (dict_set key_eqb channels key (set_delay_ms ch (Float.abs delay_val)))
    | None => Ok channels
    end
  else Ok channels.

Fixpoint add_channels (data : bytes) (boundaries : list Z)
    (channels : channel_dict) (items : list (Z * Z)) : result channel_dict :=
  match items with
  | [] => Ok channels
  | item :: items' =>
      channels' <- add_channel data boundaries channels item ;;
      add_channels data boundaries channels' items'
  end.

(** One turn of [for i, ch in enumerate(channel_list)]. *)
Definition assign_blocks (blocks : list block) (item : Z * ChannelData) : ChannelData :=
  let (i, ch) := item in
  let corr_idx := i * 2 in
  let meas_idx := i * 2 + 1 in
  let ch :=
    if corr_idx <? len blocks then
      match nth_error blocks (Z.to_nat corr_idx) with
      | Some b => set_correction ch (freqs b) (values b)
      | None => ch
      end
    else ch in
  if meas_idx <? len blocks then
    match nth_error blocks (Z.to_nat meas_idx) with
    | Some b => set_measurement ch (values b)
    | None => ch
    end
  else ch.

(** [parse_swproj(path, require_stereo)], [data] being what [f.read()]
    returns for the file at [path]. *)
Definition parse_swproj (path : pystr) (data : bytes) (require_stereo : bool)
    : result Profile :=
  let xml_end := find data PROJECT_HEADER_END 0 (len data) in
  if xml_end =? -1 then Raise ValueError_no_project_header
  else
    let data_headers := find_data_headers data in
    match data_headers with
    | [] => Raise ValueError_no_data_blocks
    | _ :: _ =>
        let delay_positions := finditer_starts CHANNEL_DELAY_MS data in
        let boundaries := sorted_by (fun b => b) (data_headers ++ delay_positions) in
        blocks <- _parse_blocks data data_headers boundaries ;;
        channels <- add_channels data boundaries [] (enumerate delay_positions) ;;
        let channel_list := sorted_by index (dict_values channels) in
        let channel_list := map (assign_blocks blocks) (enumerate channel_list) in
        if require_stereo && negb (len channel_list =? 2)
        then Raise (ValueError_not_stereo (len channel_list))
        else Ok {| source_path := path; channels := channel_list |}
    end.

(** The error kinds of the specification are the three [ValueError]s the
    parser raises itself. *)
Definition MissingHeader : exn := ValueError_no_project_header.
Definition NoDataBlocks : exn := ValueError_no_data_blocks.
Definition ChannelCountMismatch (count : Z) : exn := ValueError_not_stereo count.

End Parser.

(** * core/dsp.py *)

Module Dsp.
Import Py Float Models.

(** [l[i]]; a negative index counts from the end. *)
Definition getitem {A : Type} (l : list A) (i : Z) : result A :=
  let j := if i <? 0 then i + len l else i in
  if j <? 0 then Raise IndexError
  else match nth_error l (Z.to_nat j) with
       | Some x => Ok x
       | None => Raise IndexError
       end.

(** A loop that threads an accumulator and may raise. *)
Fixpoint foldM {A S : Type} (f : S -> A -> result S) (l : list A) (s : S) : result S :=
  match l with
  | [] => Ok s
  | x :: l' => s' <- f s x ;; foldM f l' s'
  end.

(** ** compute_preamp_db *)

Definition compute_preamp_db (channels : list ChannelData) (extra_headroom_db : float)
    : result float :=
  match channels with
  | [] => Ok f0
  | _ :: _ =>
      gains <- mapM (fun ch => max_list (correction_dB ch)) channels ;;
      max_gain <- max_list gains ;;
      if leb max_gain f0 then Ok f0
      else Ok (neg (add max_gain extra_headroom_db))
  end.

Definition default_headroom_db : float := f1.

(** ** write_wav

    The samples handed to [writeframes]; the file itself is not modelled. *)

Definition quantize (scale s : float) : result Z :=
  v <- to_int (mul (mul s scale) (of_int 32767)) ;;
  Ok (Z.max (-32767) (Z.min 32767 v)).

Definition write_wav (samples : list float) : result (list Z) :=
  m <- max_list (map Float.abs samples) ;;
  let peak := if is_zero m then f1 else m in
  scale <- div f0_95 peak ;;
  mapM (quantize scale) samples.

(** ** The C mathematical library

    [math.log], [math.exp], [math.cos], [math.sin] and [float ** float] call
    the platform's [log], [exp], [cos], [sin] and [pow]. *)

Record libm : Type := {
  c_log : float -> float;
  c_exp : float -> float;
  c_cos : float -> float;
  c_sin : float -> float;
  c_pow : float -> float -> float
}.

Section Synthesis.
Variable M : libm.

(** The wrapper of the [math] module around a function of one argument. *)
Definition math_1 (f : float -> float) (can_overflow : bool) (x : float) : result float :=
  let r := f x in
  if is_nan r && negb (is_nan x) then Raise ValueError_math_domain
  else if is_inf r && is_finite x then
    Raise (if can_overflow then OverflowError_math_range else ValueError_math_domain)
  else Ok r.

(** [math.log] calls [log] on positive finite numbers only. *)
Definition m_log (x : float) : float :=
  match x with
  | S754_nan => S754_nan
  | S754_infinity false => S754_infinity false
  | S754_infinity true => S754_nan
  | S754_zero _ => S754_infinity true
  | S754_finite true _ _ => S754_nan
  | S754_finite false _ _ => c_log M x
  end.

Definition math_log : float -> result float := math_1 m_log false.
Definition math_exp : float -> result float := math_1 (c_exp M) true.
Definition math_cos : float -> result float := math_1 (c_cos M) false.
Definition math_sin : float -> result float := math_1 (c_sin M) false.

(** [10 ** w]. *)
Definition pow10 (w : float) : result float :=
  match w with
  | S754_zero _ => Ok f1
  | S754_nan => Ok S754_nan
  | S754_infinity false => Ok (S754_infinity false)
  | S754_infinity true => Ok f0
  | S754_finite _ _ _ =>
      let r := c_pow M (of_int 10) w in
      if is_inf r then Raise OverflowError_math_range else Ok r
  end.

(** ** freq_response_to_ir: interpolation (dsp.py:29-48) *)

(** The [while hi - lo > 1] loop; the distance halves at each turn, so
    [len(freqs)] turns are enough. *)
Fixpoint bisect (fuel : nat) (freqs : list float) (bf : float) (lo hi : Z)
    {struct fuel} : result (Z * Z) :=
  if hi - lo >? 1 then
    match fuel with
    | O => Ok (lo, hi)
    | S fuel' =>
        let mid := (lo + hi) / 2 in
        fm <- getitem freqs mid ;;
        if leb fm bf then bisect fuel' freqs bf mid hi
        else bisect fuel' freqs bf lo mid
    end
  else Ok (lo, hi).

(** The body of [for bf in bin_freqs]: the gain appended for [bf]. *)
Definition interpolate (freqs gains_dB : list float) (bf : float) : result float :=
  first <- getitem freqs 0 ;;
  if leb bf first then getitem gains_dB 0
  else
    last <- getitem freqs (-1) ;;
    if geb bf last then getitem gains_dB (-1)
    else
      bracket <- bisect (length freqs) freqs bf 0 (len freqs - 1) ;;
      let (lo, hi) := bracket in
      f_hi <- getitem freqs hi ;;
      f_lo <- getitem freqs lo ;;
      t <- (if neqb f_hi f_lo then
              log_bf <- math_log bf ;;
              log_lo <- math_log f_lo ;;
              log_hi <- math_log f_hi ;;
              log_lo' <- math_log f_lo ;;
              div (sub log_bf log_lo) (sub log_hi log_lo')
            else Ok (of_int 0)) ;;
      g_lo <- getitem gains_dB lo ;;
      g_hi <- getitem gains_dB hi ;;
      g_lo' <- getitem gains_dB lo ;;
      Ok (add g_lo (mul t (sub g_hi g_lo'))).

Definition bin_freqs (sample_rate n_fft : Z) : result (list float) :=
  let half := n_fft / 2 + 1 in
  mapM (fun i => int_truediv (i * sample_rate) n_fft) (range (Z.to_nat half)).

Definition interp_gains_dB (freqs gains_dB : list float) (sample_rate n_fft : Z)
    : result (list float) :=
  bfs <- bin_freqs sample_rate n_fft ;;
  mapM (interpolate freqs gains_dB) bfs.

(** ** freq_response_to_ir: cepstral synthesis (dsp.py:50-98) *)

(** [2 * math.pi * k * j / n]. *)
Definition angle (k j n : Z) : result float :=
  div (mul (mul (mul (of_int 2) pi) (of_int k)) (of_int j)) (of_int n).

(** [l[-2:0:-1]]. *)
Definition mirror {A : Type} (l : list A) : list A :=
  rev (firstn (length l - 2) (skipn 1 l)).

(** One row [k] of a transform: both accumulators start at [0.0] and take a
    term for each [j]. *)
Definition dft_row (term : Z -> Z -> result (float * float)) (n : nat) (k : Z)
    : result (float * float) :=
  foldM (fun acc j => t <- term k j ;;
                      Ok (add (fst acc) (fst t), add (snd acc) (snd t)))
        (range n) (f0, f0).

Definition dft (term : Z -> Z -> result (float * float)) (n : nat)
    : result (list (float * float)) :=
  mapM (dft_row term n) (range n).

Definition freq_response_to_ir (freqs gains_dB : list float)
    (sample_rate ir_length : Z) : result (list float) :=
  let n_fft := ir_length in
  gains <- interp_gains_dB freqs gains_dB sample_rate n_fft ;;
  magnitudes <- mapM (fun g => w <- div g f20 ;; pow10 w) gains ;;
  log_mag <- mapM (fun m => math_log (max2 m f1e_10)) magnitudes ;;
  let full_log_mag := log_mag ++ mirror log_mag in
  let n := length full_log_mag in
  let nz := Z.of_nat n in
  (* the real cepstrum: an inverse transform of the log magnitude *)
  cepstrum <- dft (fun k j =>
      a <- angle k j nz ;;
      x <- getitem full_log_mag j ;;
      c <- math_cos a ;;
      re <- div (mul x c) (of_int nz) ;;
      x' <- getitem full_log_mag j ;;
      s <- math_sin a ;;
      im <- div (mul x' (neg s)) (of_int nz) ;;
      Ok (re, im)) n ;;
  (* the causal window *)
  c0 <- getitem cepstrum 0 ;;
  let mp_cepstrum :=
    map (fun item : Z * (float * float) =>
           let (k, c) := item in
           if k =? 0 then (fst c0, f0)
           else if k <? nz / 2 then (mul (of_int 2) (fst c), mul (of_int 2) (snd c))
           else if (nz mod 2 =? 0) && (k =? nz / 2) then (fst c, f0)
           else (f0, f0))
        (enumerate cepstrum) in
  (* the forward transform of the windowed cepstrum *)
  spec <- dft (fun k j =>
      a <- angle k j nz ;;
      m <- getitem mp_cepstrum j ;;
      c <- math_cos a ;;
      s <- math_sin a ;;
      s' <- math_sin a ;;
      c' <- math_cos a ;;
      Ok (sub (mul (fst m) c) (mul (snd m) (neg s)),
          add (mul (fst m) (neg s')) (mul (snd m) c'))) n ;;
  (* exponentiation, bin by bin *)
  mp_spec <- mapM (fun z : float * float =>
      e_real <- math_exp (fst z) ;;
      c <- math_cos (snd z) ;;
      s <- math_sin (snd z) ;;
      Ok (mul e_real c, mul e_real s)) spec ;;
  (* the inverse transform, of which the real part is kept *)
  ir <- dft (fun k j =>
      a <- angle k j nz ;;
      m <- getitem mp_spec j ;;
      c <- math_cos a ;;
      s <- math_sin a ;;
      Ok (sub (mul (fst m) c) (mul (snd m) (neg s)), f0)) n ;;
  ir <- mapM (fun z : float * float => div (fst z) (of_int nz)) ir ;;
  Ok (slice ir 0 ir_length).

(** [freq_response_to_ir_fast]: the numpy path when numpy can be imported
    ([numpy_path], which is not code of this repository), the reference
    otherwise. *)
Definition freq_response_to_ir_fast
    (numpy_path : option (list float -> list float -> Z -> Z -> result (list float)))
    (freqs gains_dB : list float) (sample_rate ir_length : Z) : result (list float) :=
  match numpy_path with
  | Some np => np freqs gains_dB sample_rate ir_length
  | None => freq_response_to_ir freqs gains_dB sample_rate ir_length
  end.

End Synthesis.
End Dsp.

(** * Notions of the specification *)

Module Spec.
Import Py Float Models.

(** [pat] occurs in [data]. *)
Definition occurs (pat data : bytes) : Prop :=
  exists pre suf : bytes, data = pre ++ pat ++ suf.

(** [struct.pack("<I", n)]. *)
Definition pack_I (n : Z) : bytes :=
  map (fun k => match Byte.of_N (Z.to_N ((n / 256 ^ k) mod 256)) with
                | Some b => b
                | None => x00%byte
                end) [0; 1; 2; 3].

(** The identity of a channel. *)
Definition identity (ch : ChannelData) : pystr * Z := (name ch, index ch).

(** A sequence of floats in strictly increasing order. *)
Fixpoint strictly_increasing (l : list float) : bool :=
  match l with
  | x :: ((y :: _) as l') => ltb x y && strictly_increasing l'
  | _ => true
  end.

(** Every correction gain of a collection of channels. *)
Definition all_gains (channels : list ChannelData) : list float :=
  flat_map correction_dB channels.

Definition no_nan (l : list float) : Prop := Forall (fun x => is_nan x = false) l.

(** Modelled from the spec: the numpy path of [freq_response_to_ir_fast]
    (dsp.py:106-131).  numpy is not code of this repository; its transforms
    are taken from section 4.3: [np.fft.ifft(...).real] is the real part of
    the inverse discrete Fourier transform (steps 5 and 9) and [np.fft.fft]
    is the forward transform (step 7), each written as the sum that defines
    it.  Steps 1 to 4 and 8 are those of the reference; the window of
    step 6 multiplies the real cepstrum. *)
Definition numpy_path (M : Dsp.libm) (freqs gains_dB : list float)
    (sample_rate ir_length : Z) : result (list float) :=
  let n_fft := ir_length in
  gains <- Dsp.interp_gains_dB M freqs gains_dB sample_rate n_fft ;;
  magnitudes <- mapM (fun g => w <- div g f20 ;; Dsp.pow10 M w) gains ;;
  log_mag <- mapM (fun m => Dsp.math_log M (max2 m f1e_10)) magnitudes ;;
  let full_log_mag := log_mag ++ Dsp.mirror log_mag in
  let n := length full_log_mag in
  let nz := Z.of_nat n in
  (* step 5: cepstrum = ifft(full_log_mag).real *)
  cepstrum <- Dsp.dft (fun k j =>
      a <- Dsp.angle k j nz ;;
      x <- Dsp.getitem full_log_mag j ;;
      c <- Dsp.math_cos M a ;;
      Ok (mul x c, f0)) n ;;
  cepstrum <- mapM (fun z : float * float => div (fst z) (of_int nz)) cepstrum ;;
  (* step 6: mp_cepstrum = cepstrum * window *)
  let window (k : Z) : float :=
    if k =? 0 then f1
    else if k <? nz / 2 then of_int 2
    else if (nz mod 2 =? 0) && (k =? nz / 2) then f1
    else f0 in
  let mp_cepstrum :=
    map (fun item : Z * float => let (k, c) := item in mul c (window k))
        (enumerate cepstrum) in
  (* step 7: fft(mp_cepstrum) *)
  spec <- Dsp.dft (fun k j =>
      a <- Dsp.angle k j nz ;;
      w <- Dsp.getitem mp_cepstrum j ;;
      c <- Dsp.math_cos M a ;;
      s <- Dsp.math_sin M a ;;
      Ok (mul w c, mul w (neg s))) n ;;
  (* step 8: min_phase_spec = exp(...) *)
  mp_spec <- mapM (fun z : float * float =>
      e_real <- Dsp.math_exp M (fst z) ;;
      c <- Dsp.math_cos M (snd z) ;;
      s <- Dsp.math_sin M (snd z) ;;
      Ok (mul e_real c, mul e_real s)) spec ;;
  (* step 9: ir = ifft(min_phase_spec).real *)
  ir <- Dsp.dft (fun k j =>
      a <- Dsp.angle k j nz ;;
      m <- Dsp.getitem mp_spec j ;;
      c <- Dsp.math_cos M a ;;
      s <- Dsp.math_sin M a ;;
      Ok (sub (mul (fst m) c) (mul (snd m) s), f0)) n ;;
  ir <- mapM (fun z : float * float => div (fst z) (of_int nz)) ir ;;
  Ok (slice ir 0 ir_length).

(** Two responses agree within [tol], sample by sample. *)
Definition within (tol x y : float) : bool := leb (Float.abs (sub x y)) tol.

Definition agree_within (tol : float) (l l' : list float) : Prop :=
  Forall2 (fun x y => within tol x y = true) l l'.

(** The maximum correction gain across all channels, as section 6 has it:
    a gain that is a number and is at least every gain that is a number. *)
Definition is_max_gain (channels : list ChannelData) (m : float) : Prop :=
  In m (all_gains channels) /\ is_nan m = false /\
  Forall (fun g => is_nan g = false -> leb g m = true) (all_gains channels).

(** The preamp that section 6 derives from it. *)
Definition preamp_policy (max_gain headroom : float) : float :=
  if leb max_gain f0 then f0 else neg (add max_gain headroom).

(** The PCM renderer as section 4.4 words it: the scaled sample is rounded
    to the nearest integer, then clamped. *)
Definition quantize_rounding (scale s : float) : result Z :=
  v <- Float.round (mul (mul s scale) (of_int 32767)) ;;
  Ok (Z.max (-32767) (Z.min 32767 v)).

Definition render_rounding (samples : list float) : result (list Z) :=
  m <- max_list (map Float.abs samples) ;;
  let peak := if is_zero m then f1 else m in
  scale <- div f0_95 peak ;;
  mapM (quantize_rounding scale) samples.

Definition clamp16 (v : Z) : Z := Z.max (-32767) (Z.min 32767 v).

Definition f2 : float := Eval vm_compute in Prim2SF 2.0.

(** The error kinds that section 7 declares for the parser. *)
Definition declared_kind (e : exn) : bool :=
  match e with
  | ValueError_no_project_header | ValueError_no_data_blocks | ValueError_not_stereo _ => true
  | _ => false
  end.

(** The number of floats per point that [_parse_blocks] works out for the
    block at [header] (parser.py:47-53). *)
Definition block_fpp (data : bytes) (boundaries : list Z) (header : Z) : result Z :=
  let float_start := header + 8 in
  let next_boundary :=
    min_default (filter (fun b => b >? float_start) (boundaries ++ [len data]))
                (len data) in
  let block_bytes := next_boundary - float_start in
  q <- int_truediv (block_bytes / 4) Parser.POINTS_PER_CURVE ;;
  Float.round q.

(** The block at [header] can be read in full: the last of its 355 points,
    a frequency and a value of four bytes each, ends inside the buffer. *)
Definition block_inside (data : bytes) (boundaries : list Z) (header : Z) : bool :=
  match block_fpp data boundaries header with
  | Ok fpp => header + 8 + (Parser.POINTS_PER_CURVE - 1) * fpp * 4 + 8 <=? len data
  | Raise _ => false
  end.

(** Every data block of the buffer can be read in full. *)
Definition blocks_inside (data : bytes) : bool :=
  let data_headers := Parser.find_data_headers data in
  let boundaries :=
    sorted_by (fun b => b)
      (data_headers ++ Parser.finditer_starts Parser.CHANNEL_DELAY_MS data) in
  forallb (block_inside data boundaries) data_headers.

(** A float that is a zero or above zero. *)
Definition nonneg (x : float) : bool :=
  match x with
  | S754_zero _ => true
  | S754_finite s _ _ | S754_infinity s => negb s
  | S754_nan => false
  end.

(** Ascending order of a key. *)
Definition key_le {A : Type} (key : A -> Z) (a b : A) : Prop := key a <= key b.

(** Between the two loops of [parse_swproj] a channel is filed under its
    identity and has no curve yet. *)
Definition fresh_entry (kv : Parser.channel_key * ChannelData) : Prop :=
  fst kv = identity (snd kv) /\
  frequencies (snd kv) = [] /\ correction_dB (snd kv) = [] /\ measurement_dB (snd kv) = [].

Definition channels_inv (d : Parser.channel_dict) : Prop :=
  NoDup (map fst d) /\ Forall fresh_entry d.

(** The curves of a channel of a profile: a frequency grid and a correction
    curve of 355 points each, or none of them; a measurement curve of 355
    points on that grid, or none. *)
Definition curve_shape (ch : ChannelData) : Prop :=
  (length (frequencies ch) = 355%nat /\ length (correction_dB ch) = 355%nat \/
   frequencies ch = [] /\ correction_dB ch = []) /\
  (length (measurement_dB ch) = 355%nat /\ length (frequencies ch) = 355%nat \/
   measurement_dB ch = []).

Definition block_shape (b : Parser.block) : Prop :=
  length (Parser.freqs b) = 355%nat /\ length (Parser.values b) = 355%nat.

(** Block [b] holds the 355 points stored after the marker at [header], in
    the order of the file: point [j] starts [j * fpp] words of 32 bits after
    the marker, its frequency first and its value next, each a binary32. *)
Definition stored_block (data : bytes) (header : Z) (b : Parser.block) : Prop :=
  length (Parser.freqs b) = 355%nat /\ length (Parser.values b) = 355%nat /\
  forall j f v,
    nth_error (Parser.freqs b) j = Some f -> nth_error (Parser.values b) j = Some v ->
    unpack_from_f data (header + 8 + Z.of_nat j * Parser.fpp b * 4) = Ok f /\
    unpack_from_f data (header + 8 + Z.of_nat j * Parser.fpp b * 4 + 4) = Ok v.


(** The interpolation weight of [bf] between two neighbours of the grid
    (dsp.py:43-45). *)
Definition weight (M : Dsp.libm) (f_lo f_hi bf : float) : result float :=
  log_bf <- Dsp.math_log M bf ;;
  log_lo <- Dsp.math_log M f_lo ;;
  log_hi <- Dsp.math_log M f_hi ;;
  log_lo' <- Dsp.math_log M f_lo ;;
  div (sub log_bf log_lo) (sub log_hi log_lo').

(** Every bin that falls between two neighbours of the grid gets a weight,
    and a finite one: [math.log] accepts the three frequencies and the
    logarithms of the neighbours differ. *)
Definition weights_finite (M : Dsp.libm) (freqs bfs : list float) : Prop :=
  forall i f_lo f_hi bf,
    nth_error freqs i = Some f_lo -> nth_error freqs (S i) = Some f_hi -> In bf bfs ->
    leb f_lo bf = true -> leb f_hi bf = false ->
    exists t, weight M f_lo f_hi bf = Ok t /\ is_finite t = true.

(** What any C library returns at 0 and at 1: log(1) = 0, exp(0) = 1,
    cos(0) = 1, sin(0) = 0. *)
Definition libm_at_zero (M : Dsp.libm) : Prop :=
  is_zero (Dsp.c_log M f1) = true /\
  (forall s, Dsp.c_exp M (S754_zero s) = f1) /\
  (forall s, Dsp.c_cos M (S754_zero s) = f1) /\
  (forall s, is_zero (Dsp.c_sin M (S754_zero s)) = true).

(** The number of points of the transforms: [len(full_log_mag)]. *)
Definition transform_size (ir_length : Z) : nat :=
  let half := Z.to_nat (ir_length / 2 + 1) in (half + (half - 2))%nat.

(** The cosine and the sine of every angle of an [n]-point transform are
    finite numbers. *)
Definition angles_finite (M : Dsp.libm) (n : nat) : Prop :=
  forall k j, In k (range n) -> In j (range n) ->
    exists a, Dsp.angle k j (Z.of_nat n) = Ok a /\
              is_finite (Dsp.c_cos M a) = true /\ is_finite (Dsp.c_sin M a) = true.

(** The same number: the same float, or two zeros. *)
Definition same_number (x y : float) : Prop :=
  x = y \/ (is_zero x = true /\ is_zero y = true).

(** The mean of [1.0 * cos(2 pi k j / n)] over [j], summed in the order
    of [j]: what the last transform makes of a spectrum that is 1 at every
    bin. *)
Definition cos_mean (M : Dsp.libm) (n : nat) (k : Z) : result float :=
  s <- Dsp.foldM (fun acc j =>
                    a <- Dsp.angle k j (Z.of_nat n) ;;
                    c <- Dsp.math_cos M a ;;
                    Ok (add acc (mul f1 c)))
                 (range n) f0 ;;
  div s (of_int (Z.of_nat n)).

(** The float of a positive integer below 2^53: its digits, shifted to the
    left so that there are 53 of them. *)
Definition canon (j : Z) : float :=
  S754_finite false (Z.to_pos (j * 2 ^ (53 - Zdigits2 j))) (Zdigits2 j - 53).

(** A pair of zeros; a bin of the spectrum that is 1. *)
Definition zero_pair (z : float * float) : Prop :=
  is_zero (fst z) = true /\ is_zero (snd z) = true.

Definition unit_bin (m : float * float) : Prop := fst m = f1 /\ is_zero (snd m) = true.

(** The term of the last transform of [freq_response_to_ir] (dsp.py:94-95). *)
Definition last_term (M : Dsp.libm) (mp_spec : list (float * float)) (n : nat) (k j : Z)
    : result (float * float) :=
  a <- Dsp.angle k j (Z.of_nat n) ;;
  m <- Dsp.getitem mp_spec j ;;
  c <- Dsp.math_cos M a ;;
  s <- Dsp.math_sin M a ;;
  Ok (sub (mul (fst m) c) (mul (snd m) (neg s)), f0).

End Spec.

(** * Sample inputs *)

Module Samples.
Import Py Float Models Parser.

(** A metadata record: the key, a NUL, the length of the value as a
    little-endian 32-bit integer, the value. *)
Definition record (key val : string) : bytes :=
  list_byte_of_string key ++ [x00%byte]
    ++ Spec.pack_I (Z.of_nat (String.length val)) ++ list_byte_of_string val.

(** A block of 355 points of [width] bytes each, every byte [b]. *)
Definition block_of (width : nat) (b : byte) : bytes :=
  DATA_HEADER ++ repeat b (355 * width).

(** A run of metadata on its own. *)
Definition two_records : bytes :=
  record "ChannelDelayMs" "-1.5" ++ record "ChannelName" "FL".

(** A stereo project cut down to one block: two runs of metadata, FL and
    FR, and a single correction block (355 points of two floats, every byte
    zero) after the first. *)
Definition stereo_one_block : bytes :=
  list_byte_of_string "<ProjectHeader></ProjectHeader>"
    ++ record "ChannelDelayMs" "-1.5" ++ record "ChannelName" "FL"
    ++ record "ChannelIndex" "0" ++ record "ChannelGroup" "front"
    ++ block_of 8 x00
    ++ record "ChannelDelayMs" "0" ++ record "ChannelName" "FR"
    ++ record "ChannelIndex" "1" ++ record "ChannelGroup" "front".

(** What [parse_swproj] makes of it. *)
Definition stereo_one_block_channels :=
  Eval vm_compute in
    match parse_swproj (str "one.swproj") stereo_one_block true with
    | Ok p => channels p
    | Raise _ => []
    end.

(** The channel of the unit tests of [compute_preamp_db]: only its
    correction curve matters. *)
Definition dummy_channel (gains : list float) : ChannelData :=
  {| name := []; index := 0; group := []; delay_ms := f0;
     frequencies := []; correction_dB := gains; measurement_dB := [] |}.

Definition positive_gains : list ChannelData :=
  Eval vm_compute in
    [dummy_channel (map Prim2SF [-1.0; 2.3; 0.0]%float);
     dummy_channel (map Prim2SF [1.5; 3.0; -4.0]%float)].

Definition no_positive_gain : list ChannelData :=
  Eval vm_compute in
    [dummy_channel (map Prim2SF [-3.0; -1.0]%float);
     dummy_channel (map Prim2SF [-0.5; 0.0]%float)].

(** A curve that starts with a NaN (a float32 pattern that a data block
    can hold), before a boost and before a cut. *)
Definition nan_then_boost : list ChannelData :=
  Eval vm_compute in [dummy_channel [S754_nan; Prim2SF 5.0]].

Definition nan_then_cut : list ChannelData :=
  Eval vm_compute in [dummy_channel [S754_nan; Prim2SF (-5.0)]].

(** A signal of peak amplitude 2.0. *)
Definition peak_two : list float :=
  Eval vm_compute in map Prim2SF [0.5; -2.0; 1.0; 2.0]%float.

(** An excerpt of a C mathematical library: the values an IEEE-754 double
    library returns at the few arguments the examples below reach ([log] at
    1, 2, 4, 1e300 and the next float after 1e300; [exp], [cos] and [sin] at
    0; [exp] at infinity); a NaN stands for an argument that is not
    tabulated. *)
Definition same_float (x y : float) : bool :=
  match x, y with
  | S754_zero a, S754_zero b => Bool.eqb a b
  | S754_infinity a, S754_infinity b => Bool.eqb a b
  | S754_nan, S754_nan => true
  | S754_finite a m e, S754_finite b m' e' => Bool.eqb a b && Pos.eqb m m' && Z.eqb e e'
  | _, _ => false
  end.

Fixpoint tabulated (table : list (float * float)) (x : float) : float :=
  match table with
  | [] => S754_nan
  | (k, v) :: table' => if same_float k x then v else tabulated table' x
  end.

Definition libm_excerpt : Dsp.libm :=
  Eval vm_compute in
  {| Dsp.c_log := tabulated [(Prim2SF 1.0, Prim2SF 0.0);
                             (Prim2SF 2.0, Prim2SF 0.6931471805599453);
                             (Prim2SF 4.0, Prim2SF 1.3862943611198906);
                             (Prim2SF 1e300, Prim2SF 690.7755278982137);
                             (Prim2SF 1.0000000000000002e300, Prim2SF 690.7755278982137)];
     Dsp.c_exp := tabulated [(Prim2SF 0.0, Prim2SF 1.0); (Prim2SF (-0.0), Prim2SF 1.0);
                             (Prim2SF infinity, Prim2SF infinity)];
     Dsp.c_cos := tabulated [(Prim2SF 0.0, Prim2SF 1.0); (Prim2SF (-0.0), Prim2SF 1.0)];
     Dsp.c_sin := tabulated [(Prim2SF 0.0, Prim2SF 0.0); (Prim2SF (-0.0), Prim2SF (-0.0))];
     Dsp.c_pow := fun _ _ => S754_nan |}.

(** A larger excerpt of the same library: the values it returns at every
    argument that the syntheses below reach with four bins (the shelf on
    both paths, the flat curves on the reference path), and at the zeros. *)
Definition libm_synthesis : Dsp.libm :=
  Eval vm_compute in
  {| Dsp.c_log := tabulated
       [(Prim2SF 0x1.0000000000000p+0, Prim2SF 0x0.0p+0);
        (Prim2SF 0x1.fec982d5bb8afp+0, Prim2SF 0x1.61ad547a66619p-1);
        (Prim2SF 0x1.7700000000000p+13, Prim2SF 0x1.2c90afbfce76fp+3);
        (Prim2SF 0x1.4000000000000p+4, Prim2SF 0x1.7f7427b73e391p+1);
        (Prim2SF 0x1.3880000000000p+14, Prim2SF 0x1.3ce95eba4f8b4p+3);
        (Prim2SF 0x1.76fffffffffffp+13, Prim2SF 0x1.2c90afbfce76fp+3);
        (Prim2SF 0x1.7700000000001p+13, Prim2SF 0x1.2c90afbfce76fp+3)];
     Dsp.c_exp := tabulated
       [(Prim2SF (-0x1.0000000000000p-55), Prim2SF 0x1.0000000000000p+0);
        (Prim2SF 0x1.61ad547a66618p-1, Prim2SF 0x1.fec982d5bb8aep+0);
        (Prim2SF 0x1.61ad547a6661ap-1, Prim2SF 0x1.fec982d5bb8b0p+0);
        (Prim2SF 0x1.61ad547a66619p-1, Prim2SF 0x1.fec982d5bb8afp+0);
        (Prim2SF 0x0.0p+0, Prim2SF 0x1.0000000000000p+0);
        (Prim2SF (-0x0.0p+0), Prim2SF 0x1.0000000000000p+0)];
     Dsp.c_cos := tabulated
       [(Prim2SF 0x0.0p+0, Prim2SF 0x1.0000000000000p+0);
        (Prim2SF 0x1.921fb54442d18p+0, Prim2SF 0x1.1a62633145c07p-54);
        (Prim2SF 0x1.921fb54442d18p+1, Prim2SF (-0x1.0000000000000p+0));
        (Prim2SF 0x1.2d97c7f3321d2p+2, Prim2SF (-0x1.a79394c9e8a0ap-53));
        (Prim2SF 0x1.921fb54442d18p+2, Prim2SF 0x1.0000000000000p+0);
        (Prim2SF 0x1.2d97c7f3321d2p+3, Prim2SF (-0x1.0000000000000p+0));
        (Prim2SF 0x1.c463abeccb2bbp+3, Prim2SF 0x1.3daeaf976e788p-51);
        (Prim2SF (-0x1.0000000000000p-54), Prim2SF 0x1.0000000000000p+0);
        (Prim2SF 0x1.61ad547a6661ap-2, Prim2SF 0x1.e1c371902cc54p-1);
        (Prim2SF 0x1.0000000000000p-54, Prim2SF 0x1.0000000000000p+0);
        (Prim2SF (-0x1.61ad547a66619p-2), Prim2SF 0x1.e1c371902cc54p-1);
        (Prim2SF 0x1.0000000000000p-107, Prim2SF 0x1.0000000000000p+0);
        (Prim2SF (-0x0.0p+0), Prim2SF 0x1.0000000000000p+0)];
     Dsp.c_sin := tabulated
       [(Prim2SF 0x0.0p+0, Prim2SF 0x0.0p+0);
        (Prim2SF 0x1.921fb54442d18p+0, Prim2SF 0x1.0000000000000p+0);
        (Prim2SF 0x1.921fb54442d18p+1, Prim2SF 0x1.1a62633145c07p-53);
        (Prim2SF 0x1.2d97c7f3321d2p+2, Prim2SF (-0x1.0000000000000p+0));
        (Prim2SF 0x1.921fb54442d18p+2, Prim2SF (-0x1.1a62633145c07p-52));
        (Prim2SF 0x1.2d97c7f3321d2p+3, Prim2SF 0x1.a79394c9e8a0ap-52);
        (Prim2SF 0x1.c463abeccb2bbp+3, Prim2SF 0x1.0000000000000p+0);
        (Prim2SF (-0x1.0000000000000p-54), Prim2SF (-0x1.0000000000000p-54));
        (Prim2SF 0x1.61ad547a6661ap-2, Prim2SF 0x1.5aafe226e032ap-2);
        (Prim2SF 0x1.0000000000000p-54, Prim2SF 0x1.0000000000000p-54);
        (Prim2SF (-0x1.61ad547a66619p-2), Prim2SF (-0x1.5aafe226e0329p-2));
        (Prim2SF 0x1.0000000000000p-107, Prim2SF 0x1.0000000000000p-107);
        (Prim2SF (-0x0.0p+0), Prim2SF (-0x0.0p+0))];
     Dsp.c_pow := fun x y =>
       if same_float x (Prim2SF 10.0)
       then tabulated
       [(Prim2SF 0x1.3333333333333p-2, Prim2SF 0x1.fec982d5bb8afp+0)] y
       else S754_nan |}.

(** A shelf: 0 dB up to 1 kHz, 6 dB from 10 kHz on. *)
Definition shelf_grid : list float :=
  Eval vm_compute in map Prim2SF [1000.0; 10000.0]%float.
Definition shelf_gains : list float :=
  Eval vm_compute in map Prim2SF [0.0; 6.0]%float.

(** Flat curves of two points: over the audio band, over a grid that
    starts at 0 Hz, and over the two floats next to 12 kHz, whose
    logarithms round to the same float. *)
Definition audio_grid : list float :=
  Eval vm_compute in map Prim2SF [20.0; 20000.0]%float.
Definition grid_from_zero : list float :=
  Eval vm_compute in map Prim2SF [0.0; 20000.0]%float.
Definition grid_around_bin : list float :=
  Eval vm_compute in map Prim2SF [0x1.76fffffffffffp+13; 0x1.7700000000001p+13]%float.
Definition flat_gains : list float :=
  Eval vm_compute in map Prim2SF [0.0; 0.0]%float.

(** What the two paths make of the shelf at 48 kHz with four samples:
    1.6875, 0.0889, -0.1899, -0.5866 on the reference path and
    1.6875, -0.5866, -0.1899, 0.0889 on the numpy path. *)
Definition shelf_reference_ir : list float :=
  Eval vm_compute in
    map Prim2SF [0x1.b00205efa5c9cp+0; 0x1.6c50884a9e7c8p-4;
                 (-0x1.84ea242640222p-3); (-0x1.2c5393df0f5a8p-1)]%float.
Definition shelf_numpy_ir : list float :=
  Eval vm_compute in
    map Prim2SF [0x1.b00205efa5c9cp+0; (-0x1.2c5393df0f5aap-1);
                 (-0x1.84ea242640220p-3); 0x1.6c50884a9e7d8p-4]%float.

(** Grids and gains: octaves from 1 Hz; a grid that crosses 0 Hz; a grid
    with two neighbouring floats, whose logarithms round to the same float;
    gains with a step that overflows; a single point; an infinite gain. *)
Definition crowded_grid : list float :=
  Eval vm_compute in map Prim2SF [1.0; 1e300; 1.0000000000000002e300]%float.
Definition steep_gains : list float :=
  Eval vm_compute in map Prim2SF [0.0; 1e308; -1e308]%float.
Definition octave_grid : list float :=
  Eval vm_compute in map Prim2SF [1.0; 2.0; 4.0]%float.
Definition octave_gains : list float :=
  Eval vm_compute in map Prim2SF [0.0; 3.0; -1.5]%float.
Definition grid_through_zero : list float :=
  Eval vm_compute in map Prim2SF [-1.0; 0.0; 1.0]%float.
Definition one_point_grid : list float :=
  Eval vm_compute in map Prim2SF [100.0]%float.
Definition one_point_gain : list float :=
  Eval vm_compute in map Prim2SF [0.0]%float.
Definition two_point_grid : list float :=
  Eval vm_compute in map Prim2SF [100.0; 200.0]%float.
Definition infinite_gain : list float :=
  Eval vm_compute in map Prim2SF [infinity; 0.0]%float.

(** A data-block marker at the very end of the buffer. *)
Definition truncated_block : bytes := PROJECT_HEADER_END ++ DATA_HEADER.

(** A complete block after a run of metadata whose ChannelIndex is [x]. *)
Definition bad_channel_index : bytes :=
  PROJECT_HEADER_END ++ record "ChannelDelayMs" "0" ++ record "ChannelIndex" "x"
    ++ block_of 8 x00.

(** A complete block after a run of metadata whose ChannelDelayMs is
    [abc]. *)
Definition bad_channel_delay : bytes :=
  PROJECT_HEADER_END ++ record "ChannelDelayMs" "abc" ++ block_of 8 x00.

End Samples.

(** * The layout of the file, as the parser reads it *)

Module Layout.
Import Py Float Models.

(** [pat] starts at offset [k] of [data]. *)
Definition occurs_at (pat data : bytes) (k : Z) : Prop :=
  exists pre suf : bytes, data = pre ++ pat ++ suf /\ len pre = k.

(** No proper shift of [pat] lets it overlap itself. *)
Definition overlaps_at (pat : bytes) (d : nat) : bool :=
  starts_with (skipn d pat) pat.

Definition unbordered (pat : bytes) : bool :=
  forallb (fun d => negb (overlaps_at pat d)) (seq 1 (length pat - 1)).

(** What [_parse_metadata] accepts as an entry: a printable key of 2 to 50
    characters and a value of at most 200. *)
Definition entry_ok (kv : pystr * pystr) : Prop :=
  isprintable (fst kv) = true /\ 2 <= len (fst kv) <= 50 /\ len (snd kv) <= 200.

(** The layout of a metadata record: the key, a NUL, the length of the
    value as a little-endian 32-bit integer, the value. *)
Definition encode_record (kv : bytes * bytes) : bytes :=
  fst kv ++ [x00%byte] ++ Spec.pack_I (len (snd kv)) ++ snd kv.

Definition printable_ascii (b : byte) : bool :=
  (32 <=? byte_val b) && (byte_val b <=? 126).

(** A record the scan accepts as it stands. *)
Definition record_ok (kv : bytes * bytes) : Prop :=
  forallb printable_ascii (fst kv) = true /\ 2 <= len (fst kv) <= 50 /\ len (snd kv) <= 200.

(** A byte that decodes to a control character: no key can start with it. *)
Definition control_byte (b : byte) : bool :=
  (byte_val b <? 32) || (byte_val b =? 127).

(** A run of records, each behind some filler bytes. *)
Definition encode_padded (items : list (bytes * (bytes * bytes))) : bytes :=
  flat_map (fun it => fst it ++ encode_record (snd it)) items.

Definition padded_ok (it : bytes * (bytes * bytes)) : Prop :=
  forallb control_byte (fst it) = true /\ record_ok (snd it).

(** [meta[key] = val] for each record in turn. *)
Definition records_dict (recs : list (bytes * bytes)) (meta : Parser.metadata) : Parser.metadata :=
  fold_left (fun m kv => dict_set str_eqb m (decode_ascii_replace (fst kv))
                                  (decode_ascii_replace (snd kv))) recs meta.

(** The bytes of a block body: for each point its 32-bit words, little
    end first. *)
Definition encode_points (points : list (list Z)) : bytes :=
  flat_map (flat_map Spec.pack_I) points.

(** A point of [n] words of 32 bits. *)
Definition point_ok (n : Z) (p : list Z) : Prop :=
  len p = n /\ Forall (fun w => 0 <= w < 2 ^ 32) p.

End Layout.

(** * The sign of a float *)

Module Sign.
Import Py Float.

(** The sign bit of a float (clear for a NaN). *)
Definition negative (x : float) : bool :=
  match x with
  | S754_zero s | S754_infinity s | S754_finite s _ _ => s
  | S754_nan => false
  end.

End Sign.

(** * More sample inputs *)

Module Examples.
Import Py Float Models Parser.

(** Two records of a run of metadata, behind two NUL bytes and a tab. *)
Definition fl_padded : list (bytes * (bytes * bytes)) :=
  [([x00%byte; x00%byte],
    (list_byte_of_string "ChannelDelayMs", list_byte_of_string "-1.5"));
   ([x09%byte], (list_byte_of_string "ChannelName", list_byte_of_string "FL"))].

(** A correction block: 355 times the point (1000.0 Hz, 1.5 dB), as the
    binary32 words 0x447a0000 and 0x3fc00000. *)
Definition tone_points : list (list Z) := repeat [1148846080; 1069547520] 355.

End Examples.

(** * exporters/easyeffects_exporter.py *)

Module Easyeffects.
Import Py Float Models Dsp.

(** The samples that [export_easyeffects] hands to [writeframes]
    (lines 19-24): a common scale from the peak over all the responses, then
    one frame for each sample of the first response, with a sample of every
    response in it. *)
Definition interleaved (irs : list (list float)) : result (list Z) :=
  peaks <- mapM (fun ir => max_list (map Float.abs ir)) irs ;;
  m <- max_list peaks ;;
  let peak := if is_zero m then f1 else m in
  scale <- div f0_95 peak ;;
  first <- getitem irs 0 ;;
  frames <- mapM (fun i => mapM (fun ir => s <- getitem ir i ;; quantize scale s) irs)
                 (range (length first)) ;;
  Ok (concat frames).

End Easyeffects.

(** * export_pipeline.py *)

Module Pipeline.
Import Py Float Models Parser Dsp.

(** [min(l)]: the first item, replaced by each later item that is smaller
    (on an empty sequence [min] raises the [ValueError] that [max] raises). *)
Definition min_list (l : list float) : result float :=
  match l with
  | [] => Raise ValueError_empty_max
  | x :: l' => Ok (fold_left min2 l' x)
  end.

(** The numbers that the summary of [run_export] prints for a channel
    (lines 27-28): the first and the last frequency, the least and the
    greatest correction.  The text is not modelled. *)
Definition summary (ch : ChannelData) : result (float * float * float * float) :=
  first <- getitem (frequencies ch) 0 ;;
  last <- getitem (frequencies ch) (-1) ;;
  lo <- min_list (correction_dB ch) ;;
  hi <- max_list (correction_dB ch) ;;
  Ok (first, last, lo, hi).

(** [run_export] up to the end of its summary (lines 20-28). *)
Definition run_export_summary (filepath : pystr) (data : bytes)
    : result (list (float * float * float * float)) :=
  profile <- parse_swproj filepath data true ;;
  mapM summary (channels profile).

End Pipeline.

(** * exporters/csv_exporter.py and exporters/eqapo_exporter.py *)

Module Csv.
Import Py Float Models Dsp.

(** The numbers in the rows that [export_csv] writes under its header
    (lines 11-15): for each index of the frequencies of the first channel,
    that frequency and the correction of every channel at that index.  The
    text of the cells is not modelled. *)
Definition export_csv (channels : list ChannelData) : result (list (float * list float)) :=
  first <- getitem channels 0 ;;
  mapM (fun i =>
          f <- getitem (frequencies first) i ;;
          row <- mapM (fun ch => getitem (correction_dB ch) i) channels ;;
          Ok (f, row))
       (range (length (frequencies first))).

End Csv.

Module Eqapo.
Import Py Float Models Dsp.

(** What [export_eqapo] writes for each channel (lines 8-19): the gain of
    its [Preamp] line when it has one, and the points of its [GraphicEQ]
    line.  The text is not modelled. *)
Definition export_eqapo (channels : list ChannelData)
    : result (list (option float * list (float * float))) :=
  global_preamp <- compute_preamp_db channels default_headroom_db ;;
  Ok (map (fun ch => (if ltb global_preamp f0 then Some global_preamp else None,
                      combine (frequencies ch) (correction_dB ch)))
          channels).

End Eqapo.

(** * swproj2eq.py, the single-file script *)

Module Script.
Import Py Float Models Parser Dsp.

(** A Python number: the script's preamp is the integer 0 or a float. *)
Inductive number : Type :=
| Int (n : Z)
| Flt (x : float).

Definition to_float (v : number) : float :=
  match v with
  | Int n => of_int n
  | Flt x => x
  end.

(** The preamp of [export_pipewire] and [export_easyeffects]
    (lines 449-450 and 571-572). *)
Definition preamp_dB (channels : list ChannelData) : result number :=
  gains <- mapM (fun ch => max_list (correction_dB ch)) channels ;;
  all_max <- max_list gains ;;
  if gtb all_max f0 then Ok (Flt (neg (add all_max (of_int 1)))) else Ok (Int 0).

(** What the script's parser does: it returns, or raises one of the
    exceptions of the package's parser, or raises its own [ValueError]
    for a missing header (line 46). *)
Inductive outcome (A : Type) : Type :=
| Returned (a : A)
| Raised (e : exn)
| Raised_not_valid.
Arguments Returned {A} a.
Arguments Raised {A} e.
Arguments Raised_not_valid {A}.

Definition of_result {A : Type} (r : result A) : outcome A :=
  match r with
  | Ok a => Returned a
  | Raise e => Raised e
  end.

(** One turn of [for i, meta in enumerate(meta_blocks)] (lines 111-124). *)
Definition add_meta (channels : channel_dict) (item : Z * metadata) : result channel_dict :=
  let (i, meta) := item in
  let ch_name :=
    get_default str_eqb meta (str "ChannelName") (str "Channel_" ++ str_of_int i) in
  ch_idx <- match dict_get str_eqb meta (str "ChannelIndex") with
            | Some v => int_of_str v
            | None => Ok i
            end ;;
  let key := (ch_name, ch_idx) in
  let channels :=
    if dict_contains key_eqb channels key then channels
    else dict_set key_eqb channels key
           {| name := ch_name; index := ch_idx;
              group := get_default str_eqb meta (str "ChannelGroup") (str "");
              delay_ms := f0;
              frequencies := []; correction_dB := []; measurement_dB := [] |} in
  let delay_str := get_default str_eqb meta (str "ChannelDelayMs") (str "0") in
  delay_val <- (if str_eqb delay_str (str "-0") || str_eqb delay_str (str "0")
                then Ok f0 else float_of_str delay_str) ;;
  if neqb delay_val f0 then
    match dict_get key_eqb channels key with
    | Some ch => Ok (dict_set key_eqb channels key (set_delay_ms ch (Float.abs delay_val)))
    | None => Ok channels
    end
  else Ok channels.

(** [parse_swproj(filepath)] of the script (lines 40-136), [data] being the
    contents of the file.  Its scans, its metadata reader and its block
    reader are those of the package, word for word. *)
Definition parse_swproj (data : bytes) : outcome (list ChannelData) :=
  let xml_end := find data PROJECT_HEADER_END 0 (len data) in
  if xml_end =? -1 then Raised_not_valid
  else
    let data_headers := find_data_headers data in
    let delay_positions := finditer_starts CHANNEL_DELAY_MS data in
    let all_boundaries := sorted_by (fun b => b) (data_headers ++ delay_positions) in
    of_result (
      blocks <- _parse_blocks data data_headers all_boundaries ;;
      meta_blocks <- mapM (fun dp => _parse_metadata data dp all_boundaries) delay_positions ;;
      channels <- foldM add_meta (enumerate meta_blocks) [] ;;
      let channel_list := sorted_by index (dict_values channels) in
      Ok (map (assign_blocks blocks) (enumerate channel_list))).

End Script.

(** * Properties of the Python runtime model *)

Section PyFacts.
Import Py.

Lemma len_nonneg {A : Type} (l : list A) : 0 <= len l.
Proof. unfold len. lia. Qed.

Lemma len_app {A : Type} (l1 l2 : list A) : len (l1 ++ l2) = len l1 + len l2.
Proof. unfold len. rewrite length_app. lia. Qed.

Lemma starts_with_iff (sub l : bytes) :
  starts_with sub l = true <-> exists suf, l = sub ++ suf.
Proof.
  revert l. induction sub as [|b sub IH]; intros l; simpl.
  - split; [intros _; now exists l | reflexivity].
  - destruct l as [|c l].
    + split; [discriminate | intros [suf H]; discriminate].
    + rewrite andb_true_iff, IH. split.
      * intros [Hb [suf ->]]. apply byte_dec_bl in Hb. subst. now exists suf.
      * intros [suf H]. injection H as -> ->. split; [now apply byte_dec_lb | now exists suf].
Qed.

(** [find_in] returns the first candidate at which [sub] starts. *)
Lemma find_in_none (sub l : bytes) (i : Z) (n : nat) :
  0 <= i ->
  find_in sub l i n = -1 <->
  forall k, (k < n)%nat -> starts_with sub (skipn k l) = false.
Proof.
  revert l i. induction n as [|n IH]; intros l i Hi; simpl.
  - split; [intros _ k Hk; lia | reflexivity].
  - destruct (starts_with sub l) eqn:Hs.
    + split; [intros; lia |]. intros H. specialize (H 0%nat ltac:(lia)). simpl in H. congruence.
    + destruct l as [|c l].
      * split; [| reflexivity]. intros _ k _. rewrite skipn_nil. exact Hs.
      * rewrite IH by lia. split.
        -- intros H [|k] Hk; [exact Hs | apply H; lia].
        -- intros H k Hk. apply (H (S k)). lia.
Qed.

Lemma find_in_some (sub l : bytes) (i : Z) (n : nat) :
  0 <= i ->
  find_in sub l i n <> -1 ->
  exists k, (k < n)%nat /\ find_in sub l i n = i + Z.of_nat k /\
            starts_with sub (skipn k l) = true.
Proof.
  revert l i. induction n as [|n IH]; intros l i Hi; simpl; [congruence|].
  destruct (starts_with sub l) eqn:Hs.
  - intros _. exists 0%nat. simpl. repeat split; [lia | lia | exact Hs].
  - destruct l as [|c l]; [congruence|]. intros H.
    destruct (IH l (i + 1) ltac:(lia) H) as (k & Hk & Hr & Hsw).
    exists (S k). simpl. repeat split; [lia | lia | exact Hsw].
Qed.

Lemma occurs_iff (pat data : bytes) :
  Spec.occurs pat data <->
  exists k, (k + length pat <= length data)%nat /\ starts_with pat (skipn k data) = true.
Proof.
  split.
  - intros (pre & suf & ->). exists (length pre). split.
    + rewrite !length_app. lia.
    + rewrite skipn_app, skipn_all, Nat.sub_diag. simpl.
      apply starts_with_iff. now exists suf.
  - intros (k & Hk & Hs). apply starts_with_iff in Hs as [suf Hs].
    exists (firstn k data), suf. rewrite <- Hs. symmetry. apply firstn_skipn.
Qed.

(** A search over the whole buffer fails exactly when the pattern does not
    occur. *)
Lemma find_whole_none (data pat : bytes) :
  find data pat 0 (len data) = -1 <-> ~ Spec.occurs pat data.
Proof.
  unfold find, adjust_start, adjust_end.
  assert (H0 := len_nonneg data). assert (H1 := len_nonneg pat).
  assert (Hg : (len data >? len data) = false)
    by (rewrite Z.gtb_ltb; apply Z.ltb_irrefl).
  assert (Hl : (len data <? 0) = false) by (apply Z.ltb_ge; lia).
  change (0 <? 0) with false. cbv iota. rewrite Hg, Hl.
  rewrite occurs_iff. simpl skipn.
  destruct (len data - 0 <? len pat) eqn:Hlt.
  - apply Z.ltb_lt in Hlt. split; [| reflexivity].
    intros _ (k & Hk & _). unfold len in *. lia.
  - apply Z.ltb_ge in Hlt. rewrite find_in_none by lia. split.
    + intros H (k & Hk & Hs). rewrite H in Hs; [discriminate|]. unfold len in *. lia.
    + intros H k Hk. destruct (starts_with pat (skipn k data)) eqn:Hs; [|reflexivity].
      exfalso. apply H. exists k. split; [unfold len in *; lia | exact Hs].
Qed.

Lemma adjust_start_ge (n i : Z) : 0 <= n -> i <= adjust_start n i /\ (0 <= i \/ 0 <= adjust_start n i).
Proof. unfold adjust_start. destruct (i <? 0) eqn:E; [apply Z.ltb_lt in E | apply Z.ltb_ge in E]; lia. Qed.

(** A hit of [find] lies at or after the start of the search. *)
Lemma find_hit_ge (data sub : bytes) (start stop : Z) :
  find data sub start stop <> -1 ->
  start <= find data sub start stop /\ 0 <= find data sub start stop.
Proof.
  unfold find.
  destruct (adjust_start_ge (len data) start (len_nonneg data)) as [H1 H2].
  set (s := adjust_start (len data) start) in *.
  assert (Hs : 0 <= s).
  { subst s. unfold adjust_start. destruct (start <? 0) eqn:E; [lia | apply Z.ltb_ge in E; lia]. }
  destruct (_ <? len sub); [congruence|]. intros H.
  destruct (find_in_some _ _ _ _ Hs H) as (k & _ & -> & _). lia.
Qed.

End PyFacts.

(** * The parser: header and data-block checks *)

Section ParserChecks.
Import Py Models Parser.

(** The marker is the point count 355 followed by the type tag 7, each a
    little-endian 32-bit integer. *)
Lemma data_header_layout : DATA_HEADER = Spec.pack_I POINTS_PER_CURVE ++ Spec.pack_I 7.
Proof. reflexivity. Qed.

Lemma find_data_headers_nil (data : bytes) :
  find_data_headers data = [] <-> ~ Spec.occurs DATA_HEADER data.
Proof.
  unfold find_data_headers. simpl find_all. rewrite <- find_whole_none.
  destruct (find data DATA_HEADER 0 (len data) =? -1) eqn:E.
  - apply Z.eqb_eq in E. tauto.
  - apply Z.eqb_neq in E. split; [discriminate | tauto].
Qed.

(** The search loops are given enough turns: more would find the same
    offsets. *)
Lemma find_all_enough (data pat : bytes) (step : Z) (fuel : nat) :
  0 < step ->
  forall pos fuel', 0 <= pos -> len data - pos < Z.of_nat fuel -> (fuel <= fuel')%nat ->
                    find_all fuel' data pat pos step = find_all fuel data pat pos step.
Proof.
  intros Hstep. induction fuel as [|fuel IH]; intros pos fuel' Hpos Hlen Hle.
  - assert (Hnone : find data pat pos (len data) = -1).
    { unfold find, adjust_start, adjust_end.
      destruct (pos <? 0) eqn:E; [apply Z.ltb_lt in E; lia|].
      assert (Hg : (len data >? len data) = false)
        by (rewrite Z.gtb_ltb; apply Z.ltb_irrefl).
      assert (Hl : (len data <? 0) = false) by (apply Z.ltb_ge; apply len_nonneg).
      rewrite Hg, Hl.
      destruct (len data - pos <? len pat) eqn:E2; [reflexivity|].
      apply Z.ltb_ge in E2. pose proof (len_nonneg pat). lia. }
    destruct fuel'; simpl; [reflexivity | now rewrite Hnone].
  - destruct fuel' as [|fuel']; [lia|]. simpl.
    destruct (find data pat pos (len data) =? -1) eqn:E; [reflexivity|].
    apply Z.eqb_neq in E. destruct (find_hit_ge _ _ _ _ E) as [Hge H0].
    f_equal. apply IH; lia.
Qed.

(** C8. A buffer in which [</ProjectHeader>] does not occur is rejected with
    MissingHeader; a buffer in which it occurs, but the 8-byte data-block
    marker (355 then 7, each a little-endian 32-bit integer) does not, is
    rejected with NoDataBlocks. *)
Theorem parse_missing_header_or_blocks (path : pystr) (data : bytes) (require_stereo : bool) :
  PROJECT_HEADER_END = list_byte_of_string "</ProjectHeader>" /\
  DATA_HEADER = Spec.pack_I 355 ++ Spec.pack_I 7 /\
  (~ Spec.occurs PROJECT_HEADER_END data ->
   parse_swproj path data require_stereo = Raise MissingHeader) /\
  (Spec.occurs PROJECT_HEADER_END data -> ~ Spec.occurs DATA_HEADER data ->
   parse_swproj path data require_stereo = Raise NoDataBlocks).
Proof.
  split; [reflexivity|]. split; [reflexivity|]. unfold parse_swproj. split.
  - intros H. apply find_whole_none in H. rewrite H. reflexivity.
  - intros Hh Hd.
    destruct (find data PROJECT_HEADER_END 0 (len data) =? -1) eqn:E.
    + apply Z.eqb_eq, find_whole_none in E. contradiction.
    + apply find_data_headers_nil in Hd. rewrite Hd. reflexivity.
Qed.

Lemma parse_missing_header_or_blocks_witness :
  parse_swproj (str "bad.swproj") (list_byte_of_string "not-a-real-swproj") true
    = Raise MissingHeader /\
  parse_swproj (str "empty.swproj") (list_byte_of_string "<x></ProjectHeader>tail") true
    = Raise NoDataBlocks.
Proof.
  split.
  - apply (proj1 (proj2 (proj2 (parse_missing_header_or_blocks _ _ _)))).
    apply find_whole_none. vm_compute. reflexivity.
  - apply (proj2 (proj2 (proj2 (parse_missing_header_or_blocks _ _ _)))).
    + exists (list_byte_of_string "<x>"), (list_byte_of_string "tail"). reflexivity.
    + apply find_whole_none. vm_compute. reflexivity.
Defined.

End ParserChecks.

(** * The parser: the metadata scan *)

Section MetadataScan.
Import Py Models Parser.

Lemma byte_val_nonneg (b : byte) : 0 <= byte_val b.
Proof. unfold byte_val. lia. Qed.

Lemma le_uint_nonneg (w : bytes) : 0 <= le_uint w.
Proof. induction w as [|b w IH]; cbn [le_uint]; [lia | pose proof (byte_val_nonneg b); lia]. Qed.

(** Inside the buffer [struct.unpack_from] does not raise. *)
Lemma unpack_window_ok (data : bytes) (offset : Z) :
  0 <= offset -> offset + 4 <= len data ->
  unpack_window data offset = Ok (firstn 4 (skipn (Z.to_nat offset) data)).
Proof.
  intros H0 H4. unfold unpack_window.
  destruct (offset <? 0) eqn:E1; [apply Z.ltb_lt in E1; lia|]. rewrite E1.
  destruct (len data - offset <? 4) eqn:E2; [apply Z.ltb_lt in E2; lia | reflexivity].
Qed.

(** What a turn of the scan can do: it never raises, and a record it
    accepts ends past the NUL that closes the key, the four bytes of the
    length and the value. *)
Lemma metadata_step_cases (data : bytes) (pos : Z) :
  metadata_step data pos = Ok Resync \/
  metadata_step data pos = Ok Stop \/
  exists key val null_pos val_len,
    metadata_step data pos = Ok (Accept key val (null_pos + 1 + 4 + val_len)) /\
    pos <= null_pos /\ 0 <= val_len <= 200.
Proof.
  unfold metadata_step.
  set (null_pos := find data [x00%byte] pos (pos + 100)).
  destruct ((null_pos =? -1) || (null_pos - pos >? 50)) eqn:E1; [now left|].
  apply orb_false_iff in E1 as [E1 _]. apply Z.eqb_neq in E1.
  destruct (find_hit_ge _ _ _ _ E1) as [Hge H0]. fold null_pos in Hge, H0.
  destruct (negb _ || _); [now left|].
  destruct (null_pos + 1 + 4 >? len data) eqn:E2; [now right; left|].
  rewrite Z.gtb_ltb in E2. apply Z.ltb_ge in E2.
  unfold unpack_from_I. rewrite unpack_window_ok by lia. simpl bind.
  set (val_len := le_uint _).
  destruct (val_len >? 200) eqn:E3; [now left|].
  rewrite Z.gtb_ltb in E3. apply Z.ltb_ge in E3.
  right; right. eexists _, _, null_pos, val_len. split; [reflexivity|].
  split; [exact Hge|]. split; [apply le_uint_nonneg | exact E3].
Qed.

(** With one turn allowed for every byte between the cursor and the end,
    the loop ends, and it ends normally. *)
Lemma metadata_loop_enough (data : bytes) (end_ : Z) (fuel : nat) :
  forall pos meta, end_ - pos <= Z.of_nat fuel ->
  exists meta', metadata_loop fuel data end_ pos meta = Some (Ok meta').
Proof.
  induction fuel as [|fuel IH]; intros pos meta Hf.
  - simpl. destruct (pos <? end_) eqn:E; [apply Z.ltb_lt in E; lia|]. now exists meta.
  - simpl. destruct (pos <? end_) eqn:E; [|now exists meta].
    destruct (metadata_step_cases data pos)
      as [-> | [-> | (key & val & np & vl & -> & Hnp & Hvl)]].
    + apply IH. lia.
    + now exists meta.
    + apply IH. lia.
Qed.

(** More turns than needed do not change the result. *)
Lemma metadata_loop_stable (data : bytes) (end_ : Z) (fuel : nat) :
  forall pos meta r, metadata_loop fuel data end_ pos meta = Some r ->
  forall fuel', (fuel <= fuel')%nat -> metadata_loop fuel' data end_ pos meta = Some r.
Proof.
  induction fuel as [|fuel IH]; intros pos meta r H fuel' Hle.
  - simpl in H. destruct (pos <? end_) eqn:E; [discriminate|].
    destruct fuel'; simpl; rewrite E; exact H.
  - destruct fuel' as [|fuel']; [lia|]. simpl in *.
    destruct (pos <? end_); [|exact H].
    destruct (metadata_step data pos) as [[| key val next |]|e]; try exact H;
      (eapply IH; [exact H | lia]).
Qed.

(** C10. The metadata scan ends on every buffer, start position and
    boundary list: a turn never raises; a resynchronisation moves the cursor
    by exactly one byte; an accepted record moves it past the NUL, the
    4-byte length and the value, so by five bytes at least; and once the
    loop is allowed one turn for each byte between the start and the end of
    the scan it returns, the same map whatever the allowance. *)
Theorem metadata_loop_terminates (data : bytes) (start_pos : Z) (boundaries : list Z) :
  let end_ := metadata_end data start_pos boundaries in
  (forall pos, metadata_step data pos = Ok Resync \/
               metadata_step data pos = Ok Stop \/
               exists key val null_pos val_len,
                 metadata_step data pos = Ok (Accept key val (null_pos + 1 + 4 + val_len)) /\
                 pos <= null_pos /\ 0 <= val_len <= 200) /\
  (forall fuel pos meta, pos < end_ -> metadata_step data pos = Ok Resync ->
     metadata_loop (S fuel) data end_ pos meta = metadata_loop fuel data end_ (pos + 1) meta) /\
  (forall fuel pos meta key val next_pos, pos < end_ ->
     metadata_step data pos = Ok (Accept key val next_pos) ->
     pos + 5 <= next_pos /\
     metadata_loop (S fuel) data end_ pos meta
       = metadata_loop fuel data end_ next_pos (dict_set str_eqb meta key val)) /\
  exists meta,
    _parse_metadata data start_pos boundaries = Ok meta /\
    forall fuel, (Z.to_nat (end_ - start_pos) <= fuel)%nat ->
                 metadata_loop fuel data end_ start_pos [] = Some (Ok meta).
Proof.
  intros end_. split; [apply metadata_step_cases|]. split; [|split].
  - intros fuel pos meta Hlt Hs. simpl.
    apply Z.ltb_lt in Hlt. rewrite Hlt, Hs. reflexivity.
  - intros fuel pos meta key val next_pos Hlt Hs. split.
    + destruct (metadata_step_cases data pos)
        as [H | [H | (k & v & np & vl & H & Hnp & Hvl)]];
        rewrite H in Hs; try discriminate.
      injection Hs as _ _ <-. lia.
    + simpl. apply Z.ltb_lt in Hlt. rewrite Hlt, Hs. reflexivity.
  - destruct (metadata_loop_enough data end_ (Z.to_nat (end_ - start_pos)) start_pos [])
      as [meta Hm]; [lia|].
    exists meta. split.
    + unfold _parse_metadata. fold end_. rewrite Hm. reflexivity.
    + intros fuel Hle. eapply metadata_loop_stable; eassumption.
Qed.

Lemma metadata_loop_terminates_witness :
  exists meta,
    _parse_metadata Samples.two_records 0 [] = Ok meta /\
    metadata_loop 64 Samples.two_records (len Samples.two_records) 0 [] = Some (Ok meta).
Proof.
  destruct (metadata_loop_terminates Samples.two_records 0 []) as (_ & _ & _ & meta & Hm & Hf).
  exists meta. split; [exact Hm|]. apply Hf. apply Nat.leb_le. vm_compute. reflexivity.
Defined.

End MetadataScan.

(** * The parser: assembly of the channels *)

Section DictFacts.
Import Py.
Context {K V : Type} (eqb : K -> K -> bool).
Hypothesis eqb_eq : forall a b, eqb a b = true <-> a = b.

Lemma dict_get_none (d : list (K * V)) (k : K) :
  dict_get eqb d k = None <-> ~ In k (map fst d).
Proof.
  induction d as [|[k' v] d IH]; simpl; [tauto|].
  destruct (eqb k' k) eqn:E.
  - apply eqb_eq in E. split; [discriminate | intros H; exfalso; apply H; now left].
  - rewrite IH. split.
    + intros H [H1 | H1]; [apply eqb_eq in H1; congruence | contradiction].
    + intros H H1. apply H. now right.
Qed.

Lemma dict_get_some (d : list (K * V)) (k : K) (v : V) :
  dict_get eqb d k = Some v -> In (k, v) d.
Proof.
  induction d as [|[k' v'] d IH]; simpl; [discriminate|].
  destruct (eqb k' k) eqn:E.
  - apply eqb_eq in E. intros [= ->]. left. now subst.
  - intros H. right. now apply IH.
Qed.

(** An assignment keeps the keys, or adds the new key at the end. *)
Lemma dict_set_keys (d : list (K * V)) (k : K) (v : V) :
  map fst (dict_set eqb d k v) =
  if dict_contains eqb d k then map fst d else map fst d ++ [k].
Proof.
  unfold dict_contains. induction d as [|[k' v'] d IH]; simpl; [reflexivity|].
  destruct (eqb k' k) eqn:E; simpl; [reflexivity|].
  rewrite IH. now destruct (dict_get eqb d k).
Qed.

Lemma dict_set_nodup (d : list (K * V)) (k : K) (v : V) :
  NoDup (map fst d) -> NoDup (map fst (dict_set eqb d k v)).
Proof.
  intros H. rewrite dict_set_keys. unfold dict_contains.
  destruct (dict_get eqb d k) eqn:E; [exact H|].
  apply dict_get_none in E.
  apply NoDup_app; [exact H | repeat constructor; intros [] | ].
  intros x Hx [<- | []]. contradiction.
Qed.

Lemma dict_set_forall (P : K * V -> Prop) (d : list (K * V)) (k : K) (v : V) :
  Forall P d -> (forall k', eqb k' k = true -> P (k', v)) -> P (k, v) ->
  Forall P (dict_set eqb d k v).
Proof.
  intros Hd Hk Hnew. induction d as [|[k' v'] d IH]; simpl.
  - now repeat constructor.
  - inversion Hd; subst. destruct (eqb k' k) eqn:E; constructor; auto.
Qed.

End DictFacts.

Section SortedFacts.
Import Py.
Context {A : Type} (key : A -> Z).

Lemma insert_by_perm (x : A) (l : list A) : Permutation (x :: l) (insert_by key x l).
Proof.
  induction l as [|y l IH]; simpl; [reflexivity|].
  destruct (key x <=? key y); [reflexivity|].
  rewrite perm_swap. now constructor.
Qed.

Lemma sorted_by_perm (l : list A) : Permutation l (sorted_by key l).
Proof.
  induction l as [|x l IH]; simpl; [reflexivity|].
  rewrite <- insert_by_perm. now constructor.
Qed.

Lemma insert_by_sorted (x : A) (l : list A) :
  StronglySorted (Spec.key_le key) l -> StronglySorted (Spec.key_le key) (insert_by key x l).
Proof.
  induction 1 as [|y l Hs IH Hy]; simpl; [repeat constructor|].
  destruct (key x <=? key y) eqn:E.
  - apply Z.leb_le in E. constructor; [now constructor|].
    constructor; [exact E|]. eapply Forall_impl; [|exact Hy].
    unfold Spec.key_le. intros; lia.
  - apply Z.leb_gt in E. constructor; [exact IH|].
    rewrite <- insert_by_perm. constructor; [unfold Spec.key_le; lia | exact Hy].
Qed.

Lemma sorted_by_sorted (l : list A) : StronglySorted (Spec.key_le key) (sorted_by key l).
Proof.
  induction l as [|x l IH]; simpl; [constructor | now apply insert_by_sorted].
Qed.

End SortedFacts.

Section MapMFacts.
Import Py.
Context {A B : Type} (f : A -> result B).

Lemma mapM_ok (l : list A) (l' : list B) :
  mapM f l = Ok l' -> Forall2 (fun x y => f x = Ok y) l l'.
Proof.
  revert l'. induction l as [|x l IH]; simpl; intros l'.
  - intros [= <-]. constructor.
  - destruct (f x) as [y|e] eqn:E; simpl; [|discriminate].
    destruct (mapM f l) as [ys|e]; simpl; [|discriminate].
    intros [= <-]. constructor; auto.
Qed.

Lemma mapM_length (l : list A) (l' : list B) :
  mapM f l = Ok l' -> length l' = length l.
Proof. intros H. apply mapM_ok, Forall2_length in H. now symmetry. Qed.

(** The exception of a comprehension is the exception of one item. *)
Lemma mapM_raise (l : list A) (e : exn) :
  mapM f l = Raise e -> exists x, In x l /\ f x = Raise e.
Proof.
  induction l as [|x l IH]; simpl; [discriminate|].
  destruct (f x) as [y|e'] eqn:E; simpl.
  - destruct (mapM f l) as [ys|e'']; simpl; [discriminate|].
    intros [= ->]. destruct (IH eq_refl) as (x' & Hin & Hx). eauto.
  - intros [= ->]. eauto.
Qed.

End MapMFacts.

Section Assembly.
Import Py Float Models Parser.

Lemma str_eqb_eq (a b : pystr) : str_eqb a b = true <-> a = b.
Proof.
  revert b. induction a as [|x a IH]; destruct b as [|y b]; simpl;
    try (split; [discriminate | discriminate]); [tauto|].
  rewrite andb_true_iff, Z.eqb_eq, IH. split; [intros [-> ->]; reflexivity | intros [= -> ->]; auto].
Qed.

Lemma key_eqb_eq (a b : channel_key) : key_eqb a b = true <-> a = b.
Proof.
  destruct a as [n i], b as [n' i']. unfold key_eqb. simpl.
  rewrite andb_true_iff, Z.eqb_eq, str_eqb_eq.
  split; [intros [-> ->]; reflexivity | intros [= -> ->]; auto].
Qed.

Lemma add_channel_inv (data : bytes) (boundaries : list Z) (d d' : channel_dict)
    (item : Z * Z) :
  Spec.channels_inv d -> add_channel data boundaries d item = Ok d' -> Spec.channels_inv d'.
Proof.
  intros Hinv. unfold add_channel. destruct item as [i meta_start].
  destruct (_parse_metadata data meta_start boundaries) as [meta|e]; simpl; [|discriminate].
  destruct (match dict_get str_eqb meta (str "ChannelIndex") with
            | Some v => int_of_str v | None => Ok i end) as [ch_idx|e]; simpl; [|discriminate].
  set (ch_name := get_default str_eqb meta (str "ChannelName") _).
  set (key := (ch_name, ch_idx)).
  set (d1 := if dict_contains key_eqb d key then d else dict_set key_eqb d key _).
  assert (H1 : Spec.channels_inv d1).
  { subst d1. destruct (dict_contains key_eqb d key); [exact Hinv|].
    destruct Hinv as [Hn Hf]. split.
    - apply dict_set_nodup; [apply key_eqb_eq | exact Hn].
    - apply dict_set_forall; [exact Hf | |]; try (intros k' Hk'; apply key_eqb_eq in Hk'; subst k');
        repeat split. }
  clearbody d1.
  match goal with |- bind ?r _ = _ -> _ => destruct r as [delay_val|e]; simpl; [|discriminate] end.
  destruct (neqb delay_val f0); [|intros [= <-]; exact H1].
  destruct (dict_get key_eqb d1 key) as [ch|] eqn:Hg; intros [= <-]; [|exact H1].
  destruct H1 as [Hn Hf]. split.
  - apply dict_set_nodup; [apply key_eqb_eq | exact Hn].
  - apply dict_get_some in Hg; [|apply key_eqb_eq].
    assert (Hch : Spec.fresh_entry (key, ch)) by (rewrite Forall_forall in Hf; now apply Hf).
    apply dict_set_forall; [exact Hf | |];
      try (intros k' Hk'; apply key_eqb_eq in Hk'; subst k'); exact Hch.
Qed.

Lemma add_channels_inv (data : bytes) (boundaries : list Z) (items : list (Z * Z)) :
  forall d d', Spec.channels_inv d -> add_channels data boundaries d items = Ok d' ->
               Spec.channels_inv d'.
Proof.
  induction items as [|item items IH]; simpl; intros d d' Hinv.
  - now intros [= <-].
  - destruct (add_channel data boundaries d item) as [d1|e] eqn:E; simpl; [|discriminate].
    apply IH. eapply add_channel_inv; eassumption.
Qed.

End Assembly.

Section Profile.
Import Py Float Models Parser.

(** A goal [x <- r ;; k = Ok y -> _]: [r] returned. *)
Ltac bind_ok x H :=
  match goal with
  | |- bind ?r _ = _ -> _ => destruct r as [x|?] eqn:H; cbn [bind]; [|discriminate]
  end.

Lemma range_length (n : nat) : length (range n) = n.
Proof. unfold range. now rewrite length_map, length_seq. Qed.

Lemma enumerate_snd {A : Type} (l : list A) : map snd (enumerate l) = l.
Proof.
  unfold enumerate, range. generalize 0%nat.
  induction l as [|x l IH]; intros n; simpl; [reflexivity|]. now rewrite IH.
Qed.

Lemma enumerate_in {A : Type} (l : list A) (i : Z) (x : A) :
  In (i, x) (enumerate l) -> In x l.
Proof. apply in_combine_r. Qed.

Lemma parse_block_shape (data : bytes) (boundaries : list Z) (header : Z) (b : block) :
  parse_block data boundaries header = Ok b -> Spec.block_shape b.
Proof.
  unfold parse_block.
  bind_ok q Hq. bind_ok k Hk. bind_ok points E.
  intros [= <-]. apply mapM_length in E. rewrite range_length in E.
  unfold Spec.block_shape. simpl. rewrite !length_map, E. now split.
Qed.

Lemma parse_blocks_shape (data : bytes) (data_headers boundaries : list Z)
    (blocks : list block) :
  _parse_blocks data data_headers boundaries = Ok blocks -> Forall Spec.block_shape blocks.
Proof.
  intros H. apply mapM_ok in H.
  induction H as [|h b hs bs Hb _ IH]; constructor; [|exact IH].
  eapply parse_block_shape; exact Hb.
Qed.

Lemma assign_blocks_identity (blocks : list block) (item : Z * ChannelData) :
  Spec.identity (assign_blocks blocks item) = Spec.identity (snd item).
Proof.
  destruct item as [i ch]. unfold assign_blocks. simpl.
  destruct (i * 2 <? len blocks), (i * 2 + 1 <? len blocks);
    repeat match goal with |- context [nth_error ?l ?n] => destruct (nth_error l n) end;
    reflexivity.
Qed.

Lemma assign_blocks_shape (blocks : list block) (i : Z) (ch : ChannelData) :
  Forall Spec.block_shape blocks -> 0 <= i ->
  frequencies ch = [] -> correction_dB ch = [] -> measurement_dB ch = [] ->
  Spec.curve_shape (assign_blocks blocks (i, ch)).
Proof.
  intros Hb Hi Hf Hc Hm. rewrite Forall_forall in Hb. unfold assign_blocks.
  destruct (i * 2 <? len blocks) eqn:E1.
  - destruct (nth_error blocks (Z.to_nat (i * 2))) as [b|] eqn:N1.
    + destruct (Hb b (nth_error_In _ _ N1)) as [Hbf Hbv].
      destruct (i * 2 + 1 <? len blocks);
        [destruct (nth_error blocks (Z.to_nat (i * 2 + 1))) as [b'|] eqn:N2;
           [destruct (Hb b' (nth_error_In _ _ N2)) as [Hbf' Hbv']|]|];
        unfold Spec.curve_shape; simpl; auto.
    + apply nth_error_None in N1. apply Z.ltb_lt in E1. unfold len in E1. lia.
  - apply Z.ltb_ge in E1.
    destruct (i * 2 + 1 <? len blocks) eqn:E2; [apply Z.ltb_lt in E2; lia|].
    unfold Spec.curve_shape. rewrite Hf, Hc, Hm. auto.
Qed.

Lemma enumerate_index_nonneg {A : Type} (l : list A) (i : Z) (x : A) :
  In (i, x) (enumerate l) -> 0 <= i.
Proof.
  intros H. apply in_combine_l in H. unfold range in H.
  apply in_map_iff in H as (n & <- & _). lia.
Qed.

Lemma sorted_by_key_map {A : Type} (key : A -> Z) (l : list A) :
  StronglySorted (Spec.key_le key) l <-> StronglySorted Z.le (map key l).
Proof.
  induction l as [|x l IH]; simpl.
  - split; constructor.
  - split; intros H; inversion H; subst; constructor; try (now apply IH).
    + rewrite Forall_map. assumption.
    + rewrite Forall_map in *. assumption.
Qed.

(** The channels of a returned profile: unique by (name, index), in
    ascending order of index, each with curves of 355 points or none. *)
Lemma parsed_channels_shape (path : pystr) (data : bytes) (require_stereo : bool)
    (p : Profile) :
  parse_swproj path data require_stereo = Ok p ->
  NoDup (map Spec.identity (channels p)) /\
  StronglySorted (Spec.key_le index) (channels p) /\
  Forall Spec.curve_shape (channels p).
Proof.
  unfold parse_swproj.
  destruct (find data PROJECT_HEADER_END 0 (len data) =? -1); [discriminate|].
  destruct (find_data_headers data) as [|h hs]; [discriminate|].
  set (boundaries := sorted_by _ _).
  destruct (_parse_blocks data (h :: hs) boundaries) as [blocks|e] eqn:Hb; simpl; [|discriminate].
  destruct (add_channels data boundaries [] _) as [d|e] eqn:Hd; simpl; [|discriminate].
  apply parse_blocks_shape in Hb.
  apply add_channels_inv in Hd; [|split; constructor].
  destruct Hd as [Hnodup Hfresh].
  set (sorted := sorted_by index (dict_values d)).
  assert (Hperm : Permutation (dict_values d) sorted) by apply sorted_by_perm.
  assert (Hval : Forall (fun ch => frequencies ch = [] /\ correction_dB ch = [] /\
                                   measurement_dB ch = []) sorted).
  { rewrite <- Hperm. unfold dict_values. rewrite Forall_map.
    eapply Forall_impl; [|exact Hfresh]. intros kv H. apply H. }
  assert (Hid : map Spec.identity (map (assign_blocks blocks) (enumerate sorted))
                = map Spec.identity sorted).
  { rewrite map_map. rewrite <- (enumerate_snd sorted) at 2. rewrite map_map.
    apply map_ext. intros item. apply assign_blocks_identity. }
  destruct (require_stereo && _); [discriminate|]. intros [= <-]. simpl.
  split; [|split].
  - rewrite Hid. apply (Permutation_NoDup (l := map fst d)); [|exact Hnodup].
    rewrite <- Hperm. unfold dict_values. rewrite map_map.
    erewrite map_ext_Forall; [reflexivity|].
    eapply Forall_impl; [|exact Hfresh]. intros kv H. apply H.
  - apply (sorted_by_key_map index).
    replace (map index (map (assign_blocks blocks) (enumerate sorted)))
      with (map index sorted).
    + apply (sorted_by_key_map index). apply sorted_by_sorted.
    + apply (f_equal (map snd)) in Hid. rewrite !map_map in Hid. simpl in Hid.
      rewrite map_map. symmetry. exact Hid.
  - rewrite Forall_map, Forall_forall. intros [i ch] Hin.
    rewrite Forall_forall in Hval.
    destruct (Hval ch (enumerate_in _ _ _ Hin)) as (Hf & Hc & Hm).
    apply assign_blocks_shape; auto. eapply enumerate_index_nonneg; exact Hin.
Qed.

Lemma parse_stereo_one_block :
  parse_swproj (str "one.swproj") Samples.stereo_one_block true
    = Ok {| source_path := str "one.swproj";
            channels := Samples.stereo_one_block_channels |}.
Proof. vm_compute. reflexivity. Qed.

(** C1 as stated fails: this buffer parses, to the two channels FL and FR;
    the grid of FL has 355 points that are all 0.0, so it is not strictly
    increasing, and FR, for which no block is left, has an empty grid. *)
Lemma parse_curves_counterexample :
  exists p fl fr,
    parse_swproj (str "one.swproj") Samples.stereo_one_block true = Ok p /\
    channels p = [fl; fr] /\
    name fl = str "FL" /\ name fr = str "FR" /\
    length (frequencies fl) = 355%nat /\
    Spec.strictly_increasing (frequencies fl) = false /\
    length (correction_dB fl) = 355%nat /\
    length (frequencies fr) = 0%nat.
Proof.
  eexists _, _, _. split; [exact parse_stereo_one_block|].
  split; [reflexivity|]. vm_compute. repeat split.
Qed.

End Profile.

(** * The order of the floats *)

Section FloatOrder.
Import Py Float.

Lemma SFcompare_rank (x y : float) :
  is_nan x = false -> is_nan y = false ->
  SFcompare x y = Some (lex_compare (rank x) (rank y)).
Proof.
  destruct x as [sx|sx| |sx mx ex], y as [sy|sy| |sy my ey]; try discriminate; intros _ _;
    try destruct sx; try destruct sy; try reflexivity; simpl.
  rewrite Z.compare_opp, (Z.compare_antisym ex ey).
  destruct (ex ?= ey); reflexivity.
Qed.

Lemma lex_compare_lt (a b : Z * Z * Z) :
  lex_compare a b = Lt <->
  let '(a1, a2, a3) := a in let '(b1, b2, b3) := b in
  a1 < b1 \/ (a1 = b1 /\ (a2 < b2 \/ (a2 = b2 /\ a3 < b3))).
Proof.
  destruct a as [[a1 a2] a3], b as [[b1 b2] b3]. simpl.
  destruct (Z.compare_spec a1 b1), (Z.compare_spec a2 b2), (Z.compare_spec a3 b3);
    split; intros; try discriminate; try reflexivity; lia.
Qed.

Lemma lex_compare_eq (a b : Z * Z * Z) : lex_compare a b = Eq <-> a = b.
Proof.
  destruct a as [[a1 a2] a3], b as [[b1 b2] b3]. simpl.
  destruct (Z.compare_spec a1 b1), (Z.compare_spec a2 b2), (Z.compare_spec a3 b3);
    split; intros Heq; try discriminate; try reflexivity;
    try (injection Heq; intros; lia); subst; reflexivity.
Qed.

Lemma lex_compare_gt (a b : Z * Z * Z) : lex_compare a b = Gt <-> lex_compare b a = Lt.
Proof.
  destruct a as [[a1 a2] a3], b as [[b1 b2] b3]. simpl.
  rewrite (Z.compare_antisym a1 b1), (Z.compare_antisym a2 b2), (Z.compare_antisym a3 b3).
  destruct (a1 ?= b1), (a2 ?= b2), (a3 ?= b3); simpl; split; congruence.
Qed.

(** [x < y] and [x <= y] on floats that are not NaN, through [rank]. *)
Lemma ltb_rank (x y : float) :
  is_nan x = false -> is_nan y = false ->
  ltb x y = true <-> lex_compare (rank x) (rank y) = Lt.
Proof.
  intros Hx Hy. unfold ltb, SFltb. rewrite SFcompare_rank by assumption.
  destruct (lex_compare _ _); split; congruence.
Qed.

Lemma leb_rank (x y : float) :
  is_nan x = false -> is_nan y = false ->
  leb x y = true <-> lex_compare (rank x) (rank y) <> Gt.
Proof.
  intros Hx Hy. unfold leb, SFleb. rewrite SFcompare_rank by assumption.
  destruct (lex_compare _ _); split; congruence.
Qed.

Lemma ltb_not_nan (x y : float) : ltb x y = true -> is_nan x = false /\ is_nan y = false.
Proof. destruct x as [| | |[] ? ?], y as [| | |[] ? ?]; simpl; auto; discriminate. Qed.

Lemma leb_not_nan (x y : float) : leb x y = true -> is_nan x = false /\ is_nan y = false.
Proof. destruct x as [| | |[] ? ?], y as [| | |[] ? ?]; simpl; auto; discriminate. Qed.

Lemma leb_refl (x : float) : is_nan x = false -> leb x x = true.
Proof.
  intros H. apply leb_rank; auto. now rewrite (proj2 (lex_compare_eq _ _) eq_refl).
Qed.

Lemma ltb_leb (x y : float) : ltb x y = true -> leb x y = true.
Proof.
  intros H. destruct (ltb_not_nan _ _ H) as [Hx Hy].
  apply leb_rank; auto. apply ltb_rank in H; auto. congruence.
Qed.

(** Two floats that are not NaN are comparable. *)
Lemma ltb_false_leb (x y : float) :
  is_nan x = false -> is_nan y = false -> ltb x y = false -> leb y x = true.
Proof.
  intros Hx Hy H. apply leb_rank; auto. intros Hgt.
  apply lex_compare_gt in Hgt. apply ltb_rank in Hgt; auto. congruence.
Qed.

Lemma ltb_leb_false (x y : float) : ltb x y = true -> leb y x = false.
Proof.
  intros H. destruct (ltb_not_nan _ _ H) as [Hx Hy].
  destruct (leb y x) eqn:E; [|reflexivity].
  apply leb_rank in E; auto. apply ltb_rank in H; auto.
  apply lex_compare_gt in H. contradiction.
Qed.

Lemma ltb_trans (x y z : float) : ltb x y = true -> ltb y z = true -> ltb x z = true.
Proof.
  intros H1 H2. destruct (ltb_not_nan _ _ H1) as [Hx Hy], (ltb_not_nan _ _ H2) as [_ Hz].
  apply ltb_rank in H1, H2; auto. apply ltb_rank; auto.
  apply lex_compare_lt in H1, H2. apply lex_compare_lt.
  destruct (rank x) as [[a1 a2] a3], (rank y) as [[b1 b2] b3], (rank z) as [[c1 c2] c3]. lia.
Qed.

Lemma leb_trans (x y z : float) : leb x y = true -> leb y z = true -> leb x z = true.
Proof.
  intros H1 H2. destruct (leb_not_nan _ _ H1) as [Hx Hy], (leb_not_nan _ _ H2) as [_ Hz].
  apply leb_rank in H1, H2; auto. apply leb_rank; auto.
  intros H3. apply lex_compare_gt, lex_compare_lt in H3.
  assert (G1 : lex_compare (rank y) (rank x) <> Lt) by (intros G; apply lex_compare_gt in G; auto).
  assert (G2 : lex_compare (rank z) (rank y) <> Lt) by (intros G; apply lex_compare_gt in G; auto).
  rewrite lex_compare_lt in G1, G2.
  destruct (rank x) as [[a1 a2] a3], (rank y) as [[b1 b2] b3], (rank z) as [[c1 c2] c3]. lia.
Qed.

Lemma ltb_leb_trans (x y z : float) : ltb x y = true -> leb y z = true -> ltb x z = true.
Proof.
  intros H1 H2. destruct (ltb_not_nan _ _ H1) as [Hx Hy], (leb_not_nan _ _ H2) as [_ Hz].
  apply ltb_rank in H1; auto. apply leb_rank in H2; auto. apply ltb_rank; auto.
  assert (G2 : lex_compare (rank z) (rank y) <> Lt) by (intros G; apply lex_compare_gt in G; auto).
  rewrite lex_compare_lt in *.
  destruct (rank x) as [[a1 a2] a3], (rank y) as [[b1 b2] b3], (rank z) as [[c1 c2] c3]. lia.
Qed.

Lemma ltb_irrefl (x : float) : ltb x x = false.
Proof.
  destruct (ltb x x) eqn:E; [|reflexivity].
  destruct (ltb_not_nan _ _ E) as [Hx _]. apply ltb_rank in E; auto.
  rewrite (proj2 (lex_compare_eq _ _) eq_refl) in E. discriminate.
Qed.

End FloatOrder.

(** * compute_preamp_db *)

Section Preamp.
Import Py Float Models Dsp.

Lemma fold_max2_in (l : list float) (x : float) : In (fold_left max2 l x) (x :: l).
Proof.
  revert x. induction l as [|y l IH]; intros x; simpl; [now left|].
  destruct (IH (max2 x y)) as [H | H]; [|now right; right].
  rewrite <- H. unfold max2. destruct (gtb y x); auto.
Qed.

Lemma max2_not_nan (x y : float) :
  is_nan x = false -> is_nan y = false -> is_nan (max2 x y) = false.
Proof. unfold max2. now destruct (gtb y x). Qed.

Lemma max2_upper (x y : float) :
  is_nan x = false -> is_nan y = false ->
  leb x (max2 x y) = true /\ leb y (max2 x y) = true.
Proof.
  intros Hx Hy. unfold max2, gtb. fold (ltb x y). destruct (ltb x y) eqn:E.
  - split; [now apply ltb_leb | now apply leb_refl].
  - split; [now apply leb_refl | now apply ltb_false_leb].
Qed.

Lemma fold_max2_upper (l : list float) (x : float) :
  is_nan x = false -> Spec.no_nan l ->
  Forall (fun y => leb y (fold_left max2 l x) = true) (x :: l).
Proof.
  revert x. induction l as [|y l IH]; intros x Hx Hl.
  - simpl. constructor; [now apply leb_refl | constructor].
  - inversion Hl as [|? ? Hy Hl']; subst. simpl.
    destruct (max2_upper x y Hx Hy) as [H1 H2].
    specialize (IH (max2 x y) (max2_not_nan _ _ Hx Hy) Hl').
    inversion IH as [|? ? Hm Hrest]; subst.
    constructor; [eapply leb_trans; eassumption|].
    constructor; [eapply leb_trans; eassumption | exact Hrest].
Qed.

(** [max] of a sequence without NaN is its greatest item. *)
Lemma max_list_spec (l : list float) :
  l <> [] ->
  exists m, max_list l = Ok m /\ In m l /\
            (Spec.no_nan l -> Forall (fun y => leb y m = true) l).
Proof.
  destruct l as [|x l]; [congruence|]. intros _.
  exists (fold_left max2 l x). split; [reflexivity|]. split; [apply fold_max2_in|].
  intros H. inversion H; subst. now apply fold_max2_upper.
Qed.

Lemma channel_maxima (channels : list ChannelData) :
  Forall (fun ch => correction_dB ch <> []) channels ->
  exists gains,
    mapM (fun ch => max_list (correction_dB ch)) channels = Ok gains /\
    Forall2 (fun ch g => In g (correction_dB ch) /\
                         (Spec.no_nan (correction_dB ch) ->
                          Forall (fun y => leb y g = true) (correction_dB ch)))
            channels gains.
Proof.
  induction 1 as [|ch channels Hch _ (gains & Hg & Hall)]; simpl.
  - exists []. split; [reflexivity | constructor].
  - destruct (max_list_spec _ Hch) as (g & -> & Hin & Hup). simpl. rewrite Hg. simpl.
    exists (g :: gains). split; [reflexivity|]. constructor; auto.
Qed.

(** C5, as the code has it. For a non-empty collection of channels whose
    correction curves are non-empty, [compute_preamp_db] applies the policy
    to the gain that [max] returns: one of the gains, and the maximum
    correction gain over all channels when no gain is a NaN.  It returns 0.0
    when that gain is at most 0, and [-(max_gain + headroom)] otherwise.
    With the default headroom 1.0 the curves [-1.0, 2.3, 0.0] and
    [1.5, 3.0, -4.0] give exactly -4.0, and the curves [-3.0, -1.0] and
    [-0.5, 0.0] give exactly 0.0. *)
Theorem compute_preamp_db_policy (channels : list ChannelData) (headroom : float) :
  channels <> [] ->
  Forall (fun ch => correction_dB ch <> []) channels ->
  (exists max_gain,
     In max_gain (Spec.all_gains channels) /\
     (Spec.no_nan (Spec.all_gains channels) ->
      Forall (fun g => leb g max_gain = true) (Spec.all_gains channels)) /\
     compute_preamp_db channels headroom
       = Ok (if leb max_gain f0 then f0 else neg (add max_gain headroom))) /\
  default_headroom_db = Prim2SF 1.0 /\
  compute_preamp_db Samples.positive_gains default_headroom_db = Ok (Prim2SF (-4.0)) /\
  compute_preamp_db Samples.no_positive_gain default_headroom_db = Ok (Prim2SF 0.0).
Proof.
  intros Hne Hall. split; [|repeat split; vm_compute; reflexivity].
  destruct (channel_maxima channels Hall) as (gains & Hg & Hrel).
  assert (Hgne : gains <> []).
  { destruct channels; [congruence|]. inversion Hrel. discriminate. }
  destruct (max_list_spec gains Hgne) as (m & Hm & Hin & Hup).
  exists m. split; [|split].
  - clear - Hrel Hin. unfold Spec.all_gains.
    induction Hrel as [|ch g cs gs [Hg0 _] _ IH]; [contradiction|]. simpl.
    apply in_or_app. destruct Hin as [<- | Hin]; [now left | right; auto].
  - intros Hnan.
    assert (Hgn : Spec.no_nan gains /\
                  Forall (fun ch => Forall (fun y => exists g, In g gains /\ leb y g = true)
                                           (correction_dB ch)) channels).
    { clear - Hrel Hnan. unfold Spec.all_gains, Spec.no_nan in *.
      induction Hrel as [|ch g cs gs [Hg0 Hu] _ IH]; [split; constructor|].
      simpl in Hnan. apply Forall_app in Hnan as [Hn1 Hn2].
      destruct (IH Hn2) as [IH1 IH2]. split.
      - constructor; [|exact IH1]. rewrite Forall_forall in Hn1. now apply Hn1.
      - constructor.
        + eapply Forall_impl; [|exact (Hu Hn1)]. intros y Hy. exists g. split; [now left | exact Hy].
        + eapply Forall_impl; [|exact IH2]. intros c Hc.
          eapply Forall_impl; [|exact Hc]. intros y (g' & Hg' & Hy). exists g'. split; [now right | exact Hy]. }
    destruct Hgn as [Hgn Hch]. specialize (Hup Hgn). rewrite Forall_forall in Hup.
    unfold Spec.all_gains. rewrite Forall_flat_map.
    eapply Forall_impl; [|exact Hch]. intros c Hc.
    eapply Forall_impl; [|exact Hc]. intros y (g & Hgin & Hy).
    eapply leb_trans; [exact Hy | now apply Hup].
  - unfold compute_preamp_db. destruct channels as [|c cs]; [congruence|].
    rewrite Hg. cbn [bind]. rewrite Hm. cbn [bind]. now destruct (leb m f0).
Qed.

Lemma compute_preamp_db_policy_witness :
  exists max_gain,
    In max_gain (Spec.all_gains Samples.positive_gains) /\
    compute_preamp_db Samples.positive_gains default_headroom_db
      = Ok (if leb max_gain f0 then f0 else neg (add max_gain default_headroom_db)).
Proof.
  destruct (proj1 (compute_preamp_db_policy Samples.positive_gains default_headroom_db
                     ltac:(discriminate)
                     ltac:(repeat constructor; discriminate)))
    as (m & Hin & _ & Heq).
  exists m. split; assumption.
Defined.

(** C5 as stated fails when a gain is a NaN.  The curve [nan, 5.0] has the
    maximum gain 5.0, for which the policy gives -6.0, and the curve
    [nan, -5.0] has the maximum gain -5.0, for which it gives 0.0; on both
    [max] returns the NaN it meets first and the preamp is a NaN. *)
Lemma preamp_nan_gain_counterexample :
  (Spec.is_max_gain Samples.nan_then_boost (Prim2SF 5.0) /\
   Spec.preamp_policy (Prim2SF 5.0) default_headroom_db = Prim2SF (-6.0) /\
   compute_preamp_db Samples.nan_then_boost default_headroom_db = Ok S754_nan) /\
  (Spec.is_max_gain Samples.nan_then_cut (Prim2SF (-5.0)) /\
   Spec.preamp_policy (Prim2SF (-5.0)) default_headroom_db = Prim2SF 0.0 /\
   compute_preamp_db Samples.nan_then_cut default_headroom_db = Ok S754_nan).
Proof.
  split; (split; [|split; vm_compute; reflexivity]).
  - split; [right; left; vm_compute; reflexivity|]. split; [vm_compute; reflexivity|].
    repeat constructor; vm_compute; intros H; try discriminate H; reflexivity.
  - split; [right; left; vm_compute; reflexivity|]. split; [vm_compute; reflexivity|].
    repeat constructor; vm_compute; intros H; try discriminate H; reflexivity.
Qed.

End Preamp.

(** * write_wav *)

Section Pcm.
Import Py Float Models Dsp.

Lemma mapM_all_ok {A B : Type} (f : A -> result B) (l : list A) :
  Forall (fun x => exists y, f x = Ok y) l -> exists l', mapM f l = Ok l'.
Proof.
  induction 1 as [|x l [y Hy] _ [l' Hl']]; simpl.
  - now exists [].
  - rewrite Hy, Hl'. simpl. now exists (y :: l').
Qed.

Lemma to_int_finite (x : float) : is_finite x = true -> exists t, to_int x = Ok t.
Proof. destruct x; simpl; try discriminate; eauto. Qed.

Lemma clamp16_bounds (v : Z) : -32767 <= Spec.clamp16 v <= 32767.
Proof. unfold Spec.clamp16. lia. Qed.

Lemma quantize_cases (scale s : float) (v : Z) :
  quantize scale s = Ok v ->
  exists t, to_int (mul (mul s scale) (of_int 32767)) = Ok t /\ v = Spec.clamp16 t.
Proof.
  unfold quantize. destruct (to_int _) as [t|e]; simpl; [|discriminate].
  intros [= <-]. now exists t.
Qed.

(** C4, as the renderer has it. For a non-empty list of samples the peak is
    the greatest absolute value (1.0 in place of a peak of 0), the division
    [0.95 / peak] does not fail, and every sample is quantized as
    [clamp(int(sample * scale * 32767), -32767, 32767)], where [int]
    truncates towards zero: the result is returned exactly when every scaled
    sample is finite, and it stays within [-32767, 32767].  When the peak
    amplitude is 2.0 the samples of that amplitude are rendered as 31128 and
    -31128, which is [int(0.95 * 32767)]. *)
Theorem write_wav_quantization (samples : list float) :
  samples <> [] ->
  exists m scale,
    max_list (map Float.abs samples) = Ok m /\
    In m (map Float.abs samples) /\
    div f0_95 (if is_zero m then f1 else m) = Ok scale /\
    write_wav samples = mapM (quantize scale) samples /\
    (forall out, write_wav samples = Ok out ->
       Forall2 (fun s v => exists t, to_int (mul (mul s scale) (of_int 32767)) = Ok t /\
                                     v = Spec.clamp16 t) samples out /\
       Forall (fun v => -32767 <= v <= 32767) out) /\
    (Forall (fun s => is_finite (mul (mul s scale) (of_int 32767)) = true) samples ->
     exists out, write_wav samples = Ok out) /\
    (m = Spec.f2 ->
     to_int (mul f0_95 (of_int 32767)) = Ok 31128 /\
     forall s, In s samples -> Float.abs s = Spec.f2 ->
               quantize scale s = Ok (if ltb s f0 then -31128 else 31128)).
Proof.
  intros Hne.
  destruct (max_list_spec (map Float.abs samples)) as (m & Hm & Hin & _).
  { destruct samples; [congruence | discriminate]. }
  set (peak := if is_zero m then f1 else m).
  assert (Hz : is_zero peak = false) by (subst peak; destruct (is_zero m) eqn:E; auto).
  exists m, (SFdiv prec emax f0_95 peak).
  assert (Hw : write_wav samples = mapM (quantize (SFdiv prec emax f0_95 peak)) samples).
  { unfold write_wav. rewrite Hm. cbn [bind]. fold peak. unfold div. rewrite Hz. reflexivity. }
  split; [exact Hm|]. split; [exact Hin|].
  split; [fold peak; unfold div; now rewrite Hz|].
  split; [exact Hw|]. split; [|split].
  - intros out Hout. rewrite Hw in Hout. apply mapM_ok in Hout.
    split.
    + eapply Forall2_impl; [|exact Hout]. intros s v. apply quantize_cases.
    + clear - Hout. induction Hout as [|s v ss vs Hq _ IH]; constructor; [|exact IH].
      apply quantize_cases in Hq as (t & _ & ->). apply clamp16_bounds.
  - intros Hfin. rewrite Hw. apply mapM_all_ok.
    eapply Forall_impl; [|exact Hfin]. intros s Hs.
    destruct (to_int_finite _ Hs) as [t Ht]. unfold quantize. rewrite Ht. simpl. eauto.
  - intros ->. split; [vm_compute; reflexivity|].
    intros s _ Habs. subst peak. simpl is_zero. cbv iota.
    destruct s as [| | |[] ms es]; try discriminate; injection Habs as -> ->;
      vm_compute; reflexivity.
Qed.

Lemma write_wav_quantization_witness :
  exists m scale, div f0_95 (if is_zero m then f1 else m) = Ok scale /\
                  write_wav Samples.peak_two = mapM (quantize scale) Samples.peak_two.
Proof.
  destruct (write_wav_quantization Samples.peak_two ltac:(discriminate))
    as (m & scale & _ & _ & Hd & Hw & _).
  exists m, scale. split; assumption.
Defined.

(** C4 as stated fails: on a signal of peak amplitude 2.0 the renderer
    writes 31128 for the peak, where rounding gives
    [round(0.95 * 32767) = 31129]. *)
Lemma write_wav_truncates_counterexample :
  write_wav Samples.peak_two = Ok [7782; -31128; 15564; 31128] /\
  Spec.render_rounding Samples.peak_two = Ok [7782; -31129; 15564; 31129] /\
  Float.round (mul f0_95 (of_int 32767)) = Ok 31129.
Proof. vm_compute. repeat split. Qed.

End Pcm.

(** * freq_response_to_ir: interpolation *)

Section Interpolation.
Import Py Float Models Dsp.
Variable M : libm.

Lemma getitem_nth {A : Type} (l : list A) (i : nat) (x : A) :
  nth_error l i = Some x -> getitem l (Z.of_nat i) = Ok x.
Proof.
  intros H. unfold getitem.
  destruct (Z.of_nat i <? 0) eqn:E; [apply Z.ltb_lt in E; lia|]. rewrite E.
  now rewrite Nat2Z.id, H.
Qed.

Lemma getitem_last {A : Type} (l : list A) (x : A) :
  nth_error l (length l - 1) = Some x -> getitem l (-1) = Ok x.
Proof.
  intros H. assert (Hl : (length l - 1 < length l)%nat).
  { apply nth_error_Some. congruence. }
  unfold getitem. change (-1 <? 0) with true. cbv iota.
  destruct (-1 + len l <? 0) eqn:E; [apply Z.ltb_lt in E; unfold len in E; lia|].
  replace (Z.to_nat (-1 + len l)) with (length l - 1)%nat by (unfold len; lia).
  now rewrite H.
Qed.

Lemma strictly_increasing_tail (x : float) (l : list float) :
  Spec.strictly_increasing (x :: l) = true -> Spec.strictly_increasing l = true.
Proof. destruct l as [|y l]; [reflexivity|]. simpl. now intros [_ H]%andb_true_iff. Qed.

(** In a strictly increasing grid a later point is greater. *)
Lemma strictly_increasing_lt (l : list float) :
  Spec.strictly_increasing l = true ->
  forall i j x y, (i < j)%nat -> nth_error l i = Some x -> nth_error l j = Some y ->
                  ltb x y = true.
Proof.
  induction l as [|a l IH]; intros Hs i j x y Hij Hi Hj; [now destruct i|].
  assert (Hhead : forall k z, nth_error l k = Some z -> ltb a z = true).
  { clear - Hs IH. intros k. revert Hs IH. revert a. revert l.
    induction k as [|k IHk]; intros l a Hs IH z Hz.
    - destruct l as [|b l]; [discriminate|]. simpl in *. injection Hz as <-.
      now apply andb_true_iff in Hs as [Hs _].
    - destruct l as [|b l]; [discriminate|].
      assert (Hab : ltb a b = true) by (simpl in Hs; now apply andb_true_iff in Hs as [Hs _]).
      eapply ltb_trans; [exact Hab|].
      eapply (IH (strictly_increasing_tail _ _ Hs) 0%nat (S k)); [lia | reflexivity | exact Hz]. }
  destruct i as [|i], j as [|j]; try lia.
  - simpl in Hi. injection Hi as <-. eapply Hhead. exact Hj.
  - eapply (IH (strictly_increasing_tail _ _ Hs) i j); [lia | exact Hi | exact Hj].
Qed.

(** The search keeps a bracket: the grid point at [lo] is at most [bf] and
    the one at [hi] is not; with a turn for each grid point it ends on two
    neighbours. *)
Lemma bisect_bracket (freqs : list float) (bf : float) (fuel : nat) :
  forall lo hi f_lo f_hi,
    (lo < hi)%nat -> (hi < length freqs)%nat -> (hi - lo <= S fuel)%nat ->
    nth_error freqs lo = Some f_lo -> leb f_lo bf = true ->
    nth_error freqs hi = Some f_hi -> leb f_hi bf = false ->
    exists lo' f_lo' f_hi',
      bisect fuel freqs bf (Z.of_nat lo) (Z.of_nat hi)
        = Ok (Z.of_nat lo', Z.of_nat (S lo')) /\
      nth_error freqs lo' = Some f_lo' /\ leb f_lo' bf = true /\
      nth_error freqs (S lo') = Some f_hi' /\ leb f_hi' bf = false.
Proof.
  induction fuel as [|fuel IH]; intros lo hi f_lo f_hi Hlh Hhi Hfuel Hlo Hle Hh Hgt.
  - assert (hi = S lo) by lia. subst hi. exists lo, f_lo, f_hi.
    split; [|auto]. cbn [bisect].
    destruct (Z.of_nat (S lo) - Z.of_nat lo >? 1); reflexivity.
  - cbn [bisect].
    destruct (Z.of_nat hi - Z.of_nat lo >? 1) eqn:E.
    + rewrite Z.gtb_ltb in E. apply Z.ltb_lt in E.
      set (mid := ((lo + hi) / 2)%nat).
      assert (Hmid : (Z.of_nat lo + Z.of_nat hi) / 2 = Z.of_nat mid).
      { subst mid. rewrite Nat2Z.inj_div, Nat2Z.inj_add. reflexivity. }
      assert (Hbounds : (lo < mid < hi)%nat).
      { assert (Z.of_nat lo + 1 <= Z.of_nat mid < Z.of_nat hi); [|lia].
        rewrite <- Hmid. split.
        - apply Z.div_le_lower_bound; lia.
        - apply Z.div_lt_upper_bound; lia. }
      rewrite Hmid.
      destruct (nth_error freqs mid) as [fm|] eqn:Hm;
        [|apply nth_error_None in Hm; lia].
      rewrite (getitem_nth _ _ _ Hm). cbn [bind].
      destruct (leb fm bf) eqn:Hfm.
      * apply (IH mid hi fm f_hi); auto; lia.
      * apply (IH lo mid f_lo fm); auto; lia.
    + rewrite Z.gtb_ltb in E. apply Z.ltb_ge in E.
      assert (hi = S lo) by lia. subst hi. exists lo, f_lo, f_hi. auto.
Qed.

Lemma ltb_neqb (x y : float) : ltb x y = true -> neqb y x = true.
Proof.
  intros H. destruct (ltb_not_nan _ _ H) as [Hx Hy]. apply ltb_rank in H; auto.
  unfold neqb, SFeqb. rewrite SFcompare_rank by assumption.
  destruct (lex_compare (rank y) (rank x)) eqn:E; try reflexivity.
  apply lex_compare_eq in E. rewrite E in H.
  rewrite (proj2 (lex_compare_eq _ _) eq_refl) in H. discriminate.
Qed.

Lemma sub_diag (x : float) : is_finite x = true -> sub x x = S754_zero false.
Proof.
  destruct x as [[]| | |s m e]; try discriminate; intros _; try reflexivity.
  unfold sub, SFsub. cbv zeta. now rewrite Z.sub_diag.
Qed.

(** A logarithm that [math.log] returns for a finite number is finite. *)
Lemma math_log_finite (x l : float) :
  is_finite x = true -> math_log M x = Ok l -> is_finite l = true.
Proof.
  unfold math_log, math_1. intros Hx.
  destruct (is_nan (m_log M x) && negb (is_nan x)) eqn:E1; [discriminate|].
  rewrite Hx. destruct (is_inf (m_log M x)) eqn:E2; simpl; [discriminate|].
  intros [= <-]. destruct x; try discriminate; destruct (m_log M _); try discriminate; reflexivity.
Qed.

Lemma add_zero_r (g : float) (s : bool) :
  is_finite g = true ->
  eqb (add g (S754_zero s)) g = true /\ (is_zero g = false -> add g (S754_zero s) = g).
Proof.
  destruct g as [sg| | |sg mg eg]; try discriminate; intros _.
  - split; [destruct sg, s; reflexivity | discriminate].
  - split; [|reflexivity]. change (add _ _) with (S754_finite sg mg eg).
    unfold eqb, SFeqb. rewrite SFcompare_rank by reflexivity.
    now rewrite (proj2 (lex_compare_eq _ _) eq_refl).
Qed.

(** C6, as the interpolation has it. On a strictly increasing grid without
    NaN: a target at or below the first grid frequency gets the first gain
    and a target at or above the last one gets the last gain, both exactly,
    and so do the two end points themselves.  A target equal to an interior
    grid frequency gets the gain stored there, provided [math.log] accepts
    that frequency and its right neighbour (it raises on a frequency that is
    not positive), the two logarithms differ by a finite, non-zero amount,
    and the step to the next gain is finite: the result then equals the
    stored gain, and is the stored gain itself unless that is a zero. *)
Theorem interpolate_at_grid_points (freqs gains_dB : list float)
    (f_first f_last g_first g_last : float) :
  Spec.strictly_increasing freqs = true ->
  Spec.no_nan freqs ->
  nth_error freqs 0 = Some f_first ->
  nth_error freqs (length freqs - 1) = Some f_last ->
  nth_error gains_dB 0 = Some g_first ->
  nth_error gains_dB (length freqs - 1) = Some g_last ->
  length gains_dB = length freqs ->
  (forall bf, leb bf f_first = true -> interpolate M freqs gains_dB bf = Ok g_first) /\
  (forall bf, geb bf f_last = true -> interpolate M freqs gains_dB bf = Ok g_last) /\
  interpolate M freqs gains_dB f_first = Ok g_first /\
  interpolate M freqs gains_dB f_last = Ok g_last /\
  (forall i f f' g g' l l',
     (0 < i)%nat ->
     nth_error freqs i = Some f -> nth_error freqs (S i) = Some f' ->
     nth_error gains_dB i = Some g -> nth_error gains_dB (S i) = Some g' ->
     math_log M f = Ok l -> math_log M f' = Ok l' ->
     is_finite (sub l' l) = true -> is_zero (sub l' l) = false ->
     is_finite (sub g' g) = true ->
     exists r, interpolate M freqs gains_dB f = Ok r /\
               eqb r g = true /\ (is_zero g = false -> r = g)).
Proof.
  intros Hinc Hnan Hf0 Hfl Hg0 Hgl Hlen.
  assert (Hpos : (0 < length freqs)%nat) by (apply nth_error_Some; congruence).
  assert (Hbelow : forall bf, leb bf f_first = true ->
                              interpolate M freqs gains_dB bf = Ok g_first).
  { intros bf Hle. unfold interpolate.
    rewrite (getitem_nth _ _ _ Hf0 : getitem freqs 0 = _). cbn [bind]. rewrite Hle.
    exact (getitem_nth _ _ _ Hg0). }
  assert (Habove : forall bf, geb bf f_last = true ->
                              interpolate M freqs gains_dB bf = Ok g_last).
  { intros bf Hge. unfold geb in Hge. fold (leb f_last bf) in Hge.
    destruct (leb bf f_first) eqn:Hle.
    - rewrite (Hbelow bf Hle). f_equal.
      destruct (length freqs - 1)%nat as [|k] eqn:Hk; [congruence|].
      assert (Hlt : ltb f_first f_last = true)
        by (eapply (strictly_increasing_lt _ Hinc 0%nat (S k)); [lia | exact Hf0 | exact Hfl]).
      apply ltb_leb_false in Hlt.
      rewrite (leb_trans _ _ _ Hge Hle) in Hlt. discriminate.
    - unfold interpolate.
      rewrite (getitem_nth _ _ _ Hf0 : getitem freqs 0 = _). cbn [bind]. rewrite Hle.
      rewrite (getitem_last _ _ Hfl). cbn [bind]. unfold geb. fold (leb f_last bf). rewrite Hge.
      apply getitem_last. now rewrite Hlen. }
  assert (Hn0 : is_nan f_first = false).
  { unfold Spec.no_nan in Hnan. rewrite Forall_forall in Hnan.
    apply Hnan. eapply nth_error_In; exact Hf0. }
  assert (Hnl : is_nan f_last = false).
  { unfold Spec.no_nan in Hnan. rewrite Forall_forall in Hnan.
    apply Hnan. eapply nth_error_In; exact Hfl. }
  split; [exact Hbelow|]. split; [exact Habove|].
  split; [apply Hbelow, leb_refl, Hn0|].
  split; [apply Habove; unfold geb; apply (leb_refl f_last Hnl)|].
  intros i f f' g g' l l' Hi Hf Hf' Hg Hg' Hl Hl' Hdfin Hdnz Hgfin.
  assert (Hlast : (S i <= length freqs - 1)%nat).
  { assert (S i < length freqs)%nat by (apply nth_error_Some; congruence). lia. }
  assert (Hff' : ltb f f' = true)
    by (eapply (strictly_increasing_lt _ Hinc i (S i)); [lia | exact Hf | exact Hf']).
  assert (H0f : ltb f_first f = true)
    by (eapply (strictly_increasing_lt _ Hinc 0%nat i); [lia | exact Hf0 | exact Hf]).
  assert (Hfl' : leb f_last f = false).
  { destruct (Nat.eq_dec (S i) (length freqs - 1)) as [E|E].
    - rewrite <- E in Hfl. rewrite Hf' in Hfl. injection Hfl as <-. now apply ltb_leb_false.
    - apply ltb_leb_false. eapply ltb_trans; [exact Hff'|].
      eapply (strictly_increasing_lt _ Hinc (S i) (length freqs - 1)); [lia | exact Hf' | exact Hfl]. }
  destruct (bisect_bracket freqs f (length freqs) 0 (length freqs - 1) f_first f_last)
    as (lo & f_lo & f_hi & Hb & Hlo & Hlo_le & Hhi & Hhi_gt);
    try assumption; try lia; [now apply ltb_leb|].
  assert (lo = i).
  { destruct (Nat.lt_trichotomy lo i) as [Hc | [Hc | Hc]]; [|exact Hc|]; exfalso.
    - destruct (Nat.eq_dec (S lo) i) as [E|E].
      + rewrite E, Hf in Hhi. injection Hhi as <-.
        rewrite leb_refl in Hhi_gt; [discriminate | now destruct (ltb_not_nan _ _ Hff')].
      + assert (ltb f_hi f = true)
          by (eapply (strictly_increasing_lt _ Hinc (S lo) i); [lia | exact Hhi | exact Hf]).
        apply ltb_leb in H. congruence.
    - assert (ltb f f_lo = true)
        by (eapply (strictly_increasing_lt _ Hinc i lo); [lia | exact Hf | exact Hlo]).
      apply ltb_leb_false in H. congruence. }
  subst lo. rewrite Hf in Hlo. injection Hlo as <-.
  rewrite Hf' in Hhi. injection Hhi as <-.
  assert (Hlfin : is_finite l = true).
  { apply (math_log_finite f); [|exact Hl].
    destruct f as [sf|sf| |sf mf ef]; try reflexivity.
    - destruct sf.
      + unfold math_log, math_1 in Hl. simpl in Hl. discriminate.
      + destruct f' as [[]|[]| |[] ? ?]; discriminate.
    - destruct (ltb_not_nan _ _ Hff'). discriminate. }
  destruct (sub l' l) as [| | |sd md ed] eqn:Hd; try discriminate.
  destruct (sub g' g) as [sg| | |sg mg eg] eqn:Hdg; try discriminate.
  all: destruct (add_zero_r g (xorb (xorb false sd) sg)) as [He Hs];
    [destruct g as [| | |], g' as [| | |]; try reflexivity; try discriminate;
       destruct s; try destruct s0; discriminate|].
  all: exists (add g (S754_zero (xorb (xorb false sd) sg))); split; [|split; assumption].
  all: unfold interpolate;
    rewrite (getitem_nth _ _ _ Hf0 : getitem freqs 0 = _); cbn [bind];
    rewrite (ltb_leb_false _ _ H0f);
    rewrite (getitem_last _ _ Hfl); cbn [bind]; unfold geb; fold (leb f_last f); rewrite Hfl';
    replace (len freqs - 1) with (Z.of_nat (length freqs - 1)) by (unfold len; lia);
    change 0 with (Z.of_nat 0); rewrite Hb; cbn [bind];
    rewrite (getitem_nth _ _ _ Hf'), (getitem_nth _ _ _ Hf); cbn [bind];
    rewrite (ltb_neqb _ _ Hff'), Hl, Hl'; cbn [bind];
    rewrite (sub_diag l Hlfin), Hd; unfold div; simpl is_zero; cbv iota; cbn [bind];
    rewrite (getitem_nth _ _ _ Hg), (getitem_nth _ _ _ Hg'); cbn [bind];
    rewrite Hdg; reflexivity.
Qed.

End Interpolation.

(** * freq_response_to_ir: examples and curve checks *)

Section CurveChecks.
Import Py Float Models Dsp.

Lemma interpolate_at_grid_points_witness :
  interpolate Samples.libm_excerpt Samples.octave_grid Samples.octave_gains (Prim2SF 1.0)
    = Ok (Prim2SF 0.0) /\
  interpolate Samples.libm_excerpt Samples.octave_grid Samples.octave_gains (Prim2SF 4.0)
    = Ok (Prim2SF (-1.5)) /\
  exists r, interpolate Samples.libm_excerpt Samples.octave_grid Samples.octave_gains
              (Prim2SF 2.0) = Ok r /\ r = Prim2SF 3.0.
Proof.
  destruct (interpolate_at_grid_points Samples.libm_excerpt
              Samples.octave_grid Samples.octave_gains
              (Prim2SF 1.0) (Prim2SF 4.0) (Prim2SF 0.0) (Prim2SF (-1.5))
              eq_refl ltac:(repeat constructor) eq_refl eq_refl eq_refl eq_refl eq_refl)
    as (_ & _ & Hfirst & Hlast & Hmid).
  split; [exact Hfirst|]. split; [exact Hlast|].
  destruct (Hmid 1%nat (Prim2SF 2.0) (Prim2SF 4.0) (Prim2SF 3.0) (Prim2SF (-1.5))
              (Prim2SF 0.6931471805599453) (Prim2SF 1.3862943611198906)
              ltac:(lia) eq_refl eq_refl eq_refl eq_refl eq_refl eq_refl
              eq_refl eq_refl eq_refl)
    as (r & Hr & _ & Hsame).
  exists r. split; [exact Hr | now apply Hsame].
Defined.

(** C6 as stated fails at interior grid points, in three ways.  0.0 is a
    point of the first strictly increasing grid, with the gain 3.0 stored
    for it, and the interpolation at 0.0 raises [ValueError] ("math domain
    error", from [math.log(0.0)]).  1e300 is a point of the second grid, and
    its logarithm is the float that the logarithm of its right neighbour
    rounds to: the interpolation at 1e300 raises [ZeroDivisionError].  2.0
    is a point of the octave grid, and with the gains 1e308 and -1e308 stored
    for it and for its neighbour the step overflows: the interpolation at
    2.0 returns a NaN, not 1e308. *)
Lemma interpolate_grid_point_counterexample :
  (Spec.strictly_increasing Samples.grid_through_zero = true /\
   nth_error Samples.grid_through_zero 1 = Some (Prim2SF 0.0) /\
   nth_error Samples.octave_gains 1 = Some (Prim2SF 3.0) /\
   interpolate Samples.libm_excerpt Samples.grid_through_zero Samples.octave_gains
     (Prim2SF 0.0) = Raise ValueError_math_domain) /\
  (Spec.strictly_increasing Samples.crowded_grid = true /\
   nth_error Samples.crowded_grid 1 = Some (Prim2SF 1e300) /\
   interpolate Samples.libm_excerpt Samples.crowded_grid Samples.octave_gains
     (Prim2SF 1e300) = Raise ZeroDivisionError) /\
  (Spec.strictly_increasing Samples.octave_grid = true /\
   nth_error Samples.octave_grid 1 = Some (Prim2SF 2.0) /\
   nth_error Samples.steep_gains 1 = Some (Prim2SF 1e308) /\
   interpolate Samples.libm_excerpt Samples.octave_grid Samples.steep_gains
     (Prim2SF 2.0) = Ok S754_nan).
Proof. vm_compute. repeat split. Qed.

(** The library plays no part in that failure. *)
Lemma interpolate_grid_through_zero (M : libm) :
  interpolate M Samples.grid_through_zero Samples.octave_gains (Prim2SF 0.0)
    = Raise ValueError_math_domain.
Proof. reflexivity. Qed.

Lemma leb_total (x y : float) :
  is_nan x = false -> is_nan y = false -> leb x y = false -> leb y x = true.
Proof.
  intros Hx Hy H. apply ltb_leb. apply ltb_rank; auto.
  destruct (lex_compare (rank x) (rank y)) eqn:E.
  - assert (leb x y = true) by (apply leb_rank; auto; congruence). congruence.
  - assert (leb x y = true) by (apply leb_rank; auto; congruence). congruence.
  - now apply lex_compare_gt.
Qed.

Lemma mapM_ext_in {A B : Type} (f g : A -> result B) (l : list A) :
  (forall x, In x l -> f x = g x) -> mapM f l = mapM g l.
Proof.
  induction l as [|x l IH]; intros H; simpl; [reflexivity|].
  rewrite (H x (or_introl eq_refl)), IH; [reflexivity|]. intros y Hy. apply H. now right.
Qed.

Lemma mapM_pure {A B : Type} (f : A -> B) (l : list A) :
  mapM (fun x => Ok (f x)) l = Ok (map f l).
Proof. induction l as [|x l IH]; simpl; [reflexivity|]. now rewrite IH. Qed.

(** Two lists of the same length are subscripted alike. *)
Lemma getitem_same_length {A : Type} (l l' : list A) (i : Z) :
  length l = length l' ->
  match getitem l i, getitem l' i with
  | Ok _, Ok _ => True
  | Raise e, Raise e' => e = e'
  | _, _ => False
  end.
Proof.
  intros Hlen. unfold getitem, len. rewrite <- Hlen.
  destruct ((if i <? 0 then i + Z.of_nat (length l) else i) <? 0); [reflexivity|].
  set (k := Z.to_nat _).
  destruct (nth_error l k) eqn:E, (nth_error l' k) eqn:E'; try exact I; try reflexivity.
  - apply nth_error_None in E'. assert (k < length l)%nat by (apply nth_error_Some; congruence). lia.
  - apply nth_error_None in E. assert (k < length l')%nat by (apply nth_error_Some; congruence). lia.
Qed.

(** Whether the interpolation returns, and what it raises when it does
    not, is decided by the frequencies and by the number of gains: the
    values of the gains play no part. *)
Lemma interpolate_outcome (M : libm) (freqs gains gains' : list float) (bf : float) :
  length gains = length gains' ->
  match interpolate M freqs gains bf, interpolate M freqs gains' bf with
  | Ok _, Ok _ => True
  | Raise e, Raise e' => e = e'
  | _, _ => False
  end.
Proof.
  intros Hlen. unfold interpolate.
  destruct (getitem freqs 0) as [first|e]; cbn [bind]; [|reflexivity].
  destruct (leb bf first); [apply (getitem_same_length _ _ _ Hlen)|].
  destruct (getitem freqs (-1)) as [last|e]; cbn [bind]; [|reflexivity].
  destruct (geb bf last); [apply (getitem_same_length _ _ _ Hlen)|].
  destruct (bisect _ freqs bf 0 (len freqs - 1)) as [[lo hi]|e]; cbn [bind]; [|reflexivity].
  destruct (getitem freqs hi) as [f_hi|e]; cbn [bind]; [|reflexivity].
  destruct (getitem freqs lo) as [f_lo|e]; cbn [bind]; [|reflexivity].
  destruct (if neqb f_hi f_lo then _ else _) as [t|e]; cbn [bind]; [|reflexivity].
  pose proof (getitem_same_length gains gains' lo Hlen) as Hlo.
  pose proof (getitem_same_length gains gains' hi Hlen) as Hhi.
  destruct (getitem gains lo) as [g|e], (getitem gains' lo) as [g'|e']; cbn [bind];
    try contradiction; [|exact Hlo].
  destruct (getitem gains hi) as [h|e], (getitem gains' hi) as [h'|e']; cbn [bind];
    try contradiction; [exact I | exact Hhi].
Qed.

Lemma mapM_outcome {A B : Type} (f g : A -> result B) (l : list A) :
  (forall x, In x l ->
     match f x, g x with
     | Ok _, Ok _ => True
     | Raise e, Raise e' => e = e'
     | _, _ => False
     end) ->
  match mapM f l, mapM g l with
  | Ok r, Ok r' => length r = length r'
  | Raise e, Raise e' => e = e'
  | _, _ => False
  end.
Proof.
  induction l as [|x l IH]; intros H; [reflexivity|]. cbn [mapM].
  pose proof (H x (or_introl eq_refl)) as Hx.
  specialize (IH (fun y Hy => H y (or_intror Hy))).
  destruct (f x) as [y|e], (g x) as [y'|e']; cbn [bind]; try contradiction; [|exact Hx].
  destruct (mapM f l) as [r|e], (mapM g l) as [r'|e']; cbn [bind]; try contradiction;
    [simpl; now f_equal | exact IH].
Qed.




End CurveChecks.

(** * Rounding stays finite on quotients of machine-size integers *)

Section Rounding.
Import Py Float.

Lemma digits2_pos_size (p : positive) : digits2_pos p = Pos.size p.
Proof. induction p as [p IH|p IH|]; simpl; now rewrite ?IH. Qed.

(** A number of [k] bits has at most [k] digits, and is below 2 to the
    number of its digits. *)
Lemma Zdigits2_bounds (m : Z) :
  0 <= m -> 0 <= Zdigits2 m /\ m < 2 ^ Zdigits2 m /\
            forall k, 0 <= k -> m < 2 ^ k -> Zdigits2 m <= k.
Proof.
  intros Hm. destruct m as [|p|p]; [|clear Hm|lia].
  - simpl. split; [lia|]. split; [lia|]. intros; lia.
  - simpl. rewrite digits2_pos_size.
    assert (Hgt := Pos.size_gt p). assert (Hle := Pos.size_le p).
    assert (Hgt' : Z.pos p < 2 ^ Z.pos (Pos.size p)).
    { rewrite <- Pos2Z.inj_pow. exact Hgt. }
    assert (Hle' : 2 ^ Z.pos (Pos.size p) <= 2 * Z.pos p).
    { rewrite <- Pos2Z.inj_pow. exact Hle. }
    split; [lia|]. split; [exact Hgt'|].
    intros k Hk Hlt.
    destruct (Z_le_gt_dec (Z.pos (Pos.size p)) k) as [H|H]; [exact H|exfalso].
    assert (2 ^ (k + 1) <= 2 ^ Z.pos (Pos.size p)) by (apply Z.pow_le_mono_r; lia).
    rewrite Z.pow_add_r in H0 by lia. lia.
Qed.

Lemma shr_1_bounds (mrs : shr_record) :
  0 <= shr_m mrs -> 0 <= shr_m (shr_1 mrs) <= shr_m mrs.
Proof.
  destruct mrs as [m r s]. simpl. intros Hm.
  destruct m as [|[p|p|]|p]; simpl; lia.
Qed.

Lemma iter_pos_invariant {A : Type} (f : A -> A) (P : A -> Prop) :
  (forall x, P x -> P (f x)) -> forall n x, P x -> P (iter_pos f n x).
Proof. intros Hf. induction n as [n IH|n IH|]; intros x Hx; simpl; auto. Qed.

Lemma shr_bounds (mrs : shr_record) (e n B : Z) :
  0 <= shr_m mrs <= B ->
  0 <= shr_m (fst (shr mrs e n)) <= B /\
  snd (shr mrs e n) = (if 0 <? n then e + n else e).
Proof.
  intros Hm. destruct n as [|p|p]; simpl; auto. split; [|reflexivity].
  apply (iter_pos_invariant shr_1 (fun x => 0 <= shr_m x <= B)); [|exact Hm].
  intros x Hx. pose proof (shr_1_bounds x (proj1 Hx)). lia.
Qed.

Lemma shr_m_of_loc (m : Z) (l : location) : shr_m (shr_record_of_loc m l) = m.
Proof. destruct l as [|[]]; reflexivity. Qed.

Lemma round_nearest_even_bounds (m : Z) (l : location) :
  m <= round_nearest_even m l <= m + 1.
Proof. destruct l as [|[]]; simpl; try lia. destruct (Z.even m); lia. Qed.

(** Rounding a mantissa of at most [k] bits at an exponent that is not
    positive gives a zero or a finite float. *)
Lemma binary_round_aux_finite (s : bool) (m e : Z) (l : location) (k : Z) :
  0 <= m < 2 ^ k -> 0 <= k <= 200 -> e <= 0 ->
  is_finite (binary_round_aux prec emax s m e l) = true.
Proof.
  intros Hm Hk He. unfold binary_round_aux, shr_fexp.
  destruct (Zdigits2_bounds m (proj1 Hm)) as (Hd0 & _ & Hdk).
  specialize (Hdk k (proj1 Hk) (proj2 Hm)).
  set (n1 := fexp prec emax (Zdigits2 m + e) - e).
  destruct (shr_bounds (shr_record_of_loc m l) e n1 m) as [Hb1 He1];
    [rewrite shr_m_of_loc; lia|].
  destruct (shr (shr_record_of_loc m l) e n1) as [mrs1 e1]. simpl in Hb1, He1.
  set (m1 := round_nearest_even (shr_m mrs1) (loc_of_shr_record mrs1)).
  assert (Hm1 := round_nearest_even_bounds (shr_m mrs1) (loc_of_shr_record mrs1)).
  fold m1 in Hm1.
  assert (Hm1k : 0 <= m1 < 2 ^ (k + 1)).
  { rewrite Z.pow_add_r by lia. lia. }
  destruct (Zdigits2_bounds m1 (proj1 Hm1k)) as (Hd1 & _ & Hd1k).
  specialize (Hd1k (k + 1) ltac:(lia) (proj2 Hm1k)).
  set (n2 := fexp prec emax (Zdigits2 m1 + e1) - e1).
  destruct (shr_bounds (shr_record_of_loc m1 loc_Exact) e1 n2 m1) as [Hb2 He2];
    [rewrite shr_m_of_loc; lia|].
  destruct (shr (shr_record_of_loc m1 loc_Exact) e1 n2) as [mrs2 e2]. simpl in Hb2, He2.
  destruct (shr_m mrs2) as [|p|p] eqn:Hp; [reflexivity| |lia].
  assert (He2' : e2 <= emax - prec).
  { clear Hp Hb2 Hb1 Hm1 Hm1k. subst n1 n2.
    unfold fexp, SpecFloat.emin in *. change prec with 53 in *. change emax with 1024 in *.
    set (d := Zdigits2 m) in *. set (d1 := Zdigits2 m1) in *. clearbody d d1.
    destruct (0 <? Z.max (d + e - 53) (3 - 1024 - 53) - e); subst e1;
      destruct (0 <? _); subst e2; lia. }
  apply Z.leb_le in He2'. now rewrite He2'.
Qed.

Lemma SFdiv_core_bounds (m1 m2 : positive) :
  Z.pos m1 < 2 ^ 63 -> Z.pos m2 < 2 ^ 63 ->
  let '(q, e, _) := SFdiv_core_binary prec emax (Z.pos m1) 0 (Z.pos m2) 0 in
  0 <= q < 2 ^ 179 /\ e <= 0.
Proof.
  intros H1 H2. unfold SFdiv_core_binary.
  destruct (Zdigits2_bounds (Z.pos m1) ltac:(lia)) as (Hd1 & _ & Hd1k).
  destruct (Zdigits2_bounds (Z.pos m2) ltac:(lia)) as (Hd2 & _ & Hd2k).
  specialize (Hd1k 63 ltac:(lia) H1). specialize (Hd2k 63 ltac:(lia) H2).
  set (d1 := Zdigits2 (Z.pos m1)) in *. set (d2 := Zdigits2 (Z.pos m2)) in *.
  set (e' := Z.min (fexp prec emax (d1 + 0 - (d2 + 0))) (0 - 0)).
  assert (He' : -116 <= e' <= 0).
  { subst e'. unfold fexp, SpecFloat.emin. change prec with 53. change emax with 1024. lia. }
  set (m' := match 0 - 0 - e' with
             | 0 => Z.pos m1
             | Z.pos _ => Z.shiftl (Z.pos m1) (0 - 0 - e')
             | Z.neg _ => 0
             end).
  assert (Hm' : 0 <= m' < 2 ^ 179).
  { subst m'. destruct (0 - 0 - e') as [|p|p] eqn:Es.
    - split; [lia|]. eapply Z.lt_trans; [exact H1|]. now apply Z.pow_lt_mono_r.
    - rewrite Z.shiftl_mul_pow2 by lia. split; [lia|].
      assert (2 ^ Z.pos p <= 2 ^ 116) by (apply Z.pow_le_mono_r; lia).
      replace 179 with (63 + 116) by lia. rewrite Z.pow_add_r by lia. nia.
    - lia. }
  clearbody m' e'.
  pose proof (Z.div_pos m' (Z.pos m2) ltac:(lia) ltac:(lia)) as Hq0.
  pose proof (Z.div_le_upper_bound m' (Z.pos m2) m' ltac:(lia) ltac:(nia)) as Hq1.
  unfold Z.div in Hq0, Hq1. destruct (Z.div_eucl m' (Z.pos m2)) as [q r].
  simpl in Hq0, Hq1. split; lia.
Qed.

(** [a / b] on integers that fit a machine word: no overflow, no NaN. *)
Lemma int_truediv_word (a b : Z) :
  Z.abs a < 2 ^ 63 -> Z.abs b < 2 ^ 63 -> b <> 0 ->
  exists q, int_truediv a b = Ok q /\ is_finite q = true.
Proof.
  intros Ha Hb Hb0. unfold int_truediv.
  destruct b as [|pb|pb]; [congruence| |]; (destruct a as [|pa|pa]; [eexists; split; reflexivity| |]).
  all: match goal with
       | |- context [SFdiv prec emax (S754_finite ?sa ?ma 0) (S754_finite ?sb ?mb 0)] =>
           assert (Hfin : is_finite (SFdiv prec emax (S754_finite sa ma 0) (S754_finite sb mb 0)) = true)
       end.
  all: try (unfold SFdiv;
            match goal with
            | |- context [SFdiv_core_binary prec emax (Z.pos ?m1) 0 (Z.pos ?m2) 0] =>
                pose proof (SFdiv_core_bounds m1 m2 ltac:(simpl in *; lia) ltac:(simpl in *; lia)) as Hc;
                destruct (SFdiv_core_binary prec emax (Z.pos m1) 0 (Z.pos m2) 0) as [[q e] l]
            end;
            destruct Hc as [Hq He];
            apply (binary_round_aux_finite _ q e l 179); [exact Hq | lia | exact He]).
  all: match goal with
       | H : is_finite ?x = true |- _ =>
           exists x; destruct x; try discriminate; split; reflexivity
       end.
Qed.

(** Rounding keeps the sign. *)
Lemma binary_round_aux_sign (s : bool) (m e : Z) (l : location) :
  match binary_round_aux prec emax s m e l with
  | S754_zero s' | S754_infinity s' | S754_finite s' _ _ => s' = s
  | S754_nan => True
  end.
Proof.
  unfold binary_round_aux.
  destruct (shr_fexp prec emax m e l) as [mrs1 e1].
  destruct (shr_fexp prec emax _ e1 loc_Exact) as [mrs2 e2].
  destruct (shr_m mrs2); [reflexivity | | exact I].
  destruct (e2 <=? emax - prec); reflexivity.
Qed.

(** The quotient of a natural number by a positive one is not negative. *)
Lemma int_truediv_nonneg (a b : Z) (q : float) :
  0 <= a -> 0 < b -> int_truediv a b = Ok q -> is_nan q = true \/ Spec.nonneg q = true.
Proof.
  intros Ha Hb. unfold int_truediv.
  destruct b as [|pb|pb]; try lia. destruct a as [|pa|pa]; try lia.
  - intros [= <-]. now right.
  - change (Z.pos pa <? 0) with false. change (Z.pos pb <? 0) with false.
    unfold SFdiv. simpl Z.abs. simpl Z.to_pos.
    destruct (SFdiv_core_binary prec emax (Z.pos pa) 0 (Z.pos pb) 0) as [[mz ez] lz].
    pose proof (binary_round_aux_sign (xorb false false) mz ez lz) as Hs.
    destruct (binary_round_aux prec emax (xorb false false) mz ez lz) as [s|s| |s mq eq];
      simpl; try discriminate; intros [= <-]; try (now left); right; subst s; reflexivity.
Qed.

Lemma round_nonneg (q : float) (k : Z) :
  Spec.nonneg q = true -> Float.round q = Ok k -> 0 <= k.
Proof.
  destruct q as [s|s| |s m e]; cbn [Spec.nonneg Float.round]; try discriminate.
  - intros _ [= <-]. lia.
  - intros Hs. apply negb_true_iff in Hs. subst s.
    destruct (0 <=? e) eqn:E.
    + apply Z.leb_le in E. intros [= <-]. cbn [cond_Zopp].
      pose proof (Z.pow_nonneg 2 e ltac:(lia)). destruct (2 ^ e); lia.
    + apply Z.leb_gt in E. intros [= <-]. cbn [cond_Zopp].
      assert (Hd : 0 < 2 ^ (- e)) by (apply Z.pow_pos_nonneg; lia).
      pose proof (Z.div_pos (Z.pos m) (2 ^ (- e)) ltac:(lia) Hd).
      match goal with |- 0 <= match ?c with _ => _ end => destruct c end; try lia.
      destruct (Z.even _); lia.
Qed.

Lemma round_finite (q : float) : is_finite q = true -> exists k, Float.round q = Ok k.
Proof.
  destruct q as [| | |s m e]; try discriminate; intros _; simpl; eauto.
  destruct (0 <=? e); eauto.
Qed.

End Rounding.

(** * The parser: what it returns and what it raises *)

Section ParseOutcomes.
Import Py Float Models Parser.

Lemma adjust_end_le (n j : Z) : 0 <= n -> adjust_end n j <= n.
Proof.
  intros Hn. unfold adjust_end.
  destruct (j >? n) eqn:E1; [lia|]. rewrite Z.gtb_ltb in E1. apply Z.ltb_ge in E1.
  destruct (j <? 0) eqn:E2; [apply Z.ltb_lt in E2|]; lia.
Qed.

(** A hit of [find] lies inside the buffer. *)
Lemma find_hit_inside (data sub : bytes) (start stop : Z) :
  find data sub start stop <> -1 ->
  0 <= find data sub start stop /\ find data sub start stop + len sub <= len data.
Proof.
  intros H. split; [apply (find_hit_ge _ _ _ _ H)|]. revert H. unfold find.
  pose proof (adjust_end_le (len data) stop (len_nonneg data)) as He.
  set (e := adjust_end (len data) stop) in *.
  set (s := adjust_start (len data) start) in *.
  assert (Hs : 0 <= s).
  { subst s. unfold adjust_start. destruct (start <? 0) eqn:E; [lia | apply Z.ltb_ge in E; lia]. }
  destruct (e - s <? len sub) eqn:E; [congruence|]. apply Z.ltb_ge in E. intros H.
  destruct (find_in_some _ _ _ _ Hs H) as (k & Hk & -> & _). lia.
Qed.

Lemma find_all_inside (data pat : bytes) (step : Z) (fuel : nat) (pos : Z) :
  Forall (fun x => 0 <= x /\ x + len pat <= len data) (find_all fuel data pat pos step).
Proof.
  revert pos. induction fuel as [|fuel IH]; intros pos; simpl; [constructor|].
  destruct (find data pat pos (len data) =? -1) eqn:E; [constructor|].
  apply Z.eqb_neq in E. constructor; [now apply find_hit_inside | apply IH].
Qed.

Lemma fold_min_in (l : list Z) (x : Z) : In (fold_left Z.min l x) (x :: l).
Proof.
  revert x. induction l as [|y l IH]; intros x; simpl; [now left|].
  destruct (IH (Z.min x y)) as [H | H]; [|now right; right].
  rewrite <- H. destruct (Z.min_spec x y) as [[_ ->] | [_ ->]]; auto.
Qed.

Lemma min_default_cases (l : list Z) (d : Z) :
  min_default l d = d \/ In (min_default l d) l.
Proof. destruct l as [|x l]; [now left | right; apply fold_min_in]. Qed.

(** Reading a float raises nothing but [struct.error]. *)
Lemma unpack_from_f_raises (data : bytes) (offset : Z) (e : exn) :
  unpack_from_f data offset = Raise e -> e = struct_error.
Proof.
  unfold unpack_from_f, unpack_window.
  destruct (_ <? 0); [now intros [= <-]|].
  destruct (_ <? 4); [now intros [= <-] | discriminate].
Qed.

Lemma parse_point_raises (data : bytes) (float_start fpp i : Z) (e : exn) :
  parse_point data float_start fpp i = Raise e -> e = struct_error.
Proof.
  unfold parse_point.
  destruct (unpack_from_f data (float_start + i * fpp * 4)) as [freq|e1] eqn:E1; cbn [bind];
    [|intros [= <-]; eapply unpack_from_f_raises; exact E1].
  destruct (unpack_from_f data (float_start + i * fpp * 4 + 4)) as [val|e2] eqn:E2;
    cbn [bind];
    [discriminate | intros [= <-]; eapply unpack_from_f_raises; exact E2].
Qed.

(** A block that starts inside a buffer of fewer than 2^63 bytes is decoded,
    or cut short by the end of the buffer. *)
Lemma parse_block_raises (data : bytes) (boundaries : list Z) (header : Z) (e : exn) :
  len data < 2 ^ 63 ->
  0 <= header -> header + 8 <= len data ->
  Forall (fun b => 0 <= b <= len data) boundaries ->
  parse_block data boundaries header = Raise e -> e = struct_error.
Proof.
  intros Hlen Hh0 Hh8 Hb. unfold parse_block.
  set (nb := min_default _ _).
  assert (Hnb : header + 8 <= nb <= len data).
  { subst nb. destruct (min_default_cases
                (filter (fun b => b >? header + 8) (boundaries ++ [len data])) (len data))
      as [-> | Hin]; [lia|].
    apply filter_In in Hin as [Hin Hgt]. rewrite Z.gtb_ltb in Hgt. apply Z.ltb_lt in Hgt.
    apply in_app_or in Hin as [Hin | [<- | []]]; [|lia].
    rewrite Forall_forall in Hb. specialize (Hb _ Hin). lia. }
  clearbody nb.
  assert (Hq : 0 <= (nb - (header + 8)) / 4 < 2 ^ 63).
  { split; [apply Z.div_pos; lia|]. apply Z.div_lt_upper_bound; lia. }
  destruct (int_truediv_word ((nb - (header + 8)) / 4) POINTS_PER_CURVE) as (q & -> & Hfin);
    [lia | reflexivity | discriminate|].
  cbn [bind]. destruct (round_finite q Hfin) as [k ->]. cbn [bind].
  destruct (mapM _ _) as [points|e'] eqn:E; cbn [bind]; [discriminate|].
  intros [= <-]. apply mapM_raise in E as (i & _ & Hi). eapply parse_point_raises; exact Hi.
Qed.

Lemma int_of_str_raises (s : pystr) (e : exn) :
  int_of_str s = Raise e -> e = ValueError_int s.
Proof.
  unfold int_of_str.
  destruct (drop_underscores 0 (strip s)) as [t|]; [|now intros [= <-]].
  destruct (take_sign t) as [neg body].
  destruct (take_digits body) as [[|d ds] [|c r]]; try discriminate; now intros [= <-].
Qed.

Lemma float_of_str_raises (s : pystr) (e : exn) :
  float_of_str s = Raise e -> e = ValueError_float s.
Proof.
  unfold float_of_str.
  repeat match goal with
         | |- context [match ?x with _ => _ end] => destruct x
         end; try discriminate; now intros [= <-].
Qed.

Lemma parse_metadata_returns (data : bytes) (start_pos : Z) (boundaries : list Z) :
  exists meta, _parse_metadata data start_pos boundaries = Ok meta.
Proof.
  set (end_ := metadata_end data start_pos boundaries).
  destruct (metadata_loop_enough data end_ (Z.to_nat (end_ - start_pos)) start_pos [])
    as [meta Hm]; [lia|].
  exists meta. unfold _parse_metadata. fold end_. now rewrite Hm.
Qed.

Lemma add_channel_raises (data : bytes) (boundaries : list Z) (d : channel_dict)
    (item : Z * Z) (e : exn) :
  add_channel data boundaries d item = Raise e ->
  (exists s, e = ValueError_int s) \/ (exists s, e = ValueError_float s).
Proof.
  unfold add_channel. destruct item as [i meta_start].
  destruct (parse_metadata_returns data meta_start boundaries) as [meta ->]. cbn [bind].
  destruct (dict_get str_eqb meta (str "ChannelIndex")) as [v|].
  - destruct (int_of_str v) as [ch_idx|e'] eqn:E; cbn [bind].
    + match goal with
      | |- bind ?r _ = _ -> _ => destruct r as [delay_val|e''] eqn:E2; cbn [bind]
      end.
      * destruct (neqb delay_val f0); [|discriminate].
        match goal with |- context [dict_get key_eqb ?c ?k] => destruct (dict_get key_eqb c k) end;
          discriminate.
      * intros [= <-]. right.
        destruct (_ || _); [discriminate|]. apply float_of_str_raises in E2. eauto.
    + intros [= <-]. left. apply int_of_str_raises in E. eauto.
  - cbn [bind].
    match goal with
    | |- bind ?r _ = _ -> _ => destruct r as [delay_val|e''] eqn:E2; cbn [bind]
    end.
    + destruct (neqb delay_val f0); [|discriminate].
      match goal with |- context [dict_get key_eqb ?c ?k] => destruct (dict_get key_eqb c k) end;
        discriminate.
    + intros [= <-]. right.
      destruct (_ || _); [discriminate|]. apply float_of_str_raises in E2. eauto.
Qed.

Lemma add_channels_raises (data : bytes) (boundaries : list Z) (items : list (Z * Z)) :
  forall d e, add_channels data boundaries d items = Raise e ->
              (exists s, e = ValueError_int s) \/ (exists s, e = ValueError_float s).
Proof.
  induction items as [|item items IH]; intros d e; simpl; [discriminate|].
  destruct (add_channel data boundaries d item) as [d'|e'] eqn:E; cbn [bind].
  - apply IH.
  - intros [= <-]. eapply add_channel_raises; exact E.
Qed.

(** On a buffer of fewer than 2^63 bytes the only exception besides the
    [ValueError]s is the [struct.error] of a block read that runs past the
    end of the buffer. *)
Lemma parse_swproj_raises (path : pystr) (data : bytes) (require_stereo : bool) (e : exn) :
  len data < 2 ^ 63 ->
  parse_swproj path data require_stereo = Raise e ->
  is_ValueError e = true \/ e = struct_error.
Proof.
  intros Hlen. unfold parse_swproj.
  destruct (find data PROJECT_HEADER_END 0 (len data) =? -1); [intros [= <-]; now left|].
  destruct (find_data_headers data) as [|h hs] eqn:Hh; [intros [= <-]; now left|].
  set (delays := finditer_starts CHANNEL_DELAY_MS data).
  set (boundaries := sorted_by _ _).
  assert (Hheaders : Forall (fun x => 0 <= x /\ x + len DATA_HEADER <= len data) (h :: hs)).
  { rewrite <- Hh. apply find_all_inside. }
  assert (Hbounds : Forall (fun b => 0 <= b <= len data) boundaries).
  { subst boundaries. rewrite <- sorted_by_perm. apply Forall_app. split.
    - eapply Forall_impl; [|exact Hheaders]. intros x [H0 H1].
      pose proof (len_nonneg DATA_HEADER). lia.
    - eapply Forall_impl; [|apply (find_all_inside data CHANNEL_DELAY_MS)].
      intros x [H0 H1]. pose proof (len_nonneg CHANNEL_DELAY_MS). lia. }
  destruct (_parse_blocks data (h :: hs) boundaries) as [blocks|e'] eqn:Hb; cbn [bind].
  - destruct (add_channels data boundaries [] (enumerate delays)) as [d|e'] eqn:Hd; cbn [bind].
    + destruct (require_stereo && _); [intros [= <-]; now left | discriminate].
    + intros [= <-]. left.
      apply add_channels_raises in Hd as [[s ->] | [s ->]]; reflexivity.
  - intros [= <-]. right.
    apply mapM_raise in Hb as (header & Hin & He).
    rewrite Forall_forall in Hheaders. destruct (Hheaders header Hin) as [H0 H8].
    eapply parse_block_raises; try exact He; auto.
Qed.

(** A block that can be read in full is decoded. *)
Lemma parse_block_inside (data : bytes) (boundaries : list Z) (header : Z) :
  0 <= header -> header + 8 <= len data ->
  Spec.block_inside data boundaries header = true ->
  exists b, parse_block data boundaries header = Ok b.
Proof.
  intros Hh0 Hh8. unfold Spec.block_inside, Spec.block_fpp, parse_block.
  set (nb := min_default _ _).
  assert (Hnb : header + 8 <= nb).
  { subst nb. destruct (min_default_cases
                (filter (fun b => b >? header + 8) (boundaries ++ [len data])) (len data))
      as [-> | Hin]; [lia|].
    apply filter_In in Hin as [_ Hgt]. rewrite Z.gtb_ltb in Hgt. apply Z.ltb_lt in Hgt. lia. }
  clearbody nb.
  destruct (int_truediv ((nb - (header + 8)) / 4) POINTS_PER_CURVE) as [q|] eqn:Hq;
    cbn [bind]; [|discriminate].
  destruct (Float.round q) as [fpp|] eqn:Hr; cbn [bind]; [|discriminate].
  intros Hin. apply Z.leb_le in Hin.
  assert (Hfpp : 0 <= fpp).
  { apply int_truediv_nonneg in Hq; [|apply Z.div_pos; lia|reflexivity].
    destruct Hq as [Hq | Hq]; [destruct q; discriminate|].
    eapply round_nonneg; eassumption. }
  destruct (mapM_all_ok (parse_point data (header + 8) fpp) (range (Z.to_nat POINTS_PER_CURVE)))
    as [points ->]; [|cbn [bind]; eauto].
  apply Forall_forall. intros i Hi. unfold range in Hi.
  apply in_map_iff in Hi as (n & <- & Hn). apply in_seq in Hn.
  change (Z.to_nat POINTS_PER_CURVE) with 355%nat in Hn.
  change POINTS_PER_CURVE with 355 in Hin.
  assert (Hoff : 0 <= Z.of_nat n * fpp <= 354 * fpp) by nia.
  unfold parse_point, unpack_from_f.
  rewrite !unpack_window_ok by lia. cbn [bind]. eauto.
Qed.

(** C7, as the parser has it. On a buffer whose data blocks can all be read
    in full, [parse_swproj] either returns a profile, built in one go after
    every check has passed (with two channels when stereo is required), or
    raises a [ValueError] and returns nothing: MissingHeader, NoDataBlocks
    or ChannelCountMismatch, or the [ValueError] of [int] on a ChannelIndex
    or of [float] on a ChannelDelayMs that is not a numeral. *)
Theorem parse_outcomes (path : pystr) (data : bytes) (require_stereo : bool) :
  Spec.blocks_inside data = true ->
  match parse_swproj path data require_stereo with
  | Ok p => source_path p = path /\ (require_stereo = true -> len (channels p) = 2)
  | Raise e =>
      is_ValueError e = true /\
      (e = MissingHeader \/ e = NoDataBlocks \/
       (require_stereo = true /\ exists n, n <> 2 /\ e = ChannelCountMismatch n) \/
       (exists s, e = ValueError_int s) \/ (exists s, e = ValueError_float s))
  end.
Proof.
  unfold Spec.blocks_inside, parse_swproj.
  destruct (find data PROJECT_HEADER_END 0 (len data) =? -1); [intros _; split; auto|].
  destruct (find_data_headers data) as [|h hs] eqn:Hh; [intros _; split; auto|].
  set (delays := finditer_starts CHANNEL_DELAY_MS data).
  set (boundaries := sorted_by _ _). intros Hin.
  assert (Hheaders : Forall (fun x => 0 <= x /\ x + len DATA_HEADER <= len data) (h :: hs)).
  { rewrite <- Hh. apply find_all_inside. }
  assert (Hblocks : exists blocks, _parse_blocks data (h :: hs) boundaries = Ok blocks).
  { apply mapM_all_ok. rewrite forallb_forall in Hin. rewrite Forall_forall in *.
    intros header Hheader. destruct (Hheaders header Hheader) as [H0 H8].
    apply parse_block_inside; [exact H0 | exact H8 | now apply Hin]. }
  destruct Hblocks as [blocks ->]. cbn [bind].
  destruct (add_channels data boundaries [] (enumerate delays)) as [d|e] eqn:Hd; cbn [bind].
  - destruct require_stereo; simpl.
    + destruct (len _ =? 2) eqn:E; simpl.
      * apply Z.eqb_eq in E. auto.
      * apply Z.eqb_neq in E. split; [reflexivity|].
        right; right; left. split; [reflexivity|]. eauto.
    + split; [reflexivity | discriminate].
  - apply add_channels_raises in Hd. split; [destruct Hd as [[s ->] | [s ->]]; reflexivity|].
    tauto.
Qed.

Lemma parse_outcomes_witness :
  match parse_swproj (str "one.swproj") Samples.stereo_one_block true with
  | Ok p => len (channels p) = 2
  | Raise _ => False
  end.
Proof.
  pose proof (parse_outcomes (str "one.swproj") Samples.stereo_one_block true
                ltac:(vm_compute; reflexivity)) as H.
  rewrite parse_stereo_one_block in *. now apply H.
Defined.

(** C7 as stated fails: with every block complete, a ChannelIndex that is
    not a numeral makes the parser raise the [ValueError] of [int], and a
    ChannelDelayMs that is not one makes it raise the [ValueError] of
    [float]; neither is one of the three declared kinds. *)
Lemma parse_other_exception_counterexample :
  (Spec.blocks_inside Samples.bad_channel_index = true /\
   parse_swproj (str "index.swproj") Samples.bad_channel_index false
     = Raise (ValueError_int (str "x")) /\
   Spec.declared_kind (ValueError_int (str "x")) = false) /\
  (Spec.blocks_inside Samples.bad_channel_delay = true /\
   parse_swproj (str "delay.swproj") Samples.bad_channel_delay false
     = Raise (ValueError_float (str "abc")) /\
   Spec.declared_kind (ValueError_float (str "abc")) = false).
Proof. vm_compute. repeat split. Qed.

(** A data-block marker with too few bytes after it: the read of the first
    point runs past the end of the buffer and [struct.error], which is not
    a [ValueError], escapes.  [_parse_metadata] checks the end of the
    buffer before it unpacks; [_parse_blocks] does not. *)
Lemma parse_truncated_block :
  Spec.blocks_inside Samples.truncated_block = false /\
  parse_swproj (str "cut.swproj") Samples.truncated_block true = Raise struct_error /\
  is_ValueError struct_error = false.
Proof. vm_compute. repeat split. Qed.

End ParseOutcomes.

(** * Further properties: the scans, the file layout, the renderers, the exporters *)

Section Anchors.
Import Py Float Models Parser.

Lemma StronglySorted_weaken {A : Type} (R S : A -> A -> Prop) (l : list A) :
  (forall a b, R a b -> S a b) -> StronglySorted R l -> StronglySorted S l.
Proof.
  intros HRS. induction 1 as [|a l _ IH Ha]; constructor; [exact IH|].
  eapply Forall_impl; [|exact Ha]. intros b. apply HRS.
Qed.

Lemma occurs_at_iff (pat data : bytes) (k : Z) :
  Layout.occurs_at pat data k <->
  0 <= k /\ k + len pat <= len data /\ starts_with pat (skipn (Z.to_nat k) data) = true.
Proof.
  split.
  - intros (pre & suf & -> & <-). split; [apply len_nonneg|]. split.
    + rewrite !len_app. pose proof (len_nonneg suf). lia.
    + unfold len. rewrite Nat2Z.id, skipn_app, skipn_all, Nat.sub_diag. simpl.
      apply starts_with_iff. now exists suf.
  - intros (Hk & Hle & Hs). apply starts_with_iff in Hs as [suf Hs].
    exists (firstn (Z.to_nat k) data), suf. split.
    + rewrite <- Hs. symmetry. apply firstn_skipn.
    + unfold len in *. rewrite length_firstn. pose proof (len_nonneg pat). unfold len in *. lia.
Qed.

(** [find_in] stops at the first candidate at which [sub] starts. *)
Lemma find_in_first (sub l : bytes) (i : Z) (n : nat) :
  0 <= i ->
  find_in sub l i n <> -1 ->
  exists k, (k < n)%nat /\ find_in sub l i n = i + Z.of_nat k /\
            starts_with sub (skipn k l) = true /\
            forall j, (j < k)%nat -> starts_with sub (skipn j l) = false.
Proof.
  revert l i. induction n as [|n IH]; intros l i Hi; simpl; [congruence|].
  destruct (starts_with sub l) eqn:Hs.
  - intros _. exists 0%nat. simpl. repeat split; [lia | lia | exact Hs | intros; lia].
  - destruct l as [|c l]; [congruence|]. intros H.
    destruct (IH l (i + 1) ltac:(lia) H) as (k & Hk & Hr & Hsw & Hfirst).
    exists (S k). simpl. repeat split; [lia | lia | exact Hsw |].
    intros [|j] Hj; [exact Hs | apply Hfirst; lia].
Qed.

(** A search from [pos] to the end of the buffer: the first occurrence at
    or after [pos], or -1 when there is none. *)
Lemma find_from_spec (data pat : bytes) (pos : Z) :
  0 <= pos ->
  let r := find data pat pos (len data) in
  (r = -1 /\ forall k, pos <= k -> ~ Layout.occurs_at pat data k) \/
  (pos <= r /\ Layout.occurs_at pat data r /\
   forall k, pos <= k < r -> ~ Layout.occurs_at pat data k).
Proof.
  intros Hpos. cbv zeta. unfold find, adjust_start, adjust_end.
  assert (H0 := len_nonneg data). assert (H1 := len_nonneg pat).
  destruct (pos <? 0) eqn:E; [apply Z.ltb_lt in E; lia|]. clear E.
  assert (Hg : (len data >? len data) = false) by (rewrite Z.gtb_ltb; apply Z.ltb_irrefl).
  assert (Hl : (len data <? 0) = false) by (apply Z.ltb_ge; lia).
  rewrite Hg, Hl.
  destruct (len data - pos <? len pat) eqn:Hlt.
  - apply Z.ltb_lt in Hlt. left. split; [reflexivity|].
    intros k Hk Hocc. apply occurs_at_iff in Hocc. lia.
  - apply Z.ltb_ge in Hlt.
    set (n := Z.to_nat (len data - pos - len pat + 1)).
    destruct (Z.eq_dec (find_in pat (skipn (Z.to_nat pos) data) pos n) (-1)) as [Hn|Hn].
    + left. split; [exact Hn|]. intros k Hk Hocc. apply occurs_at_iff in Hocc.
      destruct Hocc as (_ & Hle & Hs).
      pose proof (proj1 (find_in_none _ _ _ _ Hpos) Hn (Z.to_nat (k - pos))
                    ltac:(subst n; lia)) as Hf.
      rewrite skipn_skipn in Hf.
      replace (Z.to_nat (k - pos) + Z.to_nat pos)%nat with (Z.to_nat k) in Hf by lia.
      congruence.
    + right. destruct (find_in_first _ _ _ _ Hpos Hn) as (j & Hj & -> & Hs & Hfirst).
      rewrite skipn_skipn in Hs. split; [lia|]. split.
      * apply occurs_at_iff. split; [lia|]. split; [subst n; lia|].
        replace (Z.to_nat (pos + Z.of_nat j)) with (j + Z.to_nat pos)%nat by lia. exact Hs.
      * intros k Hk Hocc. apply occurs_at_iff in Hocc. destruct Hocc as (_ & _ & Hs').
        specialize (Hfirst (Z.to_nat (k - pos)) ltac:(lia)).
        rewrite skipn_skipn in Hfirst.
        replace (Z.to_nat (k - pos) + Z.to_nat pos)%nat with (Z.to_nat k) in Hfirst by lia.
        congruence.
Qed.

(** The scan that resumes [step] bytes after each hit lists every
    occurrence, provided no occurrence starts less than [step] bytes after
    another one. *)
Lemma find_all_spec (data pat : bytes) (step : Z) :
  0 < step ->
  (forall i j, Layout.occurs_at pat data i -> Layout.occurs_at pat data j -> i < j -> i + step <= j) ->
  forall fuel pos, 0 <= pos -> len data - pos < Z.of_nat fuel ->
    let l := find_all fuel data pat pos step in
    (forall k, In k l <-> pos <= k /\ Layout.occurs_at pat data k) /\
    StronglySorted (fun a b => a + step <= b) l.
Proof.
  intros Hstep Hgap. induction fuel as [|fuel IH]; intros pos Hpos Hfuel.
  { simpl. split; [|constructor]. intros k. split; [intros []|].
    intros [Hk Ho]. apply occurs_at_iff in Ho. pose proof (len_nonneg pat). lia. }
  cbn [find_all]. cbv zeta.
  destruct (find_from_spec data pat pos Hpos) as [[Hr Hnone] | (Hge & Hocc & Hfirst)].
  - rewrite Hr. simpl. split; [|constructor].
    intros k. split; [intros [] | intros [Hk Ho]; exact (Hnone k Hk Ho)].
  - set (idx := find data pat pos (len data)) in *.
    assert (Hidx : idx <> -1) by lia.
    apply Z.eqb_neq in Hidx. rewrite Hidx.
    assert (Hin : idx + len pat <= len data) by (apply occurs_at_iff in Hocc; lia).
    destruct (Z_lt_le_dec (len data) (idx + step)) as [Hend | Hend].
    + (* past the end: nothing more is found *)
      assert (Hrest : forall k, idx < k -> ~ Layout.occurs_at pat data k).
      { intros k Hk Ho. pose proof (Hgap idx k Hocc Ho Hk).
        apply occurs_at_iff in Ho. pose proof (len_nonneg pat). lia. }
      assert (Hnil : find_all fuel data pat (idx + step) step = []).
      { destruct fuel; [reflexivity|]. cbn [find_all].
        destruct (find_from_spec data pat (idx + step) ltac:(lia)) as [[Hr _] | (Hge' & Hocc' & _)].
        - now rewrite Hr.
        - exfalso. eapply Hrest; [|exact Hocc']. lia. }
      rewrite Hnil. split; [|repeat constructor].
      intros k. split.
      * intros [<- | []]. split; [exact Hge | exact Hocc].
      * intros [Hk Ho]. left.
        destruct (Z.lt_trichotomy k idx) as [Hc | [Hc | Hc]]; [|now symmetry|].
        -- exfalso. apply (Hfirst k ltac:(lia) Ho).
        -- exfalso. apply (Hrest k Hc Ho).
    + destruct (IH (idx + step) ltac:(lia) ltac:(lia)) as [IHin IHsorted].
      split.
      * intros k. split.
        -- intros [<- | Hk]; [split; [exact Hge | exact Hocc]|].
           apply IHin in Hk. split; [lia | apply Hk].
        -- intros [Hk Ho].
           destruct (Z.lt_trichotomy k idx) as [Hc | [Hc | Hc]].
           ++ exfalso. apply (Hfirst k ltac:(lia) Ho).
           ++ left. now symmetry.
           ++ right. apply IHin. split; [|exact Ho]. exact (Hgap idx k Hocc Ho Hc).
      * constructor; [exact IHsorted|].
        apply Forall_forall. intros k Hk. apply IHin in Hk. lia.
Qed.

(** Two occurrences of an unbordered pattern do not overlap. *)
Lemma unbordered_gap (pat data : bytes) (i j : Z) :
  Layout.unbordered pat = true ->
  Layout.occurs_at pat data i -> Layout.occurs_at pat data j -> i < j -> i + len pat <= j.
Proof.
  intros Hu Hi Hj Hlt.
  destruct (Z_le_gt_dec (i + len pat) j) as [H|H]; [exact H|exfalso].
  apply occurs_at_iff in Hi, Hj.
  destruct Hi as (Hi0 & Hile & Hi), Hj as (Hj0 & Hjle & Hj).
  apply starts_with_iff in Hi as [sufi Hi]. apply starts_with_iff in Hj as [sufj Hj].
  set (d := Z.to_nat (j - i)).
  assert (Hd : (0 < d < length pat)%nat) by (unfold len in *; lia).
  unfold Layout.unbordered in Hu. rewrite forallb_forall in Hu.
  specialize (Hu d ltac:(apply in_seq; lia)). apply negb_true_iff in Hu.
  unfold Layout.overlaps_at in Hu.
  (* the tail of the first occurrence is the head of the second *)
  assert (Hskip : skipn (Z.to_nat j) data = skipn d (skipn (Z.to_nat i) data)).
  { rewrite skipn_skipn. f_equal. lia. }
  rewrite Hi, Hj in Hskip. rewrite skipn_app in Hskip.
  replace (d - length pat)%nat with 0%nat in Hskip by lia. simpl skipn in Hskip.
  assert (Hs : starts_with (skipn d pat) pat = true).
  { apply starts_with_iff. exists (firstn d sufi).
    apply (f_equal (firstn (length pat))) in Hskip.
    rewrite !firstn_app, firstn_all, Nat.sub_diag, length_skipn in Hskip.
    simpl in Hskip. rewrite app_nil_r in Hskip.
    rewrite (firstn_all2 (skipn d pat)) in Hskip by (rewrite length_skipn; lia).
    replace (length pat - (length pat - d))%nat with d in Hskip by lia.
    exact Hskip. }
  congruence.
Qed.

(** A strictly ascending list whose members are pairwise [g] apart. *)
Lemma StronglySorted_gap (g : Z) (l : list Z) :
  (forall a b, In a l -> In b l -> a < b -> a + g <= b) ->
  StronglySorted Z.lt l -> StronglySorted (fun a b => a + g <= b) l.
Proof.
  intros Hgap Hs. induction Hs as [|a l _ IH Ha]; constructor.
  - apply IH. intros x y Hx Hy. apply Hgap; now right.
  - rewrite Forall_forall in Ha. apply Forall_forall. intros b Hb.
    apply Hgap; [now left | now right | exact (Ha b Hb)].
Qed.

(** X1. [data_headers] holds exactly the offsets at which the 8-byte marker
    occurs in the buffer, in ascending order.  The marker cannot overlap
    itself, so two offsets are at least 8 bytes apart: resuming the search
    one byte after a hit never finds a second marker inside the first. *)
Theorem data_headers_are_the_markers (data : bytes) :
  (forall k, In k (find_data_headers data) <-> Layout.occurs_at DATA_HEADER data k) /\
  StronglySorted (fun a b => a + 8 <= b) (find_data_headers data).
Proof.
  destruct (find_all_spec data DATA_HEADER 1 ltac:(lia)
              ltac:(intros; lia) (S (length data)) 0 ltac:(lia) ltac:(unfold len; lia))
    as [Hin Hsorted].
  assert (Hocc : forall k, In k (find_data_headers data)
                           <-> Layout.occurs_at DATA_HEADER data k).
  { intros k. unfold find_data_headers. rewrite (Hin k). split; [tauto|].
    intros H. split; [|exact H]. apply occurs_at_iff in H. lia. }
  split; [exact Hocc|].
  apply StronglySorted_gap.
  - intros x y Hx Hy Hxy. apply Hocc in Hx, Hy.
    exact (unbordered_gap DATA_HEADER data x y eq_refl Hx Hy Hxy).
  - eapply StronglySorted_weaken; [|exact Hsorted]. intros x y Hxy. cbv beta in Hxy. lia.
Qed.

(** X2. [delay_positions] holds exactly the offsets at which the literal
    [ChannelDelayMs] occurs in the buffer, in ascending order; no two of
    them are less than 14 bytes apart. *)
Theorem delay_positions_are_the_anchors (data : bytes) :
  (forall k, In k (finditer_starts CHANNEL_DELAY_MS data)
             <-> Layout.occurs_at CHANNEL_DELAY_MS data k) /\
  StronglySorted (fun a b => a + 14 <= b) (finditer_starts CHANNEL_DELAY_MS data).
Proof.
  destruct (find_all_spec data CHANNEL_DELAY_MS (len CHANNEL_DELAY_MS) ltac:(reflexivity)
              (fun i j => unbordered_gap CHANNEL_DELAY_MS data i j eq_refl)
              (S (length data)) 0 ltac:(lia) ltac:(unfold len; lia))
    as [Hin Hsorted].
  split; [|exact Hsorted].
  intros k. rewrite (Hin k). split; [tauto|]. intros H. split; [|exact H].
  apply occurs_at_iff in H. lia.
Qed.

End Anchors.

Section Metadata.
Import Py Float Models Parser.

Lemma len_map {A B : Type} (f : A -> B) (l : list A) : len (map f l) = len l.
Proof. unfold len. now rewrite length_map. Qed.

Lemma adjust_end_id (n j : Z) : 0 <= j <= n -> adjust_end n j = j.
Proof.
  intros H. unfold adjust_end.
  destruct (j >? n) eqn:E1; [rewrite Z.gtb_ltb in E1; apply Z.ltb_lt in E1; lia|].
  destruct (j <? 0) eqn:E2; [apply Z.ltb_lt in E2; lia | reflexivity].
Qed.

Lemma adjust_end_le_nonneg (n j : Z) : 0 <= n -> 0 <= j -> adjust_end n j <= j.
Proof.
  intros Hn Hj. unfold adjust_end.
  destruct (j >? n) eqn:E1; [rewrite Z.gtb_ltb in E1; apply Z.ltb_lt in E1; lia|].
  destruct (j <? 0) eqn:E2; [apply Z.ltb_lt in E2; lia | lia].
Qed.

(** A slice is no longer than its bounds are apart. *)
Lemma slice_len_le {A : Type} (data : list A) (start stop : Z) :
  0 <= stop -> len (slice data start stop) <= Z.max 0 (stop - start).
Proof.
  intros Hstop. unfold slice.
  pose proof (adjust_start_ge (len data) start (len_nonneg data)) as [Hs _].
  pose proof (adjust_end_le_nonneg (len data) stop (len_nonneg data) Hstop) as He.
  pose proof (adjust_end_le (len data) stop (len_nonneg data)) as He'.
  unfold len at 1. rewrite length_firstn.
  set (e := adjust_end (len data) stop) in *.
  set (a := adjust_start (len data) start) in *.
  set (m := length (skipn _ data)). lia.
Qed.

(** What the scan files: see [Layout.entry_ok]. *)
Lemma metadata_step_accept (data : bytes) (pos : Z) (key val : pystr) (next_pos : Z) :
  metadata_step data pos = Ok (Accept key val next_pos) -> Layout.entry_ok (key, val).
Proof.
  unfold metadata_step.
  set (null_pos := find data [x00%byte] pos (pos + 100)).
  destruct ((null_pos =? -1) || (null_pos - pos >? 50)) eqn:E1; [discriminate|].
  apply orb_false_iff in E1 as [E1 E1']. apply Z.eqb_neq in E1.
  rewrite Z.gtb_ltb in E1'. apply Z.ltb_ge in E1'.
  destruct (find_hit_ge _ _ _ _ E1) as [Hge H0]. fold null_pos in Hge, H0.
  destruct (negb _ || _) eqn:E2; [discriminate|].
  apply orb_false_iff in E2 as [E2 E2']. apply negb_false_iff in E2. apply Z.ltb_ge in E2'.
  destruct (null_pos + 1 + 4 >? len data) eqn:E3; [discriminate|].
  rewrite Z.gtb_ltb in E3. apply Z.ltb_ge in E3.
  unfold unpack_from_I. rewrite unpack_window_ok by lia. cbn [bind].
  set (val_len := le_uint _).
  destruct (val_len >? 200) eqn:E4; [discriminate|].
  rewrite Z.gtb_ltb in E4. apply Z.ltb_ge in E4.
  intros [= <- <- _]. unfold Layout.entry_ok. cbn [fst snd].
  split; [exact E2|]. split; [split; [exact E2'|]|].
  - unfold decode_ascii_replace. rewrite len_map.
    pose proof (slice_len_le data pos null_pos H0). lia.
  - unfold decode_ascii_replace. rewrite len_map.
    pose proof (le_uint_nonneg (firstn 4 (skipn (Z.to_nat (null_pos + 1)) data))) as Hv.
    fold val_len in Hv.
    pose proof (slice_len_le data (null_pos + 1 + 4) (null_pos + 1 + 4 + val_len) ltac:(lia)). lia.
Qed.

Lemma metadata_loop_entries (data : bytes) (end_ : Z) (fuel : nat) :
  forall pos meta meta',
    Forall Layout.entry_ok meta -> NoDup (map fst meta) ->
    metadata_loop fuel data end_ pos meta = Some (Ok meta') ->
    Forall Layout.entry_ok meta' /\ NoDup (map fst meta').
Proof.
  induction fuel as [|fuel IH]; intros pos meta meta' Hok Hnd; simpl.
  - destruct (pos <? end_); [discriminate | intros [= <-]; auto].
  - destruct (pos <? end_); [|intros [= <-]; auto].
    destruct (metadata_step data pos) as [[| key val next |]|e] eqn:Hs.
    + apply IH; assumption.
    + apply metadata_step_accept in Hs. apply IH.
      * apply dict_set_forall; [exact Hok | | exact Hs].
        intros k' Hk'. apply str_eqb_eq in Hk'. subst k'.
        destruct Hs as (H1 & H2 & H3). split; [exact H1 | split; [exact H2 | exact H3]].
      * apply dict_set_nodup; [apply str_eqb_eq | exact Hnd].
    + intros [= <-]; auto.
    + discriminate.
Qed.

(** X3. Whatever the buffer, the start position and the boundaries,
    [_parse_metadata] returns a dictionary in which every key is printable
    and has 2 to 50 characters, every value has at most 200, and no key is
    filed twice. *)
Theorem parse_metadata_entries (data : bytes) (start_pos : Z) (boundaries : list Z) :
  exists meta,
    _parse_metadata data start_pos boundaries = Ok meta /\
    Forall Layout.entry_ok meta /\ NoDup (map fst meta).
Proof.
  set (end_ := metadata_end data start_pos boundaries).
  destruct (metadata_loop_enough data end_ (Z.to_nat (end_ - start_pos)) start_pos [])
    as [meta Hm]; [lia|].
  exists meta. split.
  - unfold _parse_metadata. fold end_. now rewrite Hm.
  - eapply metadata_loop_entries; [constructor | constructor | exact Hm].
Qed.

Lemma skipn_len_app {A : Type} (a b : list A) : skipn (Z.to_nat (len a)) (a ++ b) = b.
Proof. unfold len. rewrite Nat2Z.id, skipn_app, skipn_all, Nat.sub_diag. reflexivity. Qed.

Lemma firstn_len_app {A : Type} (a b : list A) : firstn (Z.to_nat (len a)) (a ++ b) = a.
Proof.
  unfold len. rewrite Nat2Z.id, firstn_app, firstn_all, Nat.sub_diag. simpl. apply app_nil_r.
Qed.

(** The slice that a part of a buffer occupies is that part. *)
Lemma slice_mid {A : Type} (pre mid suf : list A) :
  slice (pre ++ mid ++ suf) (len pre) (len pre + len mid) = mid.
Proof.
  unfold slice.
  assert (Hn : len (pre ++ mid ++ suf) = len pre + len mid + len suf)
    by (rewrite !len_app; lia).
  pose proof (len_nonneg pre). pose proof (len_nonneg mid). pose proof (len_nonneg suf).
  rewrite adjust_end_id by lia.
  unfold adjust_start. destruct (len pre <? 0) eqn:E; [apply Z.ltb_lt in E; lia|].
  rewrite Z.min_r by lia. rewrite skipn_len_app.
  replace (len pre + len mid - len pre) with (len mid) by lia. apply firstn_len_app.
Qed.

Lemma printable_not_nul (b : byte) : Layout.printable_ascii b = true -> Byte.eqb x00 b = false.
Proof.
  intros H. destruct (Byte.eqb x00 b) eqn:E; [|reflexivity].
  apply byte_dec_bl in E. subst b. discriminate H.
Qed.

(** The NUL that ends a printable key is the first NUL from its start. *)
Lemma find_in_nul (k rest : bytes) :
  forallb Layout.printable_ascii k = true ->
  forall i n, (length k < n)%nat ->
    find_in [x00%byte] (k ++ x00%byte :: rest) i n = i + len k.
Proof.
  induction k as [|c k IH]; intros Hk i n Hn.
  - destruct n; [lia|]. simpl. unfold len. simpl. lia.
  - simpl in Hk. apply andb_true_iff in Hk as [Hc Hk].
    destruct n; [simpl in Hn; lia|]. cbn [find_in app starts_with].
    rewrite (printable_not_nul c Hc). cbn [andb].
    rewrite (IH Hk (i + 1) n) by (simpl in Hn; lia).
    unfold len. cbn [length]. lia.
Qed.

Lemma find_nul (pre k rest : bytes) :
  forallb Layout.printable_ascii k = true -> len k < 100 ->
  find (pre ++ k ++ x00%byte :: rest) [x00%byte] (len pre) (len pre + 100) = len pre + len k.
Proof.
  intros Hk Hlen. unfold find.
  set (data := pre ++ k ++ x00%byte :: rest).
  assert (Hn : len data = len pre + len k + 1 + len rest).
  { subst data. rewrite !len_app. unfold len at 3. cbn [length]. unfold len. lia. }
  pose proof (len_nonneg pre). pose proof (len_nonneg k). pose proof (len_nonneg rest).
  unfold adjust_start. destruct (len pre <? 0) eqn:E; [apply Z.ltb_lt in E; lia|].
  set (e := adjust_end (len data) (len pre + 100)).
  assert (He : len pre + len k + 1 <= e).
  { subst e. unfold adjust_end.
    destruct (len pre + 100 >? len data) eqn:E1; [lia|].
    destruct (len pre + 100 <? 0) eqn:E2; [apply Z.ltb_lt in E2; lia | lia]. }
  change (len [x00%byte]) with 1.
  destruct (e - len pre <? 1) eqn:E3; [apply Z.ltb_lt in E3; lia|].
  subst data. rewrite skipn_len_app.
  apply find_in_nul; [exact Hk | unfold len in *; lia].
Qed.

Lemma decode_printable (k : bytes) :
  forallb Layout.printable_ascii k = true -> isprintable (decode_ascii_replace k) = true.
Proof.
  unfold isprintable, decode_ascii_replace.
  intros H. rewrite forallb_forall in *. intros c Hc.
  apply in_map_iff in Hc as (b & <- & Hb). specialize (H b Hb).
  unfold Layout.printable_ascii, byte_val in H. apply andb_true_iff in H as [H1 H2].
  apply Z.leb_le in H1, H2.
  destruct (Z.of_N (Byte.to_N b) <? 128) eqn:E; [|apply Z.ltb_ge in E; lia].
  unfold char_isprintable. apply orb_true_iff. left.
  apply andb_true_iff. split; apply Z.leb_le; lia.
Qed.

Lemma pack_I_length (n : Z) : len (Spec.pack_I n) = 4.
Proof. reflexivity. Qed.

Lemma byte_of_small (x : Z) :
  0 <= x < 256 ->
  byte_val (match Byte.of_N (Z.to_N x) with Some b => b | None => x00%byte end) = x.
Proof.
  intros Hx. destruct (Byte.of_N (Z.to_N x)) as [b|] eqn:E.
  - apply Byte.to_of_N in E. unfold byte_val. rewrite E. lia.
  - apply Byte.of_N_None_iff in E. lia.
Qed.

(** [struct.unpack("<I", struct.pack("<I", n))] is [n]. *)
Lemma le_uint_pack_I (n : Z) : 0 <= n < 2 ^ 32 -> le_uint (Spec.pack_I n) = n.
Proof.
  intros Hn. unfold Spec.pack_I. cbn [map le_uint].
  rewrite !byte_of_small by (apply Z.mod_pos_bound; lia).
  change (256 ^ 0) with 1. change (256 ^ 1) with 256.
  change (256 ^ 2) with (256 * 256). change (256 ^ 3) with (256 * 256 * 256).
  change (2 ^ 32) with 4294967296 in Hn.
  rewrite Z.div_1_r. rewrite <- !Z.div_div by lia.
  set (q1 := n / 256). set (q2 := q1 / 256). set (q3 := q2 / 256).
  pose proof (Z.div_mod n 256 ltac:(lia)) as H1. fold q1 in H1.
  pose proof (Z.div_mod q1 256 ltac:(lia)) as H2. fold q2 in H2.
  pose proof (Z.div_mod q2 256 ltac:(lia)) as H3. fold q3 in H3.
  pose proof (Z.mod_pos_bound n 256 ltac:(lia)).
  pose proof (Z.mod_pos_bound q1 256 ltac:(lia)).
  pose proof (Z.mod_pos_bound q2 256 ltac:(lia)).
  assert (0 <= q3 < 256) by lia.
  rewrite (Z.mod_small q3) by lia. lia.
Qed.

(** At the start of a record the scan accepts it whole. *)
Lemma metadata_step_record (pre rest : bytes) (kv : bytes * bytes) :
  Layout.record_ok kv ->
  metadata_step (pre ++ Layout.encode_record kv ++ rest) (len pre)
    = Ok (Accept (decode_ascii_replace (fst kv)) (decode_ascii_replace (snd kv))
                 (len pre + len (Layout.encode_record kv))).
Proof.
  destruct kv as [k v]. unfold Layout.record_ok, Layout.encode_record. cbn [fst snd].
  intros (Hk & Hklen & Hvlen).
  pose proof (len_nonneg pre) as Hp. pose proof (len_nonneg v) as Hv0.
  pose proof (len_nonneg rest) as Hr0.
  set (pack := Spec.pack_I (len v)).
  set (data := pre ++ (k ++ [x00%byte] ++ pack ++ v) ++ rest).
  assert (Hd1 : data = pre ++ k ++ x00%byte :: (pack ++ v ++ rest)).
  { subst data. now rewrite <- !app_assoc. }
  assert (Hd2 : data = (pre ++ k ++ [x00%byte]) ++ pack ++ (v ++ rest)).
  { subst data. now rewrite <- !app_assoc. }
  assert (Hd3 : data = (pre ++ k ++ [x00%byte] ++ pack) ++ v ++ rest).
  { subst data. now rewrite <- !app_assoc. }
  assert (Hd4 : data = pre ++ k ++ ([x00%byte] ++ pack ++ v ++ rest)).
  { subst data. now rewrite <- !app_assoc. }
  assert (Hl1 : len (pre ++ k ++ [x00%byte]) = len pre + len k + 1).
  { rewrite !len_app. change (len [x00%byte]) with 1. lia. }
  assert (Hl2 : len (pre ++ k ++ [x00%byte] ++ pack) = len pre + len k + 1 + 4).
  { rewrite !len_app. subst pack. rewrite pack_I_length. change (len [x00%byte]) with 1. lia. }
  assert (Hn : len data = len pre + len k + 1 + 4 + len v + len rest).
  { rewrite Hd3, len_app, Hl2, len_app. lia. }
  assert (Hfind : find data [x00%byte] (len pre) (len pre + 100) = len pre + len k).
  { rewrite Hd1. apply find_nul; [exact Hk | lia]. }
  assert (Hkey : slice data (len pre) (len pre + len k) = k).
  { rewrite Hd4. apply slice_mid. }
  assert (Hunp : unpack_from_I data (len pre + len k + 1) = Ok (len v)).
  { unfold unpack_from_I. rewrite unpack_window_ok by lia. cbn [bind].
    rewrite <- Hl1, Hd2, skipn_len_app.
    change 4%nat with (Z.to_nat (len pack)). rewrite firstn_len_app.
    subst pack. rewrite le_uint_pack_I by (change (2 ^ 32) with 4294967296; lia).
    reflexivity. }
  assert (Hval : slice data (len pre + len k + 1 + 4) (len pre + len k + 1 + 4 + len v) = v).
  { rewrite <- Hl2, Hd3. apply slice_mid. }
  unfold metadata_step. fold data. rewrite !Hfind, !Hkey, Hunp. cbn [bind].
  replace (len pre + len k =? -1) with false by (symmetry; apply Z.eqb_neq; lia).
  replace (len pre + len k - len pre >? 50) with false
    by (symmetry; rewrite Z.gtb_ltb; apply Z.ltb_ge; lia).
  cbn [orb].
  rewrite (decode_printable k Hk). unfold decode_ascii_replace at 1. rewrite len_map.
  replace (len k <? 2) with false by (symmetry; apply Z.ltb_ge; lia).
  cbn [negb orb].
  replace (len pre + len k + 1 + 4 >? len data) with false
    by (symmetry; rewrite Z.gtb_ltb; apply Z.ltb_ge; lia).
  replace (len v >? 200) with false by (symmetry; rewrite Z.gtb_ltb; apply Z.ltb_ge; lia).
  rewrite Hval. f_equal. f_equal.
  rewrite !len_app. subst pack. rewrite pack_I_length. change (len [x00%byte]) with 1. lia.
Qed.

Lemma encode_record_len (kv : bytes * bytes) :
  len (Layout.encode_record kv) = len (fst kv) + 5 + len (snd kv).
Proof.
  unfold Layout.encode_record. rewrite !len_app, pack_I_length.
  change (len [x00%byte]) with 1. lia.
Qed.

(** A control byte cannot start a key: the scan moves on by one byte. *)
Lemma metadata_step_control (pre rest : bytes) (b : byte) :
  Layout.control_byte b = true ->
  metadata_step (pre ++ b :: rest) (len pre) = Ok Resync.
Proof.
  intros Hb. unfold metadata_step.
  set (data := pre ++ b :: rest).
  set (null_pos := find data [x00%byte] (len pre) (len pre + 100)).
  destruct ((null_pos =? -1) || (null_pos - len pre >? 50)) eqn:E1; [reflexivity|].
  apply orb_false_iff in E1 as [E1 _]. apply Z.eqb_neq in E1.
  destruct (find_hit_ge _ _ _ _ E1) as [Hge _].
  destruct (find_hit_inside _ _ _ _ E1) as [H0 Hin].
  fold null_pos in Hge, H0, Hin. change (len [x00%byte]) with 1 in Hin.
  pose proof (len_nonneg pre) as Hp.
  assert (Hslice : slice data (len pre) null_pos
                   = firstn (Z.to_nat (null_pos - len pre)) (b :: rest)).
  { unfold slice. rewrite (adjust_end_id (len data) null_pos) by lia.
    unfold adjust_start. destruct (len pre <? 0) eqn:E; [apply Z.ltb_lt in E; lia|].
    rewrite Z.min_r by lia. subst data. now rewrite skipn_len_app. }
  rewrite Hslice.
  destruct (Z.to_nat (null_pos - len pre)) as [|k]; [reflexivity|].
  cbn [firstn decode_ascii_replace map isprintable forallb].
  replace (char_isprintable _) with false; [reflexivity|].
  symmetry. unfold Layout.control_byte, byte_val in Hb.
  unfold char_isprintable, REPLACEMENT_CHARACTER.
  set (n := Z.of_N (Byte.to_N b)) in *.
  apply orb_true_iff in Hb.
  destruct (n <? 128) eqn:E.
  - apply orb_false_iff. split.
    + apply andb_false_iff.
      destruct Hb as [Hb | Hb]; [apply Z.ltb_lt in Hb | apply Z.eqb_eq in Hb].
      * left. apply Z.leb_gt. lia.
      * right. apply Z.leb_gt. lia.
    + apply Z.ltb_lt in E. apply Z.eqb_neq. lia.
  - apply Z.ltb_ge in E.
    destruct Hb as [Hb | Hb]; [apply Z.ltb_lt in Hb | apply Z.eqb_eq in Hb]; lia.
Qed.

(** A run of control bytes is skipped byte by byte. *)
Lemma metadata_loop_skip (pad rest : bytes) (end_ : Z) :
  forallb Layout.control_byte pad = true ->
  forall pre meta fuel,
    (length pad <= fuel)%nat -> len pre + len pad <= end_ ->
    metadata_loop fuel (pre ++ pad ++ rest) end_ (len pre) meta
      = metadata_loop (fuel - length pad) (pre ++ pad ++ rest) end_ (len pre + len pad) meta.
Proof.
  induction pad as [|b pad IH]; intros Hpad pre meta fuel Hfuel Hend.
  - simpl. change (len (@nil byte)) with 0. now rewrite Z.add_0_r, Nat.sub_0_r.
  - cbn [forallb] in Hpad. apply andb_true_iff in Hpad as [Hb Hpad].
    destruct fuel as [|fuel]; [simpl in Hfuel; lia|].
    assert (Hl : len (b :: pad) = 1 + len pad) by (unfold len; simpl length; lia).
    pose proof (len_nonneg pad) as Hp0.
    cbn [metadata_loop].
    replace (len pre <? end_) with true by (symmetry; apply Z.ltb_lt; lia).
    change ((b :: pad) ++ rest) with (b :: pad ++ rest).
    rewrite (metadata_step_control pre (pad ++ rest) b Hb).
    specialize (IH Hpad (pre ++ [b]) meta fuel ltac:(simpl in Hfuel; lia)).
    rewrite len_app in IH. change (len [b]) with 1 in IH.
    rewrite <- app_assoc in IH. cbn [app] in IH.
    rewrite IH by lia. cbn [length Nat.sub]. f_equal. lia.
Qed.

(** A run of records is read record by record, the filler skipped. *)
Lemma metadata_loop_padded (trail suf : bytes) (items : list (bytes * (bytes * bytes))) :
  forallb Layout.control_byte trail = true ->
  Forall Layout.padded_ok items ->
  forall pre meta fuel,
    (length (Layout.encode_padded items ++ trail) <= fuel)%nat ->
    metadata_loop fuel (pre ++ Layout.encode_padded items ++ trail ++ suf)
                  (len pre + len (Layout.encode_padded items) + len trail) (len pre) meta
      = Some (Ok (Layout.records_dict (map snd items) meta)).
Proof.
  intros Htrail. induction 1 as [|[pad kv] items [Hpad Hkv] _ IH]; intros pre meta fuel Hfuel.
  - cbn [Layout.encode_padded flat_map app map Layout.records_dict fold_left] in *.
    change (len (@nil byte)) with 0. rewrite Z.add_0_r.
    rewrite (metadata_loop_skip trail suf _ Htrail pre meta fuel Hfuel) by lia.
    destruct (fuel - length trail)%nat; simpl; rewrite Z.ltb_irrefl; reflexivity.
  - cbn [fst snd] in Hpad, Hkv.
    change (Layout.encode_padded ((pad, kv) :: items))
      with ((pad ++ Layout.encode_record kv) ++ Layout.encode_padded items) in *.
    set (tail := Layout.encode_padded items) in *.
    pose proof (encode_record_len kv) as Hlen.
    pose proof (len_nonneg (fst kv)). pose proof (len_nonneg (snd kv)).
    pose proof (len_nonneg tail). pose proof (len_nonneg pad). pose proof (len_nonneg trail).
    rewrite !length_app in Hfuel.
    assert (Hr : (length (Layout.encode_record kv) >= 5)%nat) by (unfold len in Hlen; lia).
    rewrite !len_app.
    replace (pre ++ ((pad ++ Layout.encode_record kv) ++ tail) ++ trail ++ suf)
      with (pre ++ pad ++ (Layout.encode_record kv ++ tail ++ trail ++ suf))
      by (now rewrite <- !app_assoc).
    rewrite (metadata_loop_skip pad _ _ Hpad pre meta fuel) by lia.
    destruct (fuel - length pad)%nat as [|fuel'] eqn:Ef; [lia|].
    cbn [metadata_loop].
    replace (len pre + len pad <? len pre + (len pad + len (Layout.encode_record kv) + len tail)
                                  + len trail)
      with true by (symmetry; apply Z.ltb_lt; lia).
    replace (pre ++ pad ++ Layout.encode_record kv ++ tail ++ trail ++ suf)
      with ((pre ++ pad) ++ Layout.encode_record kv ++ (tail ++ trail ++ suf))
      by (now rewrite <- !app_assoc).
    rewrite <- (len_app pre pad).
    rewrite (metadata_step_record (pre ++ pad) _ kv Hkv).
    specialize (IH ((pre ++ pad) ++ Layout.encode_record kv)
                   (dict_set str_eqb meta (decode_ascii_replace (fst kv))
                             (decode_ascii_replace (snd kv)))
                   fuel' ltac:(rewrite length_app; lia)).
    rewrite <- !app_assoc in IH. rewrite <- !app_assoc.
    rewrite !len_app in IH. rewrite !len_app.
    etransitivity; [|exact IH]. f_equal; lia.
Qed.

(** X4. A run of well-formed records (a printable key of 2 to 50 bytes, a
    NUL, the length of the value on four bytes, a value of at most 200
    bytes) is read back as it was written, whatever control bytes (NUL
    included) stand before each record and after the last: the scan steps
    over those one byte at a time and gives the dictionary that assigns each
    value to its key in turn, a later record of a key replacing an earlier
    one. *)
Theorem parse_metadata_records (pre trail suf : bytes)
    (items : list (bytes * (bytes * bytes))) (boundaries : list Z) :
  Forall Layout.padded_ok items ->
  forallb Layout.control_byte trail = true ->
  metadata_end (pre ++ Layout.encode_padded items ++ trail ++ suf) (len pre) boundaries
    = len pre + len (Layout.encode_padded items) + len trail ->
  _parse_metadata (pre ++ Layout.encode_padded items ++ trail ++ suf) (len pre) boundaries
    = Ok (Layout.records_dict (map snd items) []).
Proof.
  intros Hitems Htrail Hend. unfold _parse_metadata. rewrite Hend.
  rewrite (metadata_loop_padded trail suf items Htrail Hitems pre []); [reflexivity|].
  rewrite length_app. unfold len. lia.
Qed.

Lemma parse_metadata_records_witness :
  _parse_metadata
    (PROJECT_HEADER_END ++ Layout.encode_padded Examples.fl_padded ++ [x00%byte] ++ DATA_HEADER)
    (len PROJECT_HEADER_END) [16; 61]
  = Ok [(str "ChannelDelayMs", str "-1.5"); (str "ChannelName", str "FL")].
Proof.
  apply (parse_metadata_records PROJECT_HEADER_END [x00%byte] DATA_HEADER
           Examples.fl_padded [16; 61]).
  - repeat constructor; cbn; try reflexivity; unfold len; cbn; lia.
  - reflexivity.
  - vm_compute. reflexivity.
Defined.

End Metadata.

Section Channels.
Import Py Float Models Parser.

Lemma abs_abs (x : float) : Float.abs (Float.abs x) = Float.abs x.
Proof. destruct x; reflexivity. Qed.

Lemma add_channel_delay (data : bytes) (boundaries : list Z) (d d' : channel_dict)
    (item : Z * Z) :
  Forall (fun kv => Float.abs (delay_ms (snd kv)) = delay_ms (snd kv)) d ->
  add_channel data boundaries d item = Ok d' ->
  Forall (fun kv => Float.abs (delay_ms (snd kv)) = delay_ms (snd kv)) d'.
Proof.
  intros Hinv. unfold add_channel. destruct item as [i meta_start].
  destruct (_parse_metadata data meta_start boundaries) as [meta|e]; simpl; [|discriminate].
  destruct (match dict_get str_eqb meta (str "ChannelIndex") with
            | Some v => int_of_str v | None => Ok i end) as [ch_idx|e]; simpl; [|discriminate].
  set (ch_name := get_default str_eqb meta (str "ChannelName") _).
  set (key := (ch_name, ch_idx)).
  set (d1 := if dict_contains key_eqb d key then d else dict_set key_eqb d key _).
  assert (H1 : Forall (fun kv => Float.abs (delay_ms (snd kv)) = delay_ms (snd kv)) d1).
  { subst d1. destruct (dict_contains key_eqb d key); [exact Hinv|].
    apply dict_set_forall; [exact Hinv | intros; reflexivity | reflexivity]. }
  clearbody d1.
  match goal with |- bind ?r _ = _ -> _ => destruct r as [delay_val|e]; simpl; [|discriminate] end.
  destruct (neqb delay_val f0); [|intros [= <-]; exact H1].
  destruct (dict_get key_eqb d1 key) as [ch|] eqn:Hg; intros [= <-]; [|exact H1].
  apply dict_set_forall; [exact H1 | intros; apply abs_abs | apply abs_abs].
Qed.

Lemma add_channels_delay (data : bytes) (boundaries : list Z) (items : list (Z * Z)) :
  forall d d',
    Forall (fun kv => Float.abs (delay_ms (snd kv)) = delay_ms (snd kv)) d ->
    add_channels data boundaries d items = Ok d' ->
    Forall (fun kv => Float.abs (delay_ms (snd kv)) = delay_ms (snd kv)) d'.
Proof.
  induction items as [|item items IH]; simpl; intros d d' Hinv.
  - now intros [= <-].
  - destruct (add_channel data boundaries d item) as [d1|e] eqn:E; simpl; [|discriminate].
    apply IH. eapply add_channel_delay; eassumption.
Qed.

Lemma assign_blocks_delay (blocks : list block) (item : Z * ChannelData) :
  delay_ms (assign_blocks blocks item) = delay_ms (snd item).
Proof.
  destruct item as [i ch]. unfold assign_blocks. simpl.
  destruct (i * 2 <? len blocks), (i * 2 + 1 <? len blocks);
    repeat match goal with |- context [nth_error ?l ?n] => destruct (nth_error l n) end;
    reflexivity.
Qed.

(** What [parse_swproj] returns when it returns: the list of channels is
    the dictionary of the first loop, sorted by index, with the blocks
    assigned. *)
Lemma parse_swproj_ok (path : pystr) (data : bytes) (require_stereo : bool) (p : Profile) :
  parse_swproj path data require_stereo = Ok p ->
  let data_headers := find_data_headers data in
  let delay_positions := finditer_starts CHANNEL_DELAY_MS data in
  let boundaries := sorted_by (fun b => b) (data_headers ++ delay_positions) in
  exists blocks d,
    data_headers <> [] /\
    _parse_blocks data data_headers boundaries = Ok blocks /\
    add_channels data boundaries [] (enumerate delay_positions) = Ok d /\
    channels p = map (assign_blocks blocks) (enumerate (sorted_by index (dict_values d))).
Proof.
  unfold parse_swproj. cbv zeta.
  destruct (find data PROJECT_HEADER_END 0 (len data) =? -1); [discriminate|].
  destruct (find_data_headers data) as [|h hs]; [discriminate|].
  set (boundaries := sorted_by _ _).
  destruct (_parse_blocks data (h :: hs) boundaries) as [blocks|e]; simpl; [|discriminate].
  destruct (add_channels data boundaries [] _) as [d|e]; simpl; [|discriminate].
  destruct (require_stereo && _); [discriminate|]. intros [= <-]. simpl.
  exists blocks, d. repeat split; congruence.
Qed.

(** X5. The delay of a channel of a parsed profile is never negative: it is
    0.0 or the absolute value of what the file gives (a NaN stays a NaN). *)
Theorem parse_delay_not_negative (path : pystr) (data : bytes) (require_stereo : bool)
    (p : Profile) :
  parse_swproj path data require_stereo = Ok p ->
  Forall (fun ch => Float.abs (delay_ms ch) = delay_ms ch) (channels p).
Proof.
  intros H. destruct (parse_swproj_ok _ _ _ _ H) as (blocks & d & _ & _ & Hd & ->).
  apply add_channels_delay in Hd; [|constructor].
  rewrite Forall_map. apply Forall_forall. intros [i ch] Hin.
  rewrite assign_blocks_delay. cbn [snd].
  apply enumerate_in in Hin.
  apply (Permutation_in _ (Permutation_sym (sorted_by_perm index (dict_values d)))) in Hin.
  unfold dict_values in Hin. apply in_map_iff in Hin as (kv & <- & Hkv).
  rewrite Forall_forall in Hd. exact (Hd kv Hkv).
Qed.

Lemma parse_delay_not_negative_witness :
  Forall (fun ch => Float.abs (delay_ms ch) = delay_ms ch) Samples.stereo_one_block_channels.
Proof.
  exact (parse_delay_not_negative (str "one.swproj") Samples.stereo_one_block true _
           parse_stereo_one_block).
Defined.

Lemma dict_set_length {K V : Type} (eqb : K -> K -> bool) (d : list (K * V)) (k : K) (v : V) :
  length (dict_set eqb d k v) = if dict_contains eqb d k then length d else S (length d).
Proof.
  unfold dict_contains. induction d as [|[k' v'] d IH]; simpl; [reflexivity|].
  destruct (eqb k' k); simpl; [reflexivity|]. rewrite IH. now destruct (dict_get eqb d k).
Qed.

(** A turn of the first loop files at most one new channel, and leaves at
    least one in the dictionary. *)
Lemma add_channel_length (data : bytes) (boundaries : list Z) (d d' : channel_dict)
    (item : Z * Z) :
  add_channel data boundaries d item = Ok d' ->
  (length d <= length d' <= S (length d))%nat /\ (1 <= length d')%nat.
Proof.
  unfold add_channel. destruct item as [i meta_start].
  destruct (_parse_metadata data meta_start boundaries) as [meta|e]; simpl; [|discriminate].
  destruct (match dict_get str_eqb meta (str "ChannelIndex") with
            | Some v => int_of_str v | None => Ok i end) as [ch_idx|e]; simpl; [|discriminate].
  set (ch_name := get_default str_eqb meta (str "ChannelName") _).
  set (key := (ch_name, ch_idx)).
  set (d1 := if dict_contains key_eqb d key then d else dict_set key_eqb d key _).
  assert (H1 : (length d <= length d1 <= S (length d))%nat /\ dict_contains key_eqb d1 key = true).
  { subst d1. destruct (dict_contains key_eqb d key) eqn:E; [split; [lia | exact E]|].
    rewrite dict_set_length, E. split; [lia|].
    unfold dict_contains. destruct (dict_get key_eqb (dict_set key_eqb d key _) key) eqn:G; [reflexivity|].
    apply dict_get_none in G; [|apply key_eqb_eq].
    rewrite dict_set_keys in G. fold (dict_contains key_eqb d key) in G. rewrite E in G.
    exfalso. apply G. apply in_or_app. right. now left. }
  clearbody d1. destruct H1 as [Hlen Hc].
  assert (Hpos : (1 <= length d1)%nat).
  { destruct d1; [discriminate Hc | simpl; lia]. }
  match goal with |- bind ?r _ = _ -> _ => destruct r as [delay_val|e]; simpl; [|discriminate] end.
  destruct (neqb delay_val f0); [|intros [= <-]; split; assumption].
  destruct (dict_get key_eqb d1 key) as [ch|] eqn:Hg; intros [= <-]; [|split; assumption].
  rewrite dict_set_length, Hc. split; assumption.
Qed.

Lemma add_channels_length (data : bytes) (boundaries : list Z) (items : list (Z * Z)) :
  forall d d', add_channels data boundaries d items = Ok d' ->
    (length d <= length d' <= length d + length items)%nat /\
    (items <> [] -> 1 <= length d')%nat.
Proof.
  induction items as [|item items IH]; simpl; intros d d'.
  - intros [= <-]. split; [lia | congruence].
  - destruct (add_channel data boundaries d item) as [d1|e] eqn:E; simpl; [|discriminate].
    intros H. apply add_channel_length in E. destruct (IH _ _ H) as [H1 H2].
    split; [lia | intros _; lia].
Qed.

Lemma enumerate_length {A : Type} (l : list A) : length (enumerate l) = length l.
Proof. unfold enumerate. rewrite length_combine, range_length. lia. Qed.

(** X6. A parsed profile never has more channels than the buffer has
    [ChannelDelayMs] anchors, and it has a channel as soon as there is an
    anchor. *)
Theorem parse_channel_count (path : pystr) (data : bytes) (require_stereo : bool)
    (p : Profile) :
  parse_swproj path data require_stereo = Ok p ->
  (length (channels p) <= length (finditer_starts CHANNEL_DELAY_MS data))%nat /\
  (channels p = [] <-> finditer_starts CHANNEL_DELAY_MS data = []).
Proof.
  intros H. destruct (parse_swproj_ok _ _ _ _ H) as (blocks & d & _ & _ & Hd & Hp).
  apply add_channels_length in Hd. destruct Hd as [Hlen Hpos].
  rewrite enumerate_length in Hlen. simpl in Hlen.
  assert (Hc : length (channels p) = length d).
  { rewrite Hp, length_map, enumerate_length.
    rewrite <- (Permutation_length (sorted_by_perm index (dict_values d))).
    unfold dict_values. apply length_map. }
  split; [lia|]. split.
  - intros E. rewrite E in Hc. simpl in Hc.
    destruct (finditer_starts CHANNEL_DELAY_MS data) as [|a l] eqn:Ef; [reflexivity|].
    exfalso. assert (enumerate (a :: l) <> []).
    { intros En. apply (f_equal (@length _)) in En. rewrite enumerate_length in En. discriminate. }
    specialize (Hpos H0). lia.
  - intros E. rewrite E in Hlen. simpl in Hlen.
    destruct (channels p); [reflexivity | simpl in Hc; lia].
Qed.

Lemma parse_channel_count_witness :
  (length Samples.stereo_one_block_channels
     <= length (finditer_starts CHANNEL_DELAY_MS Samples.stereo_one_block))%nat.
Proof.
  exact (proj1 (parse_channel_count (str "one.swproj") Samples.stereo_one_block true _
                  parse_stereo_one_block)).
Defined.

Lemma nth_error_enumerate {A : Type} (l : list A) (i : nat) (x : A) :
  nth_error l i = Some x -> nth_error (enumerate l) i = Some (Z.of_nat i, x).
Proof.
  unfold enumerate, range.
  assert (G : forall (l : list A) (i s : nat) (x : A),
             nth_error l i = Some x ->
             nth_error (combine (map Z.of_nat (seq s (length l))) l) i
               = Some (Z.of_nat (s + i), x)).
  { clear. induction l as [|y l IH]; intros [|i] s x; simpl; try discriminate.
    - intros [= ->]. now rewrite Nat.add_0_r.
    - intros H. rewrite (IH i (S s) x H). do 2 f_equal. lia. }
  intros H. exact (G l i 0%nat x H).
Qed.

(** The channels of a parsed profile are the channels the anchors gave,
    still without curves, each handed to [assign_blocks] with its place. *)
Lemma parsed_channels_assigned (path : pystr) (data : bytes) (require_stereo : bool)
    (p : Profile) :
  parse_swproj path data require_stereo = Ok p ->
  exists blocks,
    _parse_blocks data (find_data_headers data)
      (sorted_by (fun b => b)
         (find_data_headers data ++ finditer_starts CHANNEL_DELAY_MS data)) = Ok blocks /\
    forall i ch, nth_error (channels p) i = Some ch ->
      exists c, frequencies c = [] /\ correction_dB c = [] /\ measurement_dB c = [] /\
                ch = assign_blocks blocks (Z.of_nat i, c).
Proof.
  intros H. destruct (parse_swproj_ok _ _ _ _ H) as (blocks & d & _ & Hb & Hd & Hp).
  exists blocks. split; [exact Hb|].
  apply add_channels_inv in Hd; [|split; constructor]. destruct Hd as [_ Hfresh].
  intros i ch Hi. rewrite Hp in Hi.
  rewrite nth_error_map in Hi.
  destruct (nth_error (enumerate (sorted_by index (dict_values d))) i) as [[j c]|] eqn:Hn;
    [|discriminate]. injection Hi as <-.
  assert (Hc : nth_error (sorted_by index (dict_values d)) i = Some c /\ j = Z.of_nat i).
  { destruct (nth_error (sorted_by index (dict_values d)) i) as [c'|] eqn:Hc.
    - rewrite (nth_error_enumerate _ _ _ Hc) in Hn. injection Hn as <- <-. auto.
    - apply nth_error_None in Hc.
      assert (i < length (enumerate (sorted_by index (dict_values d))))%nat
        by (apply nth_error_Some; congruence).
      rewrite enumerate_length in H0. lia. }
  destruct Hc as [Hc ->]. exists c.
  apply nth_error_In in Hc.
  apply (Permutation_in _ (Permutation_sym (sorted_by_perm index (dict_values d)))) in Hc.
  unfold dict_values in Hc. apply in_map_iff in Hc as (kv & <- & Hkv).
  rewrite Forall_forall in Hfresh. destruct (Hfresh kv Hkv) as (_ & Hf & Hc' & Hm).
  split; [exact Hf|]. split; [exact Hc'|]. split; [exact Hm | reflexivity].
Qed.

(** What [assign_blocks] gives a channel without curves in place [i]. *)
Lemma assign_blocks_fresh (blocks : list block) (i : nat) (c : ChannelData) :
  frequencies c = [] -> correction_dB c = [] -> measurement_dB c = [] ->
  let ch := assign_blocks blocks (Z.of_nat i, c) in
  match nth_error blocks (2 * i) with
  | Some b => frequencies ch = freqs b /\ correction_dB ch = values b
  | None => frequencies ch = [] /\ correction_dB ch = []
  end /\
  match nth_error blocks (2 * i + 1) with
  | Some b => measurement_dB ch = values b
  | None => measurement_dB ch = []
  end.
Proof.
  intros Hf Hc' Hm. cbv zeta. unfold assign_blocks.
  replace (Z.to_nat (Z.of_nat i * 2)) with (2 * i)%nat by lia.
  replace (Z.to_nat (Z.of_nat i * 2 + 1)) with (2 * i + 1)%nat by lia.
  destruct (Z.of_nat i * 2 <? len blocks) eqn:E1;
    destruct (Z.of_nat i * 2 + 1 <? len blocks) eqn:E2;
    destruct (nth_error blocks (2 * i)) as [b1|] eqn:N1;
    destruct (nth_error blocks (2 * i + 1)) as [b2|] eqn:N2;
    try (apply Z.ltb_lt in E1); try (apply Z.ltb_ge in E1);
    try (apply Z.ltb_lt in E2); try (apply Z.ltb_ge in E2);
    try (apply nth_error_None in N1); try (apply nth_error_None in N2);
    try (assert (2 * i < length blocks)%nat by (apply nth_error_Some; congruence));
    try (assert (2 * i + 1 < length blocks)%nat by (apply nth_error_Some; congruence));
    unfold len in *; try lia; simpl; auto.
Qed.

Lemma Forall2_nth_l {A B : Type} (R : A -> B -> Prop) (l : list A) (l' : list B) :
  Forall2 R l l' ->
  forall i x, nth_error l i = Some x -> exists y, nth_error l' i = Some y /\ R x y.
Proof.
  induction 1 as [|a b l l' Hab _ IH]; intros [|i] x; simpl; try discriminate.
  - intros [= <-]. eauto.
  - apply IH.
Qed.

Lemma nth_error_range (n i : nat) : (i < n)%nat -> nth_error (range n) i = Some (Z.of_nat i).
Proof.
  intros H. unfold range. rewrite nth_error_map.
  assert (G : forall n s i, (i < n)%nat -> nth_error (seq s n) i = Some (s + i)%nat).
  { clear. induction n as [|n IH]; intros s [|i] H; simpl; try lia.
    - now rewrite Nat.add_0_r.
    - rewrite IH by lia. f_equal. lia. }
  rewrite (G n 0%nat i H). reflexivity.
Qed.

(** What [parse_block] appends for the marker at [header]. *)
Lemma parse_block_stored (data : bytes) (boundaries : list Z) (header : Z) (b : block) :
  parse_block data boundaries header = Ok b -> Spec.stored_block data header b.
Proof.
  unfold parse_block.
  destruct (int_truediv _ _) as [q|e]; cbn [bind]; [|discriminate].
  destruct (Float.round q) as [k|e]; cbn [bind]; [|discriminate].
  destruct (mapM _ _) as [points|e] eqn:E; cbn [bind]; [|discriminate].
  intros [= <-]. pose proof (mapM_length _ _ _ E) as Hlen. rewrite range_length in Hlen.
  unfold Spec.stored_block. cbn [fpp freqs values]. rewrite !length_map.
  split; [exact Hlen|]. split; [exact Hlen|].
  intros j f v Hf Hv. rewrite nth_error_map in Hf, Hv.
  destruct (nth_error points j) as [[f' v']|] eqn:Hj; [|discriminate].
  injection Hf as <-. injection Hv as <-.
  assert (Hlt : (j < Z.to_nat POINTS_PER_CURVE)%nat).
  { rewrite <- Hlen. apply nth_error_Some. congruence. }
  apply mapM_ok in E.
  destruct (Forall2_nth_l _ _ _ E j _ (nth_error_range _ _ Hlt)) as (pt & Hpt & Hpoint).
  rewrite Hj in Hpt. injection Hpt as <-.
  unfold parse_point in Hpoint.
  destruct (unpack_from_f data (header + 8 + Z.of_nat j * k * 4)) as [x|e]; cbn [bind] in Hpoint;
    [|discriminate].
  destruct (unpack_from_f data (header + 8 + Z.of_nat j * k * 4 + 4)) as [y|e];
    cbn [bind] in Hpoint; [|discriminate].
  injection Hpoint as <- <-. split; reflexivity.
Qed.

Lemma parse_blocks_stored (data : bytes) (data_headers boundaries : list Z)
    (blocks : list block) :
  _parse_blocks data data_headers boundaries = Ok blocks ->
  Forall2 (Spec.stored_block data) data_headers blocks.
Proof.
  intros H. apply mapM_ok in H.
  induction H as [|h b hs bs Hb _ IH]; constructor; [|exact IH].
  eapply parse_block_stored; exact Hb.
Qed.

(** C1, as the parser has it. A profile that [parse_swproj] returns has
    channels that are unique by (name, index) and in ascending order of
    index.  The file gives one block for each marker, 355 points read in
    file order; the channel in place [i] has the frequencies and the values
    of block [2 i] as [frequencies] and [correction_dB], and neither when
    the file has no such block; it has the values of block [2 i + 1] as
    [measurement_dB], and none when the file has no such block.  So
    [frequencies] and [correction_dB] have the same length, 355 or 0, and
    [measurement_dB], when present, has 355 points and comes with a grid of
    355 points.  The frequencies are not ordered or checked. *)
Theorem parse_profile_shape (path : pystr) (data : bytes) (require_stereo : bool)
    (p : Profile) :
  parse_swproj path data require_stereo = Ok p ->
  NoDup (map Spec.identity (channels p)) /\
  StronglySorted (Spec.key_le index) (channels p) /\
  Forall Spec.curve_shape (channels p) /\
  exists blocks,
    Forall2 (Spec.stored_block data) (find_data_headers data) blocks /\
    forall i ch, nth_error (channels p) i = Some ch ->
      match nth_error blocks (2 * i) with
      | Some b => frequencies ch = freqs b /\ correction_dB ch = values b
      | None => frequencies ch = [] /\ correction_dB ch = []
      end /\
      match nth_error blocks (2 * i + 1) with
      | Some b => measurement_dB ch = values b
      | None => measurement_dB ch = []
      end.
Proof.
  intros H. destruct (parsed_channels_shape _ _ _ _ H) as (Hnodup & Hsorted & Hshape).
  split; [exact Hnodup|]. split; [exact Hsorted|]. split; [exact Hshape|].
  destruct (parsed_channels_assigned _ _ _ _ H) as (blocks & Hb & Hch).
  exists blocks. split; [exact (parse_blocks_stored _ _ _ _ Hb)|].
  intros i ch Hi. destruct (Hch i ch Hi) as (c & Hf & Hc & Hm & ->).
  exact (assign_blocks_fresh blocks i c Hf Hc Hm).
Qed.

Lemma parse_profile_shape_witness :
  NoDup (map Spec.identity Samples.stereo_one_block_channels) /\
  StronglySorted (Spec.key_le index) Samples.stereo_one_block_channels /\
  Forall Spec.curve_shape Samples.stereo_one_block_channels.
Proof.
  destruct (parse_profile_shape (str "one.swproj") Samples.stereo_one_block true _
              parse_stereo_one_block) as (H1 & H2 & H3 & _).
  split; [exact H1|]. split; [exact H2 | exact H3].
Defined.

(** X7. In a parsed profile the channel in place [i] (in ascending order of
    index) has the frequencies and the values of block [2 i] as its grid and
    correction curve and the values of block [2 i + 1] as its measurement
    curve, the blocks counted in the order of their markers in the buffer;
    a curve for which the buffer has no block is empty. *)
Theorem parse_block_assignment (path : pystr) (data : bytes) (require_stereo : bool)
    (p : Profile) :
  parse_swproj path data require_stereo = Ok p ->
  exists blocks,
    _parse_blocks data (find_data_headers data)
      (sorted_by (fun b => b)
         (find_data_headers data ++ finditer_starts CHANNEL_DELAY_MS data)) = Ok blocks /\
    length blocks = length (find_data_headers data) /\
    forall i ch, nth_error (channels p) i = Some ch ->
      match nth_error blocks (2 * i) with
      | Some b => frequencies ch = freqs b /\ correction_dB ch = values b
      | None => frequencies ch = [] /\ correction_dB ch = []
      end /\
      match nth_error blocks (2 * i + 1) with
      | Some b => measurement_dB ch = values b
      | None => measurement_dB ch = []
      end.
Proof.
  intros H. destruct (parsed_channels_assigned _ _ _ _ H) as (blocks & Hb & Hch).
  exists blocks. split; [exact Hb|]. split; [exact (mapM_length _ _ _ Hb)|].
  intros i ch Hi. destruct (Hch i ch Hi) as (c & Hf & Hc & Hm & ->).
  exact (assign_blocks_fresh blocks i c Hf Hc Hm).
Qed.

Lemma parse_block_assignment_witness :
  exists blocks,
    _parse_blocks Samples.stereo_one_block (find_data_headers Samples.stereo_one_block)
      (sorted_by (fun b => b)
         (find_data_headers Samples.stereo_one_block
            ++ finditer_starts CHANNEL_DELAY_MS Samples.stereo_one_block)) = Ok blocks /\
    length blocks = length (find_data_headers Samples.stereo_one_block).
Proof.
  destruct (parse_block_assignment (str "one.swproj") Samples.stereo_one_block true _
              parse_stereo_one_block) as (blocks & H1 & H2 & _).
  exists blocks. split; assumption.
Defined.

End Channels.

Section PreampSign.
Import Py Float Models Dsp.

(** Rounding a mantissa that is not negative does not give a NaN. *)
Lemma binary_round_aux_not_nan (s : bool) (m e : Z) (l : location) :
  0 <= m -> is_nan (binary_round_aux prec emax s m e l) = false.
Proof.
  intros Hm. unfold binary_round_aux, shr_fexp.
  set (n1 := fexp prec emax (Zdigits2 m + e) - e).
  destruct (shr_bounds (shr_record_of_loc m l) e n1 m) as [Hb1 _];
    [rewrite shr_m_of_loc; lia|].
  destruct (shr (shr_record_of_loc m l) e n1) as [mrs1 e1]. simpl in Hb1.
  set (m1 := round_nearest_even (shr_m mrs1) (loc_of_shr_record mrs1)).
  assert (Hm1 := round_nearest_even_bounds (shr_m mrs1) (loc_of_shr_record mrs1)).
  fold m1 in Hm1.
  set (n2 := fexp prec emax (Zdigits2 m1 + e1) - e1).
  destruct (shr_bounds (shr_record_of_loc m1 loc_Exact) e1 n2 m1) as [Hb2 _];
    [rewrite shr_m_of_loc; lia|].
  destruct (shr (shr_record_of_loc m1 loc_Exact) e1 n2) as [mrs2 e2]. simpl in Hb2.
  destruct (shr_m mrs2) as [|p|p]; [reflexivity | | lia].
  destruct (e2 <=? emax - prec); reflexivity.
Qed.

(** The sum of a positive float and of one that is not negative is a
    positive float or a zero: never a NaN, never negative. *)
Lemma add_positive (x h : float) :
  is_nan x = false -> leb x f0 = false -> Spec.nonneg h = true ->
  Spec.nonneg (add x h) = true.
Proof.
  intros Hx Hpos Hh.
  assert (Hsh : forall sh, negb sh = true -> sh = false) by (intros []; [discriminate | reflexivity]).
  destruct x as [sx|sx| |sx mx ex]; [destruct sx; discriminate Hpos | | discriminate Hx |];
    (destruct sx; [discriminate Hpos|]).
  - destruct h as [sh|sh| |sh mh eh]; try discriminate Hh; try reflexivity.
    cbn in Hh. apply Hsh in Hh. subst sh. reflexivity.
  - destruct h as [sh|sh| |sh mh eh]; try discriminate Hh; try reflexivity.
    + cbn in Hh. apply Hsh in Hh. subst sh. reflexivity.
    + cbn in Hh. apply Hsh in Hh. subst sh.
      unfold add, SFadd. cbv zeta. cbn [cond_Zopp].
      set (a := fst (shl_align mx ex (Z.min ex eh))).
      set (b := fst (shl_align mh eh (Z.min ex eh))).
      change (Z.pos a + Z.pos b) with (Z.pos (a + b)). cbn [binary_normalize].
      unfold binary_round.
      destruct (shl_align (a + b) (Z.min ex eh) _) as [mz ez].
      pose proof (binary_round_aux_sign false (Z.pos mz) ez loc_Exact) as Hs.
      pose proof (binary_round_aux_not_nan false (Z.pos mz) ez loc_Exact ltac:(lia)) as Hn.
      destruct (binary_round_aux prec emax false (Z.pos mz) ez loc_Exact) as [s|s| |s mq eq];
        try discriminate Hn; try reflexivity; subst s; reflexivity.
Qed.

Lemma neg_nonneg_leb (x : float) : Spec.nonneg x = true -> leb (neg x) f0 = true.
Proof.
  destruct x as [s|s| |s m e]; try discriminate; try reflexivity;
    cbn; intros Hs; destruct s; try discriminate Hs; reflexivity.
Qed.

Lemma max_list_in (l : list float) (m : float) : max_list l = Ok m -> In m l.
Proof. destruct l as [|x l]; [discriminate|]. intros [= <-]. apply fold_max2_in. Qed.

(** X8. With a headroom that is not negative and gains without NaN,
    [compute_preamp_db] never returns a boost: the preamp is at most 0. *)
Theorem preamp_never_boosts (channels : list ChannelData) (headroom r : float) :
  Spec.no_nan (Spec.all_gains channels) ->
  Spec.nonneg headroom = true ->
  compute_preamp_db channels headroom = Ok r ->
  leb r f0 = true.
Proof.
  intros Hnan Hh. unfold compute_preamp_db.
  destruct channels as [|c cs]; [intros [= <-]; reflexivity|].
  destruct (mapM (fun ch => max_list (correction_dB ch)) (c :: cs)) as [gains|e] eqn:Hg;
    cbn [bind]; [|discriminate].
  destruct (max_list gains) as [m|e] eqn:Hm; cbn [bind]; [|discriminate].
  destruct (leb m f0) eqn:Hle; intros [= <-]; [reflexivity|].
  apply neg_nonneg_leb, add_positive; [|exact Hle | exact Hh].
  apply max_list_in in Hm. apply mapM_ok in Hg.
  unfold Spec.no_nan in Hnan. rewrite Forall_forall in Hnan. apply Hnan.
  unfold Spec.all_gains. apply in_flat_map.
  clear - Hg Hm. induction Hg as [|ch g chs gs Hch _ IH]; [contradiction|].
  destruct Hm as [<- | Hm].
  - exists ch. split; [now left | now apply max_list_in].
  - destruct (IH Hm) as (ch' & Hin & Hg'). exists ch'. split; [now right | exact Hg'].
Qed.

Lemma preamp_never_boosts_witness :
  leb (Prim2SF (-4.0)) f0 = true.
Proof.
  refine (preamp_never_boosts Samples.positive_gains default_headroom_db _ _ eq_refl _).
  - repeat constructor.
  - vm_compute. reflexivity.
Defined.

End PreampSign.

Section Render.
Import Py Float Models Dsp.

Lemma fold_max2_zero (l : list float) (x : float) :
  is_zero x = true -> Forall (fun s => is_zero s = true) l ->
  is_zero (fold_left max2 l x) = true.
Proof.
  revert x. induction l as [|y l IH]; intros x Hx Hl; [exact Hx|].
  inversion Hl; subst. simpl. apply IH; [|assumption].
  unfold max2. now destruct (gtb y x).
Qed.

(** X9. A signal of zeros is rendered as zeros: the peak 0 is replaced by
    1.0, so nothing is divided by zero. *)
Theorem write_wav_silence (samples : list float) :
  samples <> [] ->
  Forall (fun s => is_zero s = true) samples ->
  write_wav samples = Ok (map (fun _ => 0) samples).
Proof.
  intros Hne Hz. unfold write_wav.
  destruct samples as [|s0 samples]; [congruence|].
  cbn [map max_list bind].
  assert (Hm : is_zero (fold_left max2 (map Float.abs samples) (Float.abs s0)) = true).
  { inversion Hz; subst. apply fold_max2_zero.
    - now destruct s0.
    - rewrite Forall_map. eapply Forall_impl; [|eassumption]. now intros [].  }
  rewrite Hm. change (div f0_95 f1) with (Ok f0_95). cbn [bind].
  change (0 :: map (fun _ => 0) samples) with (map (fun _ : float => 0) (s0 :: samples)).
  rewrite <- mapM_pure. apply mapM_ext_in.
  intros s Hs. rewrite Forall_forall in Hz. specialize (Hz s Hs).
  destruct s as [[]| | |]; try discriminate; reflexivity.
Qed.

Lemma write_wav_silence_witness :
  write_wav [Prim2SF 0.0; Prim2SF (-0.0)] = Ok [0; 0].
Proof.
  apply (write_wav_silence [Prim2SF 0.0; Prim2SF (-0.0)]); [discriminate | repeat constructor].
Defined.

End Render.

Section IrLength.
Import Py Float Models Dsp.
Variable M : libm.

Ltac bind_ok x H :=
  match goal with
  | |- bind ?r _ = _ -> _ => destruct r as [x|?] eqn:H; cbn [bind]; [|discriminate]
  end.

Lemma dft_length (term : Z -> Z -> result (float * float)) (n : nat)
    (l : list (float * float)) :
  dft term n = Ok l -> length l = n.
Proof. intros H. apply mapM_length in H. now rewrite range_length in H. Qed.

Lemma mirror_length {A : Type} (l : list A) : length (mirror l) = (length l - 2)%nat.
Proof. unfold mirror. rewrite length_rev, length_firstn, length_skipn. lia. Qed.

Lemma slice_prefix_length {A : Type} (l : list A) (n : Z) :
  0 <= n -> length (slice l 0 n) = Nat.min (Z.to_nat n) (length l).
Proof.
  intros Hn. unfold slice. change (adjust_start (len l) 0) with 0.
  pose proof (len_nonneg l). rewrite Z.min_r by lia. simpl skipn.
  rewrite length_firstn. unfold adjust_end.
  destruct (n >? len l) eqn:E1.
  - rewrite Z.gtb_ltb in E1. apply Z.ltb_lt in E1. unfold len in *. lia.
  - rewrite Z.gtb_ltb in E1. apply Z.ltb_ge in E1.
    destruct (n <? 0) eqn:E2; [apply Z.ltb_lt in E2; lia|]. unfold len in *. lia.
Qed.

Lemma bin_freqs_length (sample_rate n_fft : Z) (bfs : list float) :
  bin_freqs sample_rate n_fft = Ok bfs -> length bfs = Z.to_nat (n_fft / 2 + 1).
Proof. intros H. apply mapM_length in H. now rewrite range_length in H. Qed.

(** X10. The length of the impulse response. [freq_response_to_ir] raises
    [ZeroDivisionError] for [ir_length = 0] and [IndexError] for a negative
    [ir_length], whatever the curve; when it returns, [ir_length] is
    positive and the response has [ir_length] samples if [ir_length] is even
    or 1, and [ir_length - 1] samples if it is odd and at least 3. *)
Theorem ir_length_cases (freqs gains_dB : list float) (sample_rate ir_length : Z) :
  (ir_length < 0 ->
   freq_response_to_ir M freqs gains_dB sample_rate ir_length = Raise IndexError) /\
  (ir_length = 0 ->
   freq_response_to_ir M freqs gains_dB sample_rate ir_length = Raise ZeroDivisionError) /\
  (forall ir, freq_response_to_ir M freqs gains_dB sample_rate ir_length = Ok ir ->
     0 < ir_length /\
     len ir = if (ir_length =? 1) || Z.even ir_length then ir_length else ir_length - 1).
Proof.
  assert (Hneg : ir_length < 0 ->
                 freq_response_to_ir M freqs gains_dB sample_rate ir_length = Raise IndexError).
  { intros Hn. unfold freq_response_to_ir, interp_gains_dB, bin_freqs.
    assert (Hh : ir_length / 2 < 0) by (apply Z.div_lt_upper_bound; lia).
    replace (Z.to_nat (ir_length / 2 + 1)) with 0%nat by lia. reflexivity. }
  assert (Hzero : ir_length = 0 ->
                  freq_response_to_ir M freqs gains_dB sample_rate ir_length
                    = Raise ZeroDivisionError).
  { intros ->. unfold freq_response_to_ir, interp_gains_dB, bin_freqs. cbn.
    unfold int_truediv. destruct (0 * sample_rate); reflexivity. }
  split; [exact Hneg|]. split; [exact Hzero|].
  intros ir Hir.
  assert (Hpos : 0 < ir_length).
  { destruct (Z.lt_trichotomy ir_length 0) as [H | [H | H]]; [| |exact H].
    - rewrite (Hneg H) in Hir. discriminate.
    - rewrite (Hzero H) in Hir. discriminate. }
  split; [exact Hpos|].
  revert Hir. unfold freq_response_to_ir, interp_gains_dB.
  destruct (bin_freqs sample_rate ir_length) as [bfs|] eqn:Hb; cbn [bind]; [|discriminate].
  bind_ok gains Hg. bind_ok magnitudes Hmag. bind_ok log_mag Hlog.
  set (full := log_mag ++ mirror log_mag).
  bind_ok cepstrum Hc. bind_ok c0 Hc0. bind_ok spec Hs. bind_ok mp_spec Hmp.
  bind_ok ir0 Hir0. bind_ok ir1 Hir1. intros [= <-].
  apply bin_freqs_length in Hb. apply mapM_length in Hg, Hmag, Hlog, Hir1.
  apply dft_length in Hir0.
  assert (Hfull : length full = (length log_mag + (length log_mag - 2))%nat).
  { subst full. now rewrite length_app, mirror_length. }
  unfold len. rewrite slice_prefix_length by lia.
  rewrite Hir1, Hir0, Hfull, Hlog, Hmag, Hg, Hb.
  pose proof (Z.div_mod ir_length 2 ltac:(lia)) as Hdm.
  pose proof (Z.mod_pos_bound ir_length 2 ltac:(lia)) as Hmb.
  rewrite Zeven_mod.
  destruct (ir_length =? 1) eqn:E1; [apply Z.eqb_eq in E1 | apply Z.eqb_neq in E1];
    destruct (ir_length mod 2 =? 0) eqn:E2;
    [apply Z.eqb_eq in E2 | apply Z.eqb_neq in E2 | apply Z.eqb_eq in E2 | apply Z.eqb_neq in E2];
    cbn [orb]; lia.
Qed.

End IrLength.

Section Search.
Import Py Float Models Dsp.

(** X11. The binary search of the interpolation. For a target that is
    neither at or below the first grid frequency nor at or above the last
    one, the search ends on two neighbouring indices [lo] and [lo + 1] with
    [freqs[lo] <= bf] and not [freqs[lo + 1] <= bf]; the grid needs not be
    sorted for that. *)
Theorem bisect_finds_bracket (freqs : list float) (bf f_first f_last : float) :
  nth_error freqs 0 = Some f_first ->
  nth_error freqs (length freqs - 1) = Some f_last ->
  is_nan bf = false -> is_nan f_first = false ->
  leb bf f_first = false -> geb bf f_last = false ->
  exists lo f_lo f_hi,
    bisect (length freqs) freqs bf 0 (len freqs - 1) = Ok (Z.of_nat lo, Z.of_nat lo + 1) /\
    nth_error freqs lo = Some f_lo /\ leb f_lo bf = true /\
    nth_error freqs (S lo) = Some f_hi /\ leb f_hi bf = false.
Proof.
  intros Hf0 Hfl Hbf Hn0 Hlow Hhigh.
  assert (Hle : leb f_first bf = true) by (apply leb_total; assumption).
  unfold geb in Hhigh. fold (leb f_last bf) in Hhigh.
  assert (Hlen : (2 <= length freqs)%nat).
  { destruct freqs as [|a [|b l]]; [discriminate | | simpl; lia].
    simpl in Hf0, Hfl. congruence. }
  destruct (bisect_bracket freqs bf (length freqs) 0 (length freqs - 1) f_first f_last)
    as (lo & f_lo & f_hi & Hb & H1 & H2 & H3 & H4); try assumption; try lia.
  exists lo, f_lo, f_hi. repeat split; try assumption.
  replace (len freqs - 1) with (Z.of_nat (length freqs - 1)) by (unfold len; lia).
  change 0 with (Z.of_nat 0). rewrite Hb. do 2 f_equal. lia.
Qed.

Lemma bisect_finds_bracket_witness :
  exists lo, bisect 3 Samples.octave_grid (Prim2SF 3.0) 0 2 = Ok (Z.of_nat lo, Z.of_nat lo + 1).
Proof.
  destruct (bisect_finds_bracket Samples.octave_grid (Prim2SF 3.0) (Prim2SF 1.0) (Prim2SF 4.0)
              eq_refl eq_refl eq_refl eq_refl eq_refl eq_refl)
    as (lo & _ & _ & H & _).
  exists lo. exact H.
Defined.

End Search.

Section Interleaving.
Import Py Float Models Dsp Easyeffects.

Lemma getitem_range {A : Type} (l : list A) (i : Z) :
  In i (range (length l)) -> exists x, getitem l i = Ok x /\ nth_error l (Z.to_nat i) = Some x.
Proof.
  unfold range. intros H. apply in_map_iff in H as (n & <- & Hn). apply in_seq in Hn.
  destruct (nth_error l n) as [x|] eqn:E; [|apply nth_error_None in E; lia].
  exists x. rewrite Nat2Z.id. split; [now apply getitem_nth | exact E].
Qed.

(** A comprehension over the indices of a list, with a body that subscripts
    the list, is a comprehension over its items. *)
Lemma mapM_indices {A B : Type} (l : list A) (f : A -> result B) :
  mapM (fun i => x <- getitem l i ;; f x) (range (length l)) = mapM f l.
Proof.
  unfold range.
  assert (G : forall (pre l : list A),
             mapM (fun i => x <- getitem (pre ++ l) i ;; f x)
                  (map Z.of_nat (seq (length pre) (length l))) = mapM f l).
  { clear l. intros pre l. revert pre. induction l as [|y l IH]; intros pre; [reflexivity|].
    cbn [length seq map mapM].
    rewrite (getitem_nth (pre ++ y :: l) (length pre) y)
      by (rewrite nth_error_app2, Nat.sub_diag by lia; reflexivity).
    cbn [bind]. destruct (f y) as [b|e]; [|reflexivity]. cbn [bind].
    specialize (IH (pre ++ [y])). rewrite <- app_assoc in IH. cbn [app] in IH.
    rewrite length_app in IH. cbn [length] in IH. rewrite Nat.add_1_r in IH.
    now rewrite IH. }
  exact (G [] l).
Qed.

Lemma mapM_singletons {A B : Type} (f : A -> result B) (l : list A) :
  x <- mapM (fun a => y <- f a ;; Ok [y]) l ;; Ok (concat x) = mapM f l.
Proof.
  induction l as [|a l IH]; [reflexivity|]. cbn [mapM].
  rewrite <- IH. destruct (f a) as [y|e]; [|reflexivity]. cbn [bind].
  destruct (mapM (fun a0 => y0 <- f a0 ;; Ok [y0]) l) as [ys|e]; reflexivity.
Qed.

(** X12. With a single response the stereo writer of [export_easyeffects]
    produces what [write_wav] produces for that response: the same samples,
    or the same exception. *)
Theorem interleaved_mono (ir : list float) : interleaved [ir] = write_wav ir.
Proof.
  unfold interleaved, write_wav. cbn [mapM].
  destruct (max_list (map Float.abs ir)) as [m|e]; [|reflexivity]. cbn [bind max_list fold_left].
  destruct (div f0_95 (if is_zero m then f1 else m)) as [scale|e]; [|reflexivity]. cbn [bind].
  change (getitem [ir] 0) with (Ok ir). cbn [bind].
  rewrite <- (mapM_indices ir (quantize scale)).
  rewrite <- (mapM_singletons (fun i => s <- getitem ir i ;; quantize scale s)).
  reflexivity.
Qed.

Lemma concat_uniform_length {A : Type} (n : nat) (frames : list (list A)) :
  Forall (fun f => length f = n) frames -> length (concat frames) = (length frames * n)%nat.
Proof.
  induction 1 as [|f frames Hf _ IH]; [reflexivity|].
  simpl. rewrite length_app, IH, Hf. lia.
Qed.

Lemma concat_uniform_nth {A : Type} (n : nat) (frames : list (list A)) :
  Forall (fun f => length f = n) frames ->
  forall i f c, nth_error frames i = Some f -> (c < n)%nat ->
    nth_error (concat frames) (i * n + c) = nth_error f c.
Proof.
  induction 1 as [|g frames Hg _ IH]; intros [|i] f c; simpl; try discriminate.
  - intros [= <-] Hc. apply nth_error_app1. lia.
  - intros Hi Hc. rewrite nth_error_app2 by lia.
    replace (n + i * n + c - length g)%nat with (i * n + c)%nat by lia.
    now apply IH.
Qed.

Lemma getitem_nat {A : Type} (l : list A) (i : nat) (x : A) :
  getitem l (Z.of_nat i) = Ok x -> nth_error l i = Some x.
Proof.
  unfold getitem. destruct (Z.of_nat i <? 0) eqn:E; [apply Z.ltb_lt in E; lia|]. rewrite E.
  rewrite Nat2Z.id. destruct (nth_error l i); [now intros [= <-] | discriminate].
Qed.

(** X13. The layout of the frames. When the stereo writer returns, it has
    written one frame for each sample of the first response, and sample [i]
    of response [c], quantized with the common scale, stands at place
    [i * channels + c]. *)
Theorem interleaved_frames (irs : list (list float)) (out : list Z) :
  interleaved irs = Ok out ->
  length out = (length (hd [] irs) * length irs)%nat /\
  exists scale,
    forall i c ir, (i < length (hd [] irs))%nat -> nth_error irs c = Some ir ->
      exists s v, nth_error ir i = Some s /\ quantize scale s = Ok v /\
                  nth_error out (i * length irs + c) = Some v.
Proof.
  unfold interleaved.
  destruct (mapM (fun ir => max_list (map Float.abs ir)) irs) as [peaks|e]; cbn [bind];
    [|discriminate].
  destruct (max_list peaks) as [m|e]; cbn [bind]; [|discriminate].
  destruct (div f0_95 (if is_zero m then f1 else m)) as [scale|e]; cbn [bind]; [|discriminate].
  destruct (getitem irs 0) as [first|e] eqn:Hfirst; cbn [bind]; [|discriminate].
  apply (getitem_nat irs 0) in Hfirst.
  assert (Hhd : hd [] irs = first) by (destruct irs; [discriminate | simpl in *; congruence]).
  rewrite Hhd.
  destruct (mapM _ (range (length first))) as [frames|e] eqn:Hf; cbn [bind]; [|discriminate].
  intros [= <-].
  pose proof (mapM_length _ _ _ Hf) as Hlen. rewrite range_length in Hlen.
  apply mapM_ok in Hf.
  assert (Huni : Forall (fun f => length f = length irs) frames).
  { clear - Hf. induction Hf as [|i f idxs fs Hi _ IH]; constructor; [|exact IH].
    now apply mapM_length in Hi. }
  split; [rewrite (concat_uniform_length _ _ Huni); lia|].
  exists scale. intros i c ir Hi Hc.
  destruct (Forall2_nth_l _ _ _ Hf i _ (nth_error_range _ _ Hi)) as (frame & Hframe & Hrow).
  apply mapM_ok in Hrow.
  destruct (Forall2_nth_l _ _ _ Hrow c ir Hc) as (v & Hv & Hq).
  destruct (getitem ir (Z.of_nat i)) as [s|e] eqn:Hs; cbn [bind] in Hq; [|discriminate].
  exists s, v. split; [now apply getitem_nat|]. split; [exact Hq|].
  rewrite (concat_uniform_nth _ _ Huni i frame c Hframe); [exact Hv|].
  apply nth_error_Some. congruence.
Qed.

Lemma interleaved_frames_witness :
  exists out,
    interleaved [Samples.peak_two; Samples.peak_two] = Ok out /\ length out = 8%nat.
Proof.
  destruct (interleaved [Samples.peak_two; Samples.peak_two]) as [out|e] eqn:E;
    [|vm_compute in E; discriminate].
  exists out. split; [reflexivity|]. exact (proj1 (interleaved_frames _ out E)).
Defined.

End Interleaving.

Section BlockLayout.
Import Py Float Models Parser.

Lemma encode_point_len (p : list Z) : len (flat_map Spec.pack_I p) = 4 * len p.
Proof.
  induction p as [|w p IH]; [reflexivity|].
  cbn [flat_map]. rewrite len_app, pack_I_length, IH. unfold len. cbn [length]. lia.
Qed.

Lemma encode_points_len (n : Z) (points : list (list Z)) :
  Forall (Layout.point_ok n) points -> len (Layout.encode_points points) = len points * n * 4.
Proof.
  unfold Layout.encode_points. induction 1 as [|p points [Hp _] _ IH]; [reflexivity|].
  cbn [flat_map]. rewrite len_app, encode_point_len, IH, Hp. unfold len. cbn [length]. lia.
Qed.

(** Reading the 32-bit word that starts a part of the buffer. *)
Lemma unpack_word (pre rest : bytes) (w : Z) :
  0 <= w < 2 ^ 32 ->
  unpack_window (pre ++ Spec.pack_I w ++ rest) (len pre) = Ok (Spec.pack_I w).
Proof.
  intros Hw. pose proof (len_nonneg pre). pose proof (len_nonneg rest).
  rewrite unpack_window_ok; [| lia | rewrite !len_app, pack_I_length; lia].
  rewrite skipn_len_app. change 4%nat with (Z.to_nat (len (Spec.pack_I w))).
  now rewrite firstn_len_app.
Qed.

(** A point whose first two words are [w0] and [w1] is read as the two
    floats with these bit patterns. *)
Lemma parse_point_at (pre rest : bytes) (points : list (list Z)) (n : Z) (i : nat)
    (w0 w1 : Z) (p : list Z) :
  Forall (Layout.point_ok n) points ->
  nth_error points i = Some (w0 :: w1 :: p) ->
  parse_point (pre ++ Layout.encode_points points ++ rest) (len pre) n (Z.of_nat i)
    = Ok (of_bits32 w0, of_bits32 w1).
Proof.
  intros Hok Hi.
  destruct (nth_error_split _ _ Hi) as (l1 & l2 & -> & Hl1).
  apply Forall_app in Hok as [Hok1 Hok2].
  inversion Hok2 as [|? ? [_ Hw] _]; subst.
  inversion Hw as [|? ? Hw0 Hw']; subst. inversion Hw' as [|? ? Hw1 _]; subst.
  pose proof (encode_points_len n l1 Hok1) as Hlen1.
  unfold Layout.encode_points in *. rewrite flat_map_app. cbn [flat_map].
  set (e1 := flat_map (flat_map Spec.pack_I) l1) in *.
  set (tail := flat_map Spec.pack_I p ++ flat_map (flat_map Spec.pack_I) l2 ++ rest).
  assert (Hd1 : pre ++ (e1 ++ (Spec.pack_I w0 ++ Spec.pack_I w1 ++ flat_map Spec.pack_I p)
                           ++ flat_map (flat_map Spec.pack_I) l2) ++ rest
                = (pre ++ e1) ++ Spec.pack_I w0 ++ (Spec.pack_I w1 ++ tail)).
  { subst tail. now rewrite <- !app_assoc. }
  assert (Hd2 : pre ++ (e1 ++ (Spec.pack_I w0 ++ Spec.pack_I w1 ++ flat_map Spec.pack_I p)
                           ++ flat_map (flat_map Spec.pack_I) l2) ++ rest
                = (pre ++ e1 ++ Spec.pack_I w0) ++ Spec.pack_I w1 ++ tail).
  { subst tail. now rewrite <- !app_assoc. }
  assert (Ho1 : len pre + Z.of_nat (length l1) * n * 4 = len (pre ++ e1)).
  { rewrite len_app, Hlen1. unfold len. lia. }
  assert (Ho2 : len pre + Z.of_nat (length l1) * n * 4 + 4 = len (pre ++ e1 ++ Spec.pack_I w0)).
  { rewrite !len_app, Hlen1, pack_I_length. unfold len. lia. }
  unfold parse_point, unpack_from_f.
  rewrite Ho2, Ho1. rewrite Hd1 at 1. rewrite (unpack_word _ _ w0 Hw0). cbn [bind].
  rewrite Hd2. rewrite (unpack_word _ _ w1 Hw1). cbn [bind].
  now rewrite !le_uint_pack_I.
Qed.

Lemma mapM_range_nth {A B : Type} (l : list A) (f : Z -> result B) (g : A -> B) :
  (forall i x, nth_error l i = Some x -> f (Z.of_nat i) = Ok (g x)) ->
  mapM f (range (length l)) = Ok (map g l).
Proof.
  intros H. unfold range.
  assert (G : forall (l : list A) (s : nat),
             (forall i x, nth_error l i = Some x -> f (Z.of_nat (s + i)) = Ok (g x)) ->
             mapM f (map Z.of_nat (seq s (length l))) = Ok (map g l)).
  { clear. induction l as [|y l IH]; intros s H; [reflexivity|].
    cbn [length seq map mapM].
    rewrite <- (Nat.add_0_r s) at 1. rewrite (H 0%nat y eq_refl). cbn [bind].
    rewrite (IH (S s)); [reflexivity|].
    intros i x Hi. replace (S s + i)%nat with (s + S i)%nat by lia. now apply H. }
  apply G. exact H.
Qed.

(** X14. A well-formed block is read back as it was written. When the
    marker is followed by 355 points of two words (a correction block:
    frequency, gain) or of three words (a measurement block: frequency,
    level, one more word) and the block ends at the next boundary,
    [_parse_blocks] finds the number of words per point and returns the
    first two words of every point, as floats. *)
Theorem parse_block_layout (pre suf : bytes) (points : list (list Z)) (n : Z)
    (boundaries : list Z) :
  n = 2 \/ n = 3 ->
  length points = 355%nat ->
  Forall (Layout.point_ok n) points ->
  min_default
    (filter (fun b => b >? len pre + 8)
            (boundaries ++ [len (pre ++ DATA_HEADER ++ Layout.encode_points points ++ suf)]))
    (len (pre ++ DATA_HEADER ++ Layout.encode_points points ++ suf))
    = len pre + 8 + len (Layout.encode_points points) ->
  parse_block (pre ++ DATA_HEADER ++ Layout.encode_points points ++ suf) boundaries (len pre)
    = Ok {| fpp := n;
            freqs := map (fun p => of_bits32 (nth 0 p 0)) points;
            values := map (fun p => of_bits32 (nth 1 p 0)) points |}.
Proof.
  intros Hn Hlen Hok Hnext. unfold parse_block. rewrite Hnext.
  rewrite (encode_points_len n points Hok). unfold len at 2. rewrite Hlen.
  replace (len pre + 8 + Z.of_nat 355 * n * 4 - (len pre + 8)) with (Z.of_nat 355 * n * 4) by lia.
  assert (Hfpp : (q <- Float.int_truediv (Z.of_nat 355 * n * 4 / 4) POINTS_PER_CURVE ;;
                  Float.round q) = Ok n).
  { destruct Hn as [-> | ->]; vm_compute; reflexivity. }
  destruct (Float.int_truediv (Z.of_nat 355 * n * 4 / 4) POINTS_PER_CURVE) as [q|e];
    cbn [bind] in *; [|discriminate].
  rewrite Hfpp. cbn [bind].
  change (Z.to_nat POINTS_PER_CURVE) with 355%nat. rewrite <- Hlen.
  replace (pre ++ DATA_HEADER ++ Layout.encode_points points ++ suf)
    with ((pre ++ DATA_HEADER) ++ Layout.encode_points points ++ suf)
    by (now rewrite <- app_assoc).
  replace (len pre + 8) with (len (pre ++ DATA_HEADER)) by (rewrite len_app; reflexivity).
  rewrite (mapM_range_nth points _ (fun p => (of_bits32 (nth 0 p 0), of_bits32 (nth 1 p 0)))).
  - cbn [bind]. now rewrite !map_map.
  - intros i p Hi.
    assert (Hp : Layout.point_ok n p).
    { rewrite Forall_forall in Hok. apply Hok. eapply nth_error_In; exact Hi. }
    destruct p as [|w0 [|w1 p]];
      [destruct Hp as [Hp _]; unfold len in Hp; simpl in Hp; lia
      |destruct Hp as [Hp _]; unfold len in Hp; simpl in Hp; lia|].
    apply (parse_point_at _ _ points n i w0 w1 p); assumption.
Qed.

Lemma parse_block_layout_witness :
  parse_block (PROJECT_HEADER_END ++ DATA_HEADER ++ Layout.encode_points Examples.tone_points ++ [])
              [16] (len PROJECT_HEADER_END)
  = Ok {| fpp := 2;
          freqs := map (fun p => of_bits32 (nth 0 p 0)) Examples.tone_points;
          values := map (fun p => of_bits32 (nth 1 p 0)) Examples.tone_points |}.
Proof.
  apply (parse_block_layout PROJECT_HEADER_END [] Examples.tone_points 2 [16]).
  - now left.
  - reflexivity.
  - apply Forall_forall. intros p Hp. apply repeat_spec in Hp. subst p.
    split; [reflexivity|]. repeat constructor; cbn; lia.
  - vm_compute. reflexivity.
Defined.

End BlockLayout.

Section PolarityFacts.
Import Py Float Models Dsp.

Lemma mul_sign (x y : float) :
  is_nan (mul x y) = false ->
  is_nan x = false /\ is_nan y = false /\
  Sign.negative (mul x y) = xorb (Sign.negative x) (Sign.negative y).
Proof.
  destruct x as [sx|sx| |sx mx ex], y as [sy|sy| |sy my ey]; try discriminate;
    intros Hn; repeat split; try reflexivity.
  unfold mul, SFmul in *.
  pose proof (binary_round_aux_sign (xorb sx sy) (Z.pos (mx * my)) (ex + ey) loc_Exact) as Hs.
  destruct (binary_round_aux prec emax (xorb sx sy) (Z.pos (mx * my)) (ex + ey) loc_Exact);
    try discriminate; exact Hs.
Qed.

Lemma div_sign (x y : float) :
  is_nan (SFdiv prec emax x y) = false ->
  Sign.negative (SFdiv prec emax x y) = xorb (Sign.negative x) (Sign.negative y).
Proof.
  destruct x as [sx|sx| |sx mx ex], y as [sy|sy| |sy my ey]; try discriminate;
    intros Hn; try reflexivity.
  unfold SFdiv in *.
  destruct (SFdiv_core_binary prec emax (Z.pos mx) ex (Z.pos my) ey) as [[mz ez] lz].
  pose proof (binary_round_aux_sign (xorb sx sy) mz ez lz) as Hs.
  destruct (binary_round_aux prec emax (xorb sx sy) mz ez lz); try discriminate; exact Hs.
Qed.

Lemma to_int_sign (x : float) (t : Z) :
  to_int x = Ok t -> if Sign.negative x then t <= 0 else 0 <= t.
Proof.
  destruct x as [s|s| |s m e]; try discriminate; cbn [to_int Sign.negative].
  - intros [= <-]. destruct s; lia.
  - set (X := if 0 <=? e then Z.pos m * 2 ^ e else Z.pos m / 2 ^ (- e)).
    assert (HX : 0 <= X).
    { subst X. destruct (0 <=? e) eqn:E.
      - apply Z.leb_le in E. apply Z.mul_nonneg_nonneg; [lia | apply Z.pow_nonneg; lia].
      - apply Z.leb_gt in E. apply Z.div_pos; [lia | apply Z.pow_pos_nonneg; lia]. }
    clearbody X. intros [= <-]. destruct s; cbn [cond_Zopp]; lia.
Qed.

Lemma Ok_inj {A : Type} (a b : A) : Ok a = Ok b -> a = b.
Proof. now intros [= ->]. Qed.

Lemma abs_not_negative (x : float) : Sign.negative (Float.abs x) = false.
Proof. destruct x; reflexivity. Qed.

(** X15. Rendering keeps the polarity: when [write_wav] returns, a sample
    with the sign bit set is written as a number that is at most 0 and any
    other sample as a number that is at least 0. *)
Theorem write_wav_polarity (samples : list float) (out : list Z) :
  write_wav samples = Ok out ->
  Forall2 (fun s v => if Sign.negative s then v <= 0 else 0 <= v) samples out.
Proof.
  unfold write_wav.
  destruct (max_list (map Float.abs samples)) as [m|e] eqn:Hm; cbn [bind]; [|discriminate].
  assert (Hpeak : Sign.negative (if is_zero m then f1 else m) = false).
  { destruct (is_zero m); [reflexivity|].
    apply max_list_in, in_map_iff in Hm as (s & <- & _). apply abs_not_negative. }
  set (peak := if is_zero m then f1 else m) in *.
  destruct (div f0_95 peak) as [scale|e] eqn:Hd; cbn [bind]; [|discriminate].
  assert (Hscale : is_nan scale = false -> Sign.negative scale = false).
  { unfold div in Hd. destruct (is_zero peak); [discriminate|]. apply Ok_inj in Hd. subst scale.
    intros Hn. rewrite (div_sign _ _ Hn), Hpeak. reflexivity. }
  intros Hout. apply mapM_ok in Hout.
  eapply Forall2_impl; [|exact Hout]. intros s v Hq. cbv beta in Hq.
  unfold quantize in Hq.
  destruct (to_int (mul (mul s scale) (of_int 32767))) as [t|e] eqn:Ht; cbn [bind] in Hq;
    [|discriminate].
  apply Ok_inj in Hq. subst v.
  assert (Hn : is_nan (mul (mul s scale) (of_int 32767)) = false).
  { destruct (mul (mul s scale) (of_int 32767)); try reflexivity. discriminate Ht. }
  apply to_int_sign in Ht.
  destruct (mul_sign _ _ Hn) as (Hn1 & _ & Hs1). rewrite Hs1 in Ht.
  destruct (mul_sign _ _ Hn1) as (_ & Hn2 & Hs2). rewrite Hs2, (Hscale Hn2) in Ht.
  change (Sign.negative (of_int 32767)) with false in Ht.
  rewrite !xorb_false_r in Ht.
  destruct (Sign.negative s); lia.
Qed.

Lemma write_wav_polarity_witness :
  Forall2 (fun s v => if Sign.negative s then v <= 0 else 0 <= v)
          Samples.peak_two [7782; -31128; 15564; 31128].
Proof. exact (write_wav_polarity Samples.peak_two _ eq_refl). Defined.

(** X16. [write_wav] never divides by zero. What it raises is the
    [ValueError] of [max] on an empty list of samples, or what [int] raises
    on a scaled sample that is a NaN or an infinity. *)
Theorem write_wav_raises (samples : list float) (e : exn) :
  write_wav samples = Raise e ->
  (samples = [] /\ e = ValueError_empty_max) \/
  (samples <> [] /\ (e = ValueError_int_of_nan \/ e = OverflowError_int_of_infinity)).
Proof.
  unfold write_wav. destruct samples as [|s0 samples]; [intros [= <-]; now left|].
  right. split; [discriminate|]. revert H. cbn [map max_list bind].
  set (m := fold_left max2 _ _). unfold div.
  destruct (is_zero (if is_zero m then f1 else m)) eqn:Ez.
  { destruct (is_zero m) eqn:Em; [discriminate Ez | congruence]. }
  cbn [bind]. intros H. apply mapM_raise in H as (s & _ & Hs).
  unfold quantize in Hs.
  destruct (mul (mul s _) (of_int 32767)); cbn in Hs; try discriminate;
    injection Hs as <-; auto.
Qed.

Lemma write_wav_raises_witness :
  ([S754_infinity false] = [] /\ ValueError_int_of_nan = ValueError_empty_max) \/
  ([S754_infinity false] <> [] /\
   (ValueError_int_of_nan = ValueError_int_of_nan
    \/ ValueError_int_of_nan = OverflowError_int_of_infinity)).
Proof. exact (write_wav_raises [S754_infinity false] ValueError_int_of_nan eq_refl). Defined.

End PolarityFacts.

Section ScriptAndPackage.
Import Py Float Models Parser Dsp.

Lemma add_meta_step (data : bytes) (boundaries : list Z) (d : channel_dict)
    (i pos : Z) (meta : metadata) :
  _parse_metadata data pos boundaries = Ok meta ->
  add_channel data boundaries d (i, pos) = Script.add_meta d (i, meta).
Proof. intros H. unfold add_channel, Script.add_meta. rewrite H. reflexivity. Qed.

Lemma script_channels (data : bytes) (boundaries : list Z) (positions : list Z) :
  forall metas, mapM (fun dp => _parse_metadata data dp boundaries) positions = Ok metas ->
  forall d s,
    foldM Script.add_meta (combine (map Z.of_nat (seq s (length metas))) metas) d
    = add_channels data boundaries d
        (combine (map Z.of_nat (seq s (length positions))) positions).
Proof.
  induction positions as [|pos positions IH]; intros metas; cbn [mapM].
  - intros [= <-] d s. reflexivity.
  - destruct (_parse_metadata data pos boundaries) as [meta|e] eqn:Hm; cbn [bind]; [|discriminate].
    destruct (mapM _ positions) as [metas'|e] eqn:Hms; cbn [bind]; [|discriminate].
    intros [= <-] d s. cbn [length seq map combine foldM add_channels].
    rewrite (add_meta_step _ _ _ _ _ _ Hm).
    destruct (Script.add_meta d (Z.of_nat s, meta)) as [d'|e]; cbn [bind]; [|reflexivity].
    apply IH. reflexivity.
Qed.

(** X17. The parser of the package and the parser of the single-file
    script agree on every buffer that has a data block: with stereo not
    required the package returns the channels that the script returns, and
    they raise the same exceptions (each its own [ValueError] for a missing
    header). *)
Theorem script_matches_package (path : pystr) (data : bytes) :
  find_data_headers data <> [] ->
  Script.parse_swproj data =
  match parse_swproj path data false with
  | Ok p => Script.Returned (channels p)
  | Raise ValueError_no_project_header => Script.Raised_not_valid
  | Raise e => Script.Raised e
  end.
Proof.
  intros Hh. unfold Script.parse_swproj, parse_swproj.
  destruct (find data PROJECT_HEADER_END 0 (len data) =? -1); [reflexivity|].
  destruct (find_data_headers data) as [|h hs] eqn:Eh; [congruence|]. cbv zeta.
  set (delays := finditer_starts CHANNEL_DELAY_MS data).
  set (boundaries := sorted_by _ _).
  destruct (_parse_blocks data (h :: hs) boundaries) as [blocks|e] eqn:Hb; cbn [bind].
  - destruct (mapM_all_ok (fun dp => _parse_metadata data dp boundaries) delays) as [metas Hm].
    { apply Forall_forall. intros dp _. apply parse_metadata_returns. }
    rewrite Hm. cbn [bind].
    unfold enumerate, range.
    rewrite (script_channels data boundaries delays metas Hm [] 0%nat).
    destruct (add_channels data boundaries [] _) as [d|e] eqn:Hd; cbn [bind andb].
    + reflexivity.
    + (* the header exception is not one of the conversions *)
      assert (He : (exists s, e = ValueError_int s) \/ (exists s, e = ValueError_float s))
        by (eapply add_channels_raises; exact Hd).
      destruct He as [[s ->] | [s ->]]; reflexivity.
  - assert (He : exists header, parse_block data boundaries header = Raise e)
      by (apply mapM_raise in Hb as (header & _ & He); eauto).
    destruct He as [header He]. unfold Script.of_result.
    destruct e; try reflexivity.
    exfalso. revert He. unfold parse_block.
    destruct (int_truediv _ _) as [q|e1] eqn:E1; cbn [bind].
    + destruct (Float.round q) as [k|e2] eqn:E2; cbn [bind].
      * destruct (mapM _ _) as [pts|e3] eqn:E3; cbn [bind]; [discriminate|].
        intros [= ->]. apply mapM_raise in E3 as (i & _ & Hi).
        apply parse_point_raises in Hi. discriminate.
      * intros [= ->]. destruct q as [| | |sq mq eq]; simpl in E2; try discriminate.
        destruct (0 <=? eq); discriminate.
    + intros [= ->]. unfold int_truediv in E1.
      repeat match type of E1 with context [match ?x with _ => _ end] => destruct x end;
        discriminate.
Qed.

(** Requiring stereo adds a check and changes nothing else. *)
Lemma parse_stereo_relax (path : pystr) (data : bytes) (p : Profile) :
  parse_swproj path data true = Ok p ->
  parse_swproj path data false = Ok p /\ length (channels p) = 2%nat.
Proof.
  unfold parse_swproj.
  destruct (find data PROJECT_HEADER_END 0 (len data) =? -1); [discriminate|].
  destruct (find_data_headers data) as [|h hs]; [discriminate|].
  destruct (_parse_blocks _ _ _) as [blocks|e]; cbn [bind]; [|discriminate].
  destruct (add_channels _ _ _ _) as [d|e]; cbn [bind]; [|discriminate].
  cbn [andb]. destruct (len _ =? 2) eqn:E; cbn [negb]; [|discriminate].
  intros [= <-]. split; [reflexivity|]. apply Z.eqb_eq in E. cbn [channels] in *.
  unfold len in E. lia.
Qed.

Lemma script_matches_package_witness :
  Script.parse_swproj Samples.stereo_one_block
    = Script.Returned Samples.stereo_one_block_channels.
Proof.
  rewrite (script_matches_package (str "one.swproj") Samples.stereo_one_block)
    by (vm_compute; discriminate).
  now rewrite (proj1 (parse_stereo_relax _ _ _ parse_stereo_one_block)).
Defined.

Lemma gtb_zero (m : float) : is_nan m = false -> gtb m f0 = negb (leb m f0).
Proof. destruct m as [[]|[]| |[] ? ?]; try discriminate; reflexivity. Qed.

(** X18. The preamp of the script and the preamp of the package. For a
    non-empty collection of channels whose greatest gain is not a NaN the
    inline policy of the script's exporters gives the number that
    [compute_preamp_db] gives with its default headroom (the script's
    integer 0 standing for 0.0), or fails as it fails; for no channel at
    all the script raises [ValueError] where the package returns 0.0. *)
Theorem script_preamp_matches (channels : list ChannelData) :
  (channels <> [] ->
   Spec.no_nan (Spec.all_gains channels) ->
   match Script.preamp_dB channels, compute_preamp_db channels default_headroom_db with
   | Ok v, Ok r => Script.to_float v = r
   | Raise e, Raise e' => e = e'
   | _, _ => False
   end) /\
  Script.preamp_dB [] = Raise ValueError_empty_max /\
  compute_preamp_db [] default_headroom_db = Ok f0.
Proof.
  split; [|split; reflexivity].
  intros Hne Hnan. unfold Script.preamp_dB, compute_preamp_db.
  destruct channels as [|c cs]; [congruence|].
  destruct (mapM (fun ch => max_list (correction_dB ch)) (c :: cs)) as [gains|e] eqn:Hg;
    cbn [bind]; [|reflexivity].
  destruct (max_list gains) as [m|e] eqn:Hm; cbn [bind]; [|reflexivity].
  assert (Hmn : is_nan m = false).
  { apply max_list_in in Hm. apply mapM_ok in Hg.
    unfold Spec.no_nan in Hnan. rewrite Forall_forall in Hnan. apply Hnan.
    unfold Spec.all_gains. apply in_flat_map.
    clear - Hg Hm. induction Hg as [|ch g chs gs Hch _ IH]; [contradiction|].
    destruct Hm as [<- | Hm].
    - exists ch. split; [now left | now apply max_list_in].
    - destruct (IH Hm) as (ch' & Hin & Hg'). exists ch'. split; [now right | exact Hg']. }
  rewrite (gtb_zero m Hmn). destruct (leb m f0); reflexivity.
Qed.

Lemma script_preamp_matches_witness :
  match Script.preamp_dB Samples.positive_gains with
  | Ok v => Script.to_float v = Prim2SF (-4.0)
  | Raise _ => False
  end.
Proof.
  exact (proj1 (script_preamp_matches Samples.positive_gains)
           ltac:(discriminate) ltac:(repeat constructor)).
Defined.

End ScriptAndPackage.

Section Summary.
Import Py Float Models Parser Dsp Pipeline.

Lemma summary_curve (ch : ChannelData) :
  length (frequencies ch) = 355%nat -> length (correction_dB ch) = 355%nat ->
  exists row, summary ch = Ok row.
Proof.
  intros Hf Hc. unfold summary.
  destruct (frequencies ch) as [|f fs] eqn:Ef; [discriminate|].
  change (getitem (f :: fs) 0) with (Ok f). cbn [bind].
  destruct (nth_error (f :: fs) (length (f :: fs) - 1)) as [fl|] eqn:El;
    [|apply nth_error_None in El; simpl in El; lia].
  rewrite (getitem_last _ _ El). cbn [bind].
  destruct (correction_dB ch) as [|g gs]; [discriminate|]. cbn. eauto.
Qed.

Lemma summary_no_curve (ch : ChannelData) :
  frequencies ch = [] -> summary ch = Raise IndexError.
Proof. intros H. unfold summary. rewrite H. reflexivity. Qed.

(** X19. A stereo file that parses can still not be exported when it has
    fewer than three data blocks: the second channel is left without a
    curve (its correction block would be the third block) and the summary of
    [run_export] raises [IndexError] on [ch.frequencies[0]].  With three
    blocks or more the summary has a row for each of the two channels. *)
Theorem run_export_needs_three_blocks (filepath : pystr) (data : bytes) (p : Profile) :
  parse_swproj filepath data true = Ok p ->
  ((length (find_data_headers data) < 3)%nat ->
   run_export_summary filepath data = Raise IndexError) /\
  ((3 <= length (find_data_headers data))%nat ->
   exists row0 row1, run_export_summary filepath data = Ok [row0; row1]).
Proof.
  intros Hp. unfold run_export_summary. rewrite Hp. cbn [bind].
  destruct (parse_stereo_relax _ _ _ Hp) as [_ Hlen].
  destruct (parse_swproj_ok _ _ _ _ Hp) as (blocks0 & d & Hne & Hb0 & _ & _).
  destruct (parsed_channels_assigned _ _ _ _ Hp) as (blocks & Hb & Hch).
  pose proof (mapM_length _ _ _ Hb) as Hbl.
  pose proof (parse_blocks_shape _ _ _ _ Hb) as Hshape. rewrite Forall_forall in Hshape.
  destruct (channels p) as [|c0 [|c1 [|c2 cs]]]; try discriminate Hlen.
  destruct (Hch 0%nat c0 eq_refl) as (a0 & Hf0 & Hc0 & Hm0 & ->).
  destruct (Hch 1%nat c1 eq_refl) as (a1 & Hf1 & Hc1 & Hm1 & ->).
  destruct (assign_blocks_fresh blocks 0 a0 Hf0 Hc0 Hm0) as [H0 _].
  destruct (assign_blocks_fresh blocks 1 a1 Hf1 Hc1 Hm1) as [H1 _].
  cbv zeta in H0, H1. clear Hf0 Hc0 Hm0 Hf1 Hc1 Hm1.
  set (c0 := assign_blocks blocks (Z.of_nat 0, a0)) in *.
  set (c1 := assign_blocks blocks (Z.of_nat 1, a1)) in *.
  clearbody c0 c1.
  cbn [Nat.mul Nat.add] in H0, H1.
  assert (Hpos : (1 <= length blocks)%nat).
  { rewrite Hbl. destruct (find_data_headers data); [congruence | simpl; lia]. }
  destruct (nth_error blocks 0) as [b0|] eqn:N0; [|apply nth_error_None in N0; lia].
  destruct H0 as [Hf0 Hc0].
  destruct (Hshape b0 (nth_error_In _ _ N0)) as [Hs0 Hs0'].
  destruct (summary_curve c0) as [row0 Hr0]; [congruence | congruence|].
  cbn [mapM]. rewrite Hr0. cbn [bind].
  split.
  - intros Hlt. destruct (nth_error blocks 2) as [b2|] eqn:N2.
    + assert (2 < length blocks)%nat by (apply nth_error_Some; congruence). lia.
    + destruct H1 as [Hf1 _]. now rewrite (summary_no_curve c1 Hf1).
  - intros Hge. destruct (nth_error blocks 2) as [b2|] eqn:N2;
      [|apply nth_error_None in N2; lia].
    destruct H1 as [Hf1 Hc1].
    destruct (Hshape b2 (nth_error_In _ _ N2)) as [Hs2 Hs2'].
    destruct (summary_curve c1) as [row1 Hr1]; [congruence | congruence|].
    rewrite Hr1. cbn [bind]. eauto.
Qed.

Lemma run_export_needs_three_blocks_witness :
  run_export_summary (str "one.swproj") Samples.stereo_one_block = Raise IndexError.
Proof.
  apply (proj1 (run_export_needs_three_blocks _ _ _ parse_stereo_one_block)).
  apply Nat.ltb_lt. vm_compute. reflexivity.
Defined.

End Summary.

(** * The text exporters *)

Section Tables.
Import Py Float Models Dsp.

Lemma getitem_raises {A : Type} (l : list A) (i : nat) (e : exn) :
  getitem l (Z.of_nat i) = Raise e -> e = IndexError /\ (length l <= i)%nat.
Proof.
  unfold getitem. destruct (Z.of_nat i <? 0) eqn:E; [apply Z.ltb_lt in E; lia|]. rewrite E.
  rewrite Nat2Z.id. destruct (nth_error l i) eqn:N; [discriminate|].
  intros [= <-]. split; [reflexivity | now apply nth_error_None].
Qed.

(** X20. The table of [export_csv] has one row for each frequency of the
    first channel, with that frequency and the correction of every channel
    at the same index.  A channel with fewer corrections than the first
    channel has frequencies makes it raise [IndexError], and so does an
    empty list of channels; nothing else makes it fail. *)
Theorem export_csv_table (channels : list ChannelData) :
  match Csv.export_csv channels with
  | Ok rows =>
      exists first, nth_error channels 0 = Some first /\
        length rows = length (frequencies first) /\
        forall i f row, nth_error rows i = Some (f, row) ->
          nth_error (frequencies first) i = Some f /\
          Forall2 (fun ch c => nth_error (correction_dB ch) i = Some c) channels row
  | Raise e =>
      e = IndexError /\
      (channels = [] \/
       exists first ch, nth_error channels 0 = Some first /\ In ch channels /\
         (length (correction_dB ch) < length (frequencies first))%nat)
  end.
Proof.
  unfold Csv.export_csv.
  destruct channels as [|first chs]; [split; [reflexivity | now left]|].
  change (getitem (first :: chs) 0) with (Ok first). cbn [bind].
  set (channels := first :: chs).
  destruct (mapM _ (range (length (frequencies first)))) as [rows|e] eqn:Hrows.
  - exists first. split; [reflexivity|].
    pose proof (mapM_length _ _ _ Hrows) as Hlen. rewrite range_length in Hlen.
    split; [exact Hlen|]. intros i f row Hi.
    assert (Hlt : (i < length (frequencies first))%nat).
    { rewrite <- Hlen. apply nth_error_Some. congruence. }
    apply mapM_ok in Hrows.
    destruct (Forall2_nth_l _ _ _ Hrows i _ (nth_error_range _ _ Hlt)) as (r & Hr & Hbody).
    rewrite Hi in Hr. injection Hr as <-.
    destruct (getitem (frequencies first) (Z.of_nat i)) as [f'|e] eqn:Hf; cbn [bind] in Hbody;
      [|discriminate].
    destruct (mapM _ channels) as [row'|e] eqn:Hrow; cbn [bind] in Hbody; [|discriminate].
    injection Hbody as <- <-. split; [now apply getitem_nat|].
    apply mapM_ok in Hrow. eapply Forall2_impl; [|exact Hrow].
    intros ch c Hc. now apply getitem_nat.
  - apply mapM_raise in Hrows as (i & Hi & Hbody).
    destruct (getitem_range _ _ Hi) as (f & Hf & _). rewrite Hf in Hbody. cbn [bind] in Hbody.
    unfold range in Hi. apply in_map_iff in Hi as (n & <- & Hn). apply in_seq in Hn.
    destruct (mapM _ channels) as [row|e'] eqn:Hrow; cbn [bind] in Hbody; [discriminate|].
    injection Hbody as ->.
    apply mapM_raise in Hrow as (ch & Hch & Hget).
    apply getitem_raises in Hget as [-> Hshort].
    split; [reflexivity|]. right. exists first, ch.
    split; [reflexivity|]. split; [exact Hch | lia].
Qed.

Lemma add_nan (x h : float) : is_nan x = true -> is_nan (add x h) = true.
Proof. destruct x; try discriminate. intros _. destruct h; reflexivity. Qed.

Lemma neg_nan (x : float) : is_nan (neg x) = is_nan x.
Proof. destruct x; reflexivity. Qed.

(** X21. [export_eqapo] cuts each curve to the shorter of its two lists
    and never raises [IndexError]: it fails only with the [ValueError] of
    [max] on a channel without corrections.  A [Preamp] line carries a
    negative gain, and there is one only when some correction is greater
    than 0. *)
Theorem export_eqapo_outcomes (channels : list ChannelData) :
  match Eqapo.export_eqapo channels with
  | Ok out =>
      length out = length channels /\
      forall i ch entry, nth_error channels i = Some ch -> nth_error out i = Some entry ->
        length (snd entry)
          = Nat.min (length (frequencies ch)) (length (correction_dB ch)) /\
        forall p, fst entry = Some p ->
          ltb p f0 = true /\
          exists g, In g (Spec.all_gains channels) /\ ltb f0 g = true
  | Raise e =>
      e = ValueError_empty_max /\ Exists (fun ch => correction_dB ch = []) channels
  end.
Proof.
  unfold Eqapo.export_eqapo.
  destruct (compute_preamp_db channels default_headroom_db) as [preamp|e] eqn:Hp; cbn [bind].
  - split; [apply length_map|]. intros i ch entry Hch Hentry.
    rewrite nth_error_map, Hch in Hentry. injection Hentry as <-. cbn [fst snd].
    split; [apply length_combine|]. intros p Hsome.
    destruct (ltb preamp f0) eqn:Hlt; [|discriminate]. injection Hsome as <-.
    split; [exact Hlt|].
    unfold compute_preamp_db in Hp. destruct channels as [|c cs]; [destruct i; discriminate Hch|].
    destruct (mapM (fun ch => max_list (correction_dB ch)) (c :: cs)) as [gains|e] eqn:Hg;
      cbn [bind] in Hp; [|discriminate].
    destruct (max_list gains) as [m|e] eqn:Hm; cbn [bind] in Hp; [|discriminate].
    destruct (leb m f0) eqn:Hle.
    + injection Hp as <-. discriminate Hlt.
    + injection Hp as <-.
      assert (Hnan : is_nan m = false).
      { destruct (is_nan m) eqn:E; [|reflexivity].
        apply ltb_not_nan in Hlt as [Hlt _].
        rewrite neg_nan, (add_nan m default_headroom_db E) in Hlt. discriminate. }
      exists m. split.
      * apply max_list_in in Hm. apply mapM_ok in Hg.
        unfold Spec.all_gains. apply in_flat_map.
        clear - Hg Hm. induction Hg as [|ch' g chs gs Hch' _ IH]; [contradiction|].
        destruct Hm as [<- | Hm].
        -- exists ch'. split; [now left | now apply max_list_in].
        -- destruct (IH Hm) as (ch'' & Hin & Hg'). exists ch''. split; [now right | exact Hg'].
      * pose proof (gtb_zero m Hnan) as Hgt. rewrite Hle in Hgt. exact Hgt.
  - unfold compute_preamp_db in Hp. destruct channels as [|c cs]; [discriminate|].
    destruct (mapM (fun ch => max_list (correction_dB ch)) (c :: cs)) as [gains|e'] eqn:Hg;
      cbn [bind] in Hp.
    + destruct gains as [|g gains]; [apply mapM_length in Hg; discriminate|].
      cbn in Hp. destruct (leb _ f0); discriminate.
    + injection Hp as ->. apply mapM_raise in Hg as (ch & Hin & Hmax).
      destruct (correction_dB ch) eqn:Hc; [|discriminate].
      injection Hmax as <-. split; [reflexivity|].
      apply Exists_exists. exists ch. split; assumption.
Qed.

End Tables.

(** * The two synthesis paths *)

Section Paths.
Import Py Float Models Dsp.

(** C2. The two paths do not agree, by a slip of the reference: its last
    transform (dsp.py:95) adds [im * sin(angle)] where the inverse transform
    of section 4.3, step 9, and of the numpy path ([np.fft.ifft],
    dsp.py:130) subtracts it, so the reference returns the response reversed
    in time.  For the shelf (0 dB up to 1 kHz, 6 dB from 10 kHz) at 48 kHz
    and four samples, the responses are more than 0.67 apart at samples 1
    and 3, and sample 1 of either is sample 3 of the other to within
    1e-12. *)
Theorem reference_ir_reversed :
  freq_response_to_ir Samples.libm_synthesis Samples.shelf_grid Samples.shelf_gains 48000 4
    = Ok Samples.shelf_reference_ir /\
  freq_response_to_ir_fast Samples.libm_synthesis (Some (Spec.numpy_path Samples.libm_synthesis))
                           Samples.shelf_grid Samples.shelf_gains 48000 4
    = Ok Samples.shelf_numpy_ir /\
  ~ Spec.agree_within (Prim2SF 1e-6) Samples.shelf_reference_ir Samples.shelf_numpy_ir /\
  (forall i r n, (i = 1 \/ i = 3)%nat ->
     nth_error Samples.shelf_reference_ir i = Some r ->
     nth_error Samples.shelf_numpy_ir i = Some n ->
     Spec.within (Prim2SF 0.67) r n = false) /\
  (forall i r n, (i < 4)%nat ->
     nth_error Samples.shelf_reference_ir i = Some r ->
     nth_error Samples.shelf_numpy_ir ((4 - i) mod 4) = Some n ->
     Spec.within (Prim2SF 1e-12) r n = true).
Proof.
  split; [vm_compute; reflexivity|]. split; [vm_compute; reflexivity|].
  split; [|split].
  - intros H. inversion H as [|? ? ? ? _ H1]; subst.
    inversion H1 as [|? ? ? ? H2 _]; subst. vm_compute in H2. discriminate H2.
  - intros i r n [-> | ->] Hr Hn; injection Hr as <-; injection Hn as <-;
      vm_compute; reflexivity.
  - intros i r n Hi Hr Hn.
    destruct i as [|[|[|[|i]]]]; try lia; injection Hr as <-; injection Hn as <-;
      vm_compute; reflexivity.
Qed.

End Paths.

(** * The impulse response of a flat curve *)

Section ExactRounding.
Import Py Float Models Dsp.

(** [iter_pos] is iteration. *)
Lemma iter_pos_nat {A : Type} (f : A -> A) (p : positive) (x : A) :
  iter_pos f p x = Nat.iter (Pos.to_nat p) f x.
Proof.
  revert x. induction p as [p IH|p IH|]; intros x; cbn [iter_pos].
  - rewrite !IH. rewrite Pos2Nat.inj_xI.
    replace (S (2 * Pos.to_nat p)) with (Pos.to_nat p + (Pos.to_nat p + 1))%nat by lia.
    rewrite !Nat.iter_add. reflexivity.
  - rewrite !IH. rewrite Pos2Nat.inj_xO.
    replace (2 * Pos.to_nat p)%nat with (Pos.to_nat p + Pos.to_nat p)%nat by lia.
    rewrite Nat.iter_add. reflexivity.
  - reflexivity.
Qed.

(** Shifting out zero bits loses nothing. *)
Lemma shr_1_even (m : Z) :
  0 < m -> m mod 2 = 0 ->
  shr_1 {| shr_m := m; shr_r := false; shr_s := false |}
    = {| shr_m := m / 2; shr_r := false; shr_s := false |}.
Proof.
  intros Hm He. destruct m as [|p|p]; try lia.
  destruct p as [p|p|].
  - rewrite Pos2Z.inj_xI in He. rewrite Z.add_comm, Z.mul_comm, Z.mod_add in He by lia. discriminate.
  - cbn [shr_1 orb]. f_equal. rewrite Pos2Z.inj_xO, Z.mul_comm, Z.div_mul by lia. reflexivity.
  - discriminate.
Qed.

Lemma shr_exact (k : nat) (m : Z) :
  0 < m -> m mod 2 ^ Z.of_nat k = 0 ->
  Nat.iter k shr_1 {| shr_m := m; shr_r := false; shr_s := false |}
    = {| shr_m := m / 2 ^ Z.of_nat k; shr_r := false; shr_s := false |}.
Proof.
  revert m. induction k as [|k IH]; intros m Hm Hmod.
  - simpl. now rewrite Z.div_1_r.
  - rewrite Nat2Z.inj_succ, Z.pow_succ_r in * by lia.
    assert (H2k : 0 < 2 ^ Z.of_nat k) by (apply Z.pow_pos_nonneg; lia).
    apply Z.mod_divide in Hmod; [|lia]. destruct Hmod as [q Hq].
    assert (Hq0 : 0 < q) by nia.
    rewrite Nat.iter_succ_r.
    rewrite shr_1_even; [|exact Hm|].
    + replace (m / 2) with (q * 2 ^ Z.of_nat k).
      * rewrite IH; [|nia|now rewrite Z.mod_mul by lia].
        f_equal. rewrite Z.div_mul by lia.
        subst m. now rewrite Z.div_mul by lia.
      * subst m. replace (q * (2 * 2 ^ Z.of_nat k)) with ((q * 2 ^ Z.of_nat k) * 2) by lia.
        now rewrite Z.div_mul by lia.
    + subst m. replace (q * (2 * 2 ^ Z.of_nat k)) with ((q * 2 ^ Z.of_nat k) * 2) by lia.
      now rewrite Z.mod_mul by lia.
Qed.

(** The number of digits of a number between two powers of two. *)
Lemma Zdigits2_unique (m d : Z) :
  0 < d -> 2 ^ (d - 1) <= m < 2 ^ d -> Zdigits2 m = d.
Proof.
  intros Hd [Hlo Hhi].
  assert (Hm : 0 < m) by (pose proof (Z.pow_pos_nonneg 2 (d - 1) ltac:(lia) ltac:(lia)); lia).
  destruct (Zdigits2_bounds m ltac:(lia)) as (H0 & Hlt & Hmin).
  assert (Hle : Zdigits2 m <= d) by (apply Hmin; lia).
  destruct (Z_le_gt_dec d (Zdigits2 m)) as [H|H]; [lia|exfalso].
  assert (2 ^ Zdigits2 m <= 2 ^ (d - 1)) by (apply Z.pow_le_mono_r; lia). lia.
Qed.

Lemma Zdigits2_lower (m : Z) : 0 < m -> 2 ^ (Zdigits2 m - 1) <= m.
Proof.
  intros Hm. destruct (Zdigits2_bounds m ltac:(lia)) as (H0 & Hlt & Hmin).
  destruct (Z_le_gt_dec (2 ^ (Zdigits2 m - 1)) m) as [H|H]; [exact H|exfalso].
  assert (Hd : 0 < Zdigits2 m).
  { destruct m; try lia. simpl. lia. }
  specialize (Hmin (Zdigits2 m - 1) ltac:(lia) ltac:(lia)). lia.
Qed.

Lemma fexp_val (e : Z) : fexp prec emax e = Z.max (e - 53) (-1074).
Proof. reflexivity. Qed.

(** A mantissa of [53 + k] digits whose last [k] bits are zero is rounded
    to itself, shifted. *)
Lemma binary_round_aux_exact (s : bool) (m : positive) (e k : Z) :
  0 <= k -> Zdigits2 (Z.pos m) = 53 + k -> Z.pos m mod 2 ^ k = 0 ->
  -1074 <= e + k <= 971 ->
  binary_round_aux prec emax s (Z.pos m) e loc_Exact
    = S754_finite s (Z.to_pos (Z.pos m / 2 ^ k)) (e + k).
Proof.
  intros Hk Hd Hmod He.
  assert (H2k : 0 < 2 ^ k) by (apply Z.pow_pos_nonneg; lia).
  set (q := Z.pos m / 2 ^ k).
  assert (Hmq : Z.pos m = q * 2 ^ k).
  { apply Z.mod_divide in Hmod; [|lia]. destruct Hmod as [q' Hq'].
    subst q. rewrite Hq', Z.div_mul by lia. reflexivity. }
  assert (Hq : 0 < q) by nia.
  assert (Hdq : Zdigits2 q = 53).
  { apply Zdigits2_unique; [lia|].
    pose proof (Zdigits2_lower (Z.pos m) ltac:(lia)) as Hlo.
    destruct (Zdigits2_bounds (Z.pos m) ltac:(lia)) as (_ & Hhi & _).
    rewrite Hd in Hlo, Hhi. rewrite Hmq in Hlo, Hhi.
    replace (53 + k - 1) with (52 + k) in Hlo by lia.
    rewrite Z.pow_add_r in Hlo, Hhi by lia.
    change (53 - 1) with 52. split; nia. }
  unfold binary_round_aux, shr_fexp. rewrite Hd.
  unfold fexp, FloatOps.emin, emin. change prec with 53. change emax with 1024.
  replace (Z.max (53 + k + e - 53) (3 - 1024 - 53) - e) with k by lia.
  assert (Hshr : shr (shr_record_of_loc (Z.pos m) loc_Exact) e k
                 = ({| shr_m := q; shr_r := false; shr_s := false |}, e + k)).
  { unfold shr. cbn [shr_record_of_loc]. destruct k as [|pk|pk]; [| |lia].
    - rewrite Z.add_0_r. subst q. now rewrite Z.pow_0_r, Z.div_1_r.
    - rewrite iter_pos_nat. rewrite shr_exact; [|lia|now rewrite positive_nat_Z].
      rewrite positive_nat_Z. reflexivity. }
  rewrite Hshr. cbn [shr_m loc_of_shr_record round_nearest_even].
  rewrite Hdq.
  replace (Z.max (53 + (e + k) - 53) (3 - 1024 - 53) - (e + k)) with 0 by lia.
  cbn [shr shr_record_of_loc shr_m].
  destruct q as [|pq|pq]; try lia.
  replace (e + k <=? 1024 - 53) with true by (symmetry; apply Z.leb_le; lia).
  reflexivity.
Qed.

(** [Pos.iter xO] is a shift to the left. *)
Lemma iter_xO (m k : positive) : Z.pos (Pos.iter xO m k) = Z.pos m * 2 ^ Z.pos k.
Proof.
  revert m. induction k as [|k IH] using Pos.peano_ind; intros m.
  - cbn [Pos.iter]. rewrite Pos2Z.inj_xO. change (2 ^ 1) with 2. lia.
  - rewrite Pos.iter_succ, Pos2Z.inj_xO, IH, Pos2Z.inj_succ, Z.pow_succ_r by lia. lia.
Qed.

Lemma digits_range (j : Z) : 0 < j < 2 ^ 53 -> 1 <= Zdigits2 j <= 53.
Proof.
  intros Hj. destruct (Zdigits2_bounds j ltac:(lia)) as (H0 & _ & Hmin).
  split; [|apply Hmin; lia]. destruct j; try lia. simpl. lia.
Qed.

Lemma canon_digits (j : Z) :
  0 < j < 2 ^ 53 -> Zdigits2 (j * 2 ^ (53 - Zdigits2 j)) = 53.
Proof.
  intros Hj. pose proof (digits_range j Hj) as Hd.
  apply Zdigits2_unique; [lia|].
  pose proof (Zdigits2_lower j ltac:(lia)) as Hlo.
  destruct (Zdigits2_bounds j ltac:(lia)) as (_ & Hhi & _).
  set (d := Zdigits2 j) in *.
  assert (H2 : 0 < 2 ^ (53 - d)) by (apply Z.pow_pos_nonneg; lia).
  replace (2 ^ (53 - 1)) with (2 ^ (d - 1) * 2 ^ (53 - d))
    by (rewrite <- Z.pow_add_r by lia; f_equal; lia).
  replace (2 ^ 53) with (2 ^ d * 2 ^ (53 - d))
    by (rewrite <- Z.pow_add_r by lia; f_equal; lia).
  split; nia.
Qed.

Lemma of_int_canon (j : Z) : 0 < j < 2 ^ 53 -> of_int j = Spec.canon j.
Proof.
  intros Hj. pose proof (digits_range j Hj) as Hd.
  pose proof (canon_digits j Hj) as Hc.
  unfold of_int, Spec.canon. destruct j as [|p|p]; try lia.
  cbn [binary_normalize]. unfold binary_round.
  change (Z.pos (digits2_pos p)) with (Zdigits2 (Z.pos p)).
  set (d := Zdigits2 (Z.pos p)) in *.
  rewrite fexp_val.
  replace (Z.max (d + 0 - 53) (-1074)) with (d - 53) by lia.
  unfold shl_align. rewrite Z.sub_0_r.
  assert (H2 : 0 < 2 ^ (53 - d)) by (apply Z.pow_pos_nonneg; lia).
  destruct (d - 53) as [|q|q] eqn:E; try lia.
  - (* 53 digits already *)
    assert (Hd0 : 53 - d = 0) by lia. rewrite Hd0, Z.pow_0_r, Z.mul_1_r in *.
    rewrite (binary_round_aux_exact false p 0 0); [|lia|rewrite Hc; lia|now rewrite Z.mod_1_r|lia].
    rewrite Z.pow_0_r, Z.div_1_r. reflexivity.
  - assert (Hq : Z.pos q = 53 - d) by lia.
    assert (Hm : Z.pos (Pos.iter xO p q) = Z.pos p * 2 ^ (53 - d)) by (rewrite iter_xO, Hq; reflexivity).
    rewrite (binary_round_aux_exact false _ (Z.neg q) 0);
      [|lia|rewrite Hm, Hc; lia|now rewrite Z.mod_1_r|lia].
    rewrite Z.pow_0_r, Z.div_1_r, Z.add_0_r, Hm. reflexivity.
Qed.

Lemma f1_canon : f1 = Spec.canon 1.
Proof. reflexivity. Qed.

(** Counting: adding 1.0 to the float of [j] gives the float of [j + 1],
    without rounding, below 2^53. *)
Lemma add_one (j : Z) : 0 < j -> j + 1 < 2 ^ 53 -> add (Spec.canon j) f1 = Spec.canon (j + 1).
Proof.
  intros Hj Hj1.
  pose proof (digits_range j ltac:(lia)) as Hd.
  pose proof (digits_range (j + 1) ltac:(lia)) as Hd'.
  pose proof (canon_digits j ltac:(lia)) as Hc.
  pose proof (canon_digits (j + 1) ltac:(lia)) as Hc'.
  unfold Spec.canon at 1. change f1 with (S754_finite false 4503599627370496 (-52)).
  set (d := Zdigits2 j) in *. set (d' := Zdigits2 (j + 1)) in *.
  assert (H2 : 0 < 2 ^ (53 - d)) by (apply Z.pow_pos_nonneg; lia).
  assert (H2' : 0 < 2 ^ (53 - d')) by (apply Z.pow_pos_nonneg; lia).
  assert (H2'' : 0 < 2 ^ (d' - 1)) by (apply Z.pow_pos_nonneg; lia).
  unfold add, SFadd. cbv zeta.
  replace (Z.min (d - 53) (-52)) with (-52) by lia.
  unfold shl_align. change (-52 - -52) with 0. cbn [fst cond_Zopp].
  assert (Hfirst : Z.pos (fst (match -52 - (d - 53) with
                               | Z.neg p => (Pos.iter xO (Z.to_pos (j * 2 ^ (53 - d))) p, -52)
                               | _ => (Z.to_pos (j * 2 ^ (53 - d)), d - 53)
                               end)) = j * 2 ^ 52).
  { destruct (-52 - (d - 53)) as [|q|q] eqn:E; try lia; cbn [fst].
    - replace d with 1 in * by lia. rewrite Z2Pos.id by nia. reflexivity.
    - rewrite iter_xO, Z2Pos.id by nia.
      replace (Z.pos q) with (d - 1) by lia. rewrite <- Z.mul_assoc, <- Z.pow_add_r by lia.
      do 2 f_equal. lia. }
  rewrite Hfirst.
  change (Z.pos 4503599627370496) with (2 ^ 52).
  replace (j * 2 ^ 52 + 2 ^ 52) with ((j + 1) * 2 ^ 52) by lia.
  assert (Hpos : 0 < (j + 1) * 2 ^ 52) by lia.
  destruct ((j + 1) * 2 ^ 52) as [|p|p] eqn:Ep; try lia.
  cbn [binary_normalize]. unfold binary_round.
  change (Z.pos (digits2_pos p)) with (Zdigits2 (Z.pos p)).
  assert (Hdp : Zdigits2 (Z.pos p) = 53 + (d' - 1)).
  { rewrite <- Ep. apply Zdigits2_unique; [lia|].
    pose proof (Zdigits2_lower (j + 1) ltac:(lia)) as Hlo.
    destruct (Zdigits2_bounds (j + 1) ltac:(lia)) as (_ & Hhi & _).
    fold d' in Hlo, Hhi.
    replace (53 + (d' - 1) - 1) with ((d' - 1) + 52) by lia.
    replace (53 + (d' - 1)) with (d' + 52) by lia.
    rewrite !Z.pow_add_r by lia. split; nia. }
  rewrite Hdp.
  rewrite fexp_val.
  replace (Z.max (53 + (d' - 1) + -52 - 53) (-1074)) with (d' - 53) by lia.
  unfold shl_align.
  destruct (d' - 53 - -52) as [|q|q] eqn:E; try lia.
  - rewrite (binary_round_aux_exact false p (-52) (d' - 1)); [|lia|exact Hdp| |lia].
    + unfold Spec.canon. fold d'. f_equal; [|lia]. f_equal. rewrite <- Ep.
      replace d' with 1 by lia. change (2 ^ (1 - 1)) with 1. rewrite Z.div_1_r. reflexivity.
    + replace d' with 1 by lia. apply Z.mod_1_r.
  - rewrite (binary_round_aux_exact false p (-52) (d' - 1)); [|lia|exact Hdp| |lia].
    + unfold Spec.canon. fold d'. f_equal; [|lia]. f_equal. rewrite <- Ep.
      replace (2 ^ 52) with (2 ^ (53 - d') * 2 ^ (d' - 1))
        by (rewrite <- Z.pow_add_r by lia; f_equal; lia).
      rewrite Z.mul_assoc, Z.div_mul by lia. reflexivity.
    + rewrite <- Ep.
      replace (2 ^ 52) with (2 ^ (53 - d') * 2 ^ (d' - 1))
        by (rewrite <- Z.pow_add_r by lia; f_equal; lia).
      rewrite Z.mul_assoc. apply Z.mod_mul. lia.
Qed.

(** A float of that kind divided by itself gives 1.0. *)
Lemma div_self (j : Z) : 0 < j < 2 ^ 53 -> div (Spec.canon j) (Spec.canon j) = Ok f1.
Proof.
  intros Hj. pose proof (digits_range j Hj) as Hd.
  pose proof (canon_digits j Hj) as Hc.
  unfold div, Spec.canon. cbn [is_zero]. f_equal.
  set (d := Zdigits2 j) in *.
  assert (H2 : 0 < 2 ^ (53 - d)) by (apply Z.pow_pos_nonneg; lia).
  set (m := Z.to_pos (j * 2 ^ (53 - d))).
  assert (Hm : Z.pos m = j * 2 ^ (53 - d)) by (subst m; rewrite Z2Pos.id by nia; reflexivity).
  unfold SFdiv, SFdiv_core_binary. cbv zeta.
  rewrite Hm, Hc.
  rewrite fexp_val.
  replace (53 + (d - 53) - (53 + (d - 53))) with 0 by lia.
  replace (d - 53 - (d - 53)) with 0 by lia.
  change (Z.min (Z.max (0 - 53) (-1074)) 0) with (-53).
  change (0 - -53) with 53. cbv iota.
  rewrite Z.shiftl_mul_pow2 by lia.
  assert (Hde : Z.div_eucl (j * 2 ^ (53 - d) * 2 ^ 53) (j * 2 ^ (53 - d)) = (2 ^ 53, 0)).
  { pose proof (Z_div_mod (j * 2 ^ (53 - d) * 2 ^ 53) (j * 2 ^ (53 - d)) ltac:(nia)) as H.
    destruct (Z.div_eucl _ _) as [q r]. destruct H as [Heq Hr].
    assert (q = 2 ^ 53) by nia. subst q. f_equal. lia. }
  rewrite Hde.
  assert (Hloc : new_location (j * 2 ^ (53 - d)) 0 = loc_Exact).
  { unfold new_location, new_location_even, new_location_odd.
    destruct (Z.even _); reflexivity. }
  rewrite Hloc. cbn [xorb].
  change (2 ^ 53) with (Z.pos 9007199254740992).
  rewrite (binary_round_aux_exact false 9007199254740992 (-53) 1); [reflexivity|lia|reflexivity|reflexivity|lia].
Qed.

End ExactRounding.

Section FlatCurve.
Import Py Float Models Dsp.
Variable M : libm.

(** ** Zeros *)

Lemma mul_zero_l (x y : float) :
  is_zero x = true -> is_finite y = true -> is_zero (mul x y) = true.
Proof. destruct x, y; try discriminate; reflexivity. Qed.

Lemma mul_zero_r (x y : float) :
  is_finite x = true -> is_zero y = true -> is_zero (mul x y) = true.
Proof. destruct x, y; try discriminate; reflexivity. Qed.

Lemma add_zeros (x y : float) :
  is_zero x = true -> is_zero y = true -> is_zero (add x y) = true.
Proof. destruct x as [[]| | |], y as [[]| | |]; try discriminate; reflexivity. Qed.

Lemma sub_zeros (x y : float) :
  is_zero x = true -> is_zero y = true -> is_zero (sub x y) = true.
Proof. destruct x as [[]| | |], y as [[]| | |]; try discriminate; reflexivity. Qed.

Lemma neg_finite (x : float) : is_finite (neg x) = is_finite x.
Proof. destruct x; reflexivity. Qed.

Lemma zero_finite (x : float) : is_zero x = true -> is_finite x = true.
Proof. destruct x; try discriminate; reflexivity. Qed.

Lemma div_zero (x y : float) :
  is_zero x = true -> is_finite y = true -> is_zero y = false ->
  exists q, div x y = Ok q /\ is_zero q = true.
Proof.
  intros Hx Hy Hy0. unfold div. rewrite Hy0.
  destruct x, y; try discriminate; eexists; split; reflexivity.
Qed.

(** ** Loops *)

Lemma mapM_forall {A B : Type} (f : A -> result B) (Q : B -> Prop) (l : list A) :
  (forall x, In x l -> exists y, f x = Ok y /\ Q y) ->
  exists l', mapM f l = Ok l' /\ Forall Q l' /\ length l' = length l.
Proof.
  induction l as [|x l IH]; intros H.
  - exists []. split; [reflexivity|]. split; [constructor | reflexivity].
  - destruct (H x (or_introl eq_refl)) as (y & Hy & Qy).
    destruct (IH (fun z Hz => H z (or_intror Hz))) as (l' & Hl' & HQ & Hlen).
    exists (y :: l'). cbn [mapM]. rewrite Hy. cbn [bind]. rewrite Hl'. cbn [bind].
    split; [reflexivity|]. split; [now constructor | simpl; now f_equal].
Qed.

Lemma foldM_invariant {A S : Type} (f : S -> A -> result S) (P : S -> Prop) (l : list A) :
  (forall s x, In x l -> P s -> exists s', f s x = Ok s' /\ P s') ->
  forall s, P s -> exists s', foldM f l s = Ok s' /\ P s'.
Proof.
  induction l as [|x l IH]; intros H s Hs.
  - exists s. split; [reflexivity | exact Hs].
  - destruct (H s x (or_introl eq_refl) Hs) as (s1 & Hs1 & P1).
    cbn [foldM]. rewrite Hs1. cbn [bind].
    apply IH; [|exact P1]. intros s' y Hy. apply H. now right.
Qed.

Lemma foldM_related {A S T : Type} (f : S -> A -> result S) (g : T -> A -> result T)
    (R : S -> T -> Prop) (l : list A) :
  (forall s t x, In x l -> R s t -> exists s' t', f s x = Ok s' /\ g t x = Ok t' /\ R s' t') ->
  forall s t, R s t -> exists s' t', foldM f l s = Ok s' /\ foldM g l t = Ok t' /\ R s' t'.
Proof.
  induction l as [|x l IH]; intros H s t Hst.
  - exists s, t. split; [reflexivity|]. split; [reflexivity | exact Hst].
  - destruct (H s t x (or_introl eq_refl) Hst) as (s1 & t1 & Hs1 & Ht1 & R1).
    cbn [foldM]. rewrite Hs1, Ht1. cbn [bind].
    apply IH; [|exact R1]. intros s' t' y Hy. apply H. now right.
Qed.

(** A transform whose terms are all zeros gives zeros. *)
Lemma dft_zeros (term : Z -> Z -> result (float * float)) (n : nat) :
  (forall k j, In k (range n) -> In j (range n) ->
     exists t, term k j = Ok t /\ Spec.zero_pair t) ->
  exists rows, dft term n = Ok rows /\ Forall Spec.zero_pair rows /\ length rows = n.
Proof.
  intros H. unfold dft.
  destruct (mapM_forall (dft_row term n) Spec.zero_pair (range n)) as (rows & Hr & Hz & Hlen).
  - intros k Hk. unfold dft_row.
    apply (foldM_invariant _ Spec.zero_pair); [|split; reflexivity].
    intros acc j Hj [Ha Hb]. destruct (H k j Hk Hj) as (t & Ht & Ht1 & Ht2).
    rewrite Ht. cbn [bind]. eexists. split; [reflexivity|].
    split; cbn [fst snd]; now apply add_zeros.
  - exists rows. rewrite range_length in Hlen. auto.
Qed.

(** ** Interpolation of a flat curve *)

Lemma nth_error_zero (gains : list float) (i : nat) (g : float) :
  Forall (fun g => is_zero g = true) gains -> nth_error gains i = Some g -> is_zero g = true.
Proof.
  intros H Hi. rewrite Forall_forall in H. apply H. eapply nth_error_In; exact Hi.
Qed.

Lemma interpolate_flat (freqs gains_dB : list float) (bf : float) :
  freqs <> [] ->
  Spec.strictly_increasing freqs = true -> Spec.no_nan freqs ->
  length gains_dB = length freqs ->
  Forall (fun g => is_zero g = true) gains_dB ->
  is_nan bf = false ->
  (forall i f_lo f_hi,
     nth_error freqs i = Some f_lo -> nth_error freqs (S i) = Some f_hi ->
     leb f_lo bf = true -> leb f_hi bf = false ->
     exists t, Spec.weight M f_lo f_hi bf = Ok t /\ is_finite t = true) ->
  exists g, interpolate M freqs gains_dB bf = Ok g /\ is_zero g = true.
Proof.
  intros Hne Hinc Hnan Hlen Hzero Hbf Hw.
  assert (Hpos : (0 < length freqs)%nat) by (destruct freqs; [congruence | simpl; lia]).
  destruct (nth_error freqs 0) as [f_first|] eqn:Hf0; [|apply nth_error_None in Hf0; lia].
  destruct (nth_error freqs (length freqs - 1)) as [f_last|] eqn:Hfl;
    [|apply nth_error_None in Hfl; lia].
  destruct (nth_error gains_dB 0) as [g_first|] eqn:Hg0; [|apply nth_error_None in Hg0; lia].
  destruct (nth_error gains_dB (length gains_dB - 1)) as [g_last|] eqn:Hgl;
    [|apply nth_error_None in Hgl; lia].
  assert (Hn0 : is_nan f_first = false).
  { unfold Spec.no_nan in Hnan. rewrite Forall_forall in Hnan.
    apply Hnan. eapply nth_error_In; exact Hf0. }
  assert (Hnl : is_nan f_last = false).
  { unfold Spec.no_nan in Hnan. rewrite Forall_forall in Hnan.
    apply Hnan. eapply nth_error_In; exact Hfl. }
  unfold interpolate.
  rewrite (getitem_nth _ _ _ Hf0 : getitem freqs 0 = _). cbn [bind].
  destruct (leb bf f_first) eqn:Hle.
  { exists g_first. split; [exact (getitem_nth _ _ _ Hg0) | exact (nth_error_zero _ _ _ Hzero Hg0)]. }
  rewrite (getitem_last _ _ Hfl). cbn [bind].
  destruct (geb bf f_last) eqn:Hge.
  { exists g_last. split; [exact (getitem_last _ _ Hgl) | exact (nth_error_zero _ _ _ Hzero Hgl)]. }
  unfold geb in Hge. fold (leb f_last bf) in Hge.
  assert (Hfirst_le : leb f_first bf = true) by (apply leb_total; assumption).
  assert (Hlong : (0 < length freqs - 1)%nat).
  { destruct (length freqs - 1)%nat eqn:E; [|lia].
    rewrite Hf0 in Hfl. injection Hfl as <-. congruence. }
  destruct (bisect_bracket freqs bf (length freqs) 0 (length freqs - 1) f_first f_last)
    as (lo & f_lo & f_hi & Hb & Hlo & Hlo_le & Hhi & Hhi_gt);
    try assumption; try lia.
  replace (len freqs - 1) with (Z.of_nat (length freqs - 1)) by (unfold len; lia).
  change 0 with (Z.of_nat 0). rewrite Hb. cbn [bind].
  rewrite (getitem_nth _ _ _ Hhi), (getitem_nth _ _ _ Hlo). cbn [bind].
  assert (Hlt : ltb f_lo f_hi = true)
    by (eapply (strictly_increasing_lt _ Hinc lo (S lo)); [lia | exact Hlo | exact Hhi]).
  rewrite (ltb_neqb _ _ Hlt).
  destruct (Hw lo f_lo f_hi Hlo Hhi Hlo_le Hhi_gt) as (t & Ht & Htf).
  unfold Spec.weight in Ht. rewrite Ht. cbn [bind].
  assert (Hlo_lt : (S lo < length gains_dB)%nat).
  { rewrite Hlen. apply nth_error_Some. congruence. }
  destruct (nth_error gains_dB lo) as [g|] eqn:Hg; [|apply nth_error_None in Hg; lia].
  destruct (nth_error gains_dB (S lo)) as [g'|] eqn:Hg'; [|apply nth_error_None in Hg'; lia].
  rewrite (getitem_nth _ _ _ Hg), (getitem_nth _ _ _ Hg'). cbn [bind].
  eexists. split; [reflexivity|].
  apply add_zeros; [exact (nth_error_zero _ _ _ Hzero Hg)|].
  apply mul_zero_r; [exact Htf|].
  apply sub_zeros; [exact (nth_error_zero _ _ _ Hzero Hg') | exact (nth_error_zero _ _ _ Hzero Hg)].
Qed.

(** A bin frequency is never a NaN. *)
Lemma int_truediv_not_nan (a b : Z) (q : float) :
  int_truediv a b = Ok q -> is_nan q = false.
Proof.
  unfold int_truediv.
  destruct b as [|pb|pb]; [destruct a; discriminate | |];
    (destruct a as [|pa|pa]; [intros [= <-]; reflexivity | |]).
  all: match goal with |- (if is_inf ?x then _ else _) = _ -> _ =>
         set (r := x); destruct (is_inf r); [discriminate|]; intros [= <-]; subst r end.
  all: unfold SFdiv, SFdiv_core_binary; cbv zeta.
  all: match goal with
       |- context [Z.div_eucl ?m ?d] =>
         let H := fresh in
         assert (H : 0 <= fst (Z.div_eucl m d));
         [ assert (Hm : 0 <= m) by
             (repeat match goal with |- context [match ?s with _ => _ end] => destruct s end;
              try lia; try (apply Z.shiftl_nonneg; lia));
           pose proof (Z_div_mod m d ltac:(lia)) as Hdm;
           destruct (Z.div_eucl m d) as [q0 r0]; cbn [fst]; destruct Hdm; nia
         | destruct (Z.div_eucl m d) as [q0 r0]; cbn [fst] in H;
           apply binary_round_aux_not_nan; exact H ]
       end.
Qed.

Lemma bin_freqs_no_nan (sample_rate n_fft : Z) (bfs : list float) :
  bin_freqs sample_rate n_fft = Ok bfs -> Spec.no_nan bfs.
Proof.
  unfold bin_freqs. intros H. apply mapM_ok in H.
  unfold Spec.no_nan. induction H as [|i q idxs qs Hq _ IH]; constructor; [|exact IH].
  eapply int_truediv_not_nan; exact Hq.
Qed.

Lemma interp_flat (freqs gains_dB : list float) (sample_rate n_fft : Z) (bfs : list float) :
  bin_freqs sample_rate n_fft = Ok bfs ->
  freqs <> [] ->
  Spec.strictly_increasing freqs = true -> Spec.no_nan freqs ->
  length gains_dB = length freqs ->
  Forall (fun g => is_zero g = true) gains_dB ->
  Spec.weights_finite M freqs bfs ->
  exists gains, interp_gains_dB M freqs gains_dB sample_rate n_fft = Ok gains /\
                Forall (fun g => is_zero g = true) gains /\
                length gains = Z.to_nat (n_fft / 2 + 1).
Proof.
  intros Hb Hne Hinc Hnan Hlen Hzero Hw.
  unfold interp_gains_dB. rewrite Hb. cbn [bind].
  pose proof (bin_freqs_no_nan _ _ _ Hb) as Hbn.
  destruct (mapM_forall (interpolate M freqs gains_dB) (fun g => is_zero g = true) bfs)
    as (gains & Hg & Hz & Hl).
  - intros bf Hbf. apply interpolate_flat; try assumption.
    + unfold Spec.no_nan in Hbn. rewrite Forall_forall in Hbn. now apply Hbn.
    + intros i f_lo f_hi Hlo Hhi. now apply (Hw i f_lo f_hi bf).
  - exists gains. split; [exact Hg|]. split; [exact Hz|].
    rewrite Hl. eapply bin_freqs_length; exact Hb.
Qed.

(** ** The stages of the synthesis on a flat curve *)

Lemma magnitudes_flat (gains : list float) :
  Forall (fun g => is_zero g = true) gains ->
  mapM (fun g => w <- div g f20 ;; pow10 M w) gains = Ok (map (fun _ => f1) gains).
Proof.
  intros H. rewrite <- mapM_pure. apply mapM_ext_in. intros g Hg.
  rewrite Forall_forall in H. specialize (H g Hg).
  destruct g as [s| | |]; try discriminate. destruct s; reflexivity.
Qed.

Lemma math_finite (f : float -> float) (can_overflow : bool) (x : float) :
  is_finite (f x) = true -> math_1 f can_overflow x = Ok (f x).
Proof.
  intros H. unfold math_1. destruct (f x); try discriminate; reflexivity.
Qed.

Lemma log_mag_flat (magnitudes : list float) :
  is_zero (c_log M f1) = true ->
  Forall (fun m => m = f1) magnitudes ->
  mapM (fun m => math_log M (max2 m f1e_10)) magnitudes
    = Ok (map (fun _ => c_log M f1) magnitudes).
Proof.
  intros Hlog H. rewrite <- mapM_pure. apply mapM_ext_in. intros m Hm.
  rewrite Forall_forall in H. rewrite (H m Hm).
  change (max2 f1 f1e_10) with f1. unfold math_log.
  change (m_log M f1) with (c_log M f1).
  rewrite (math_finite (m_log M) false f1); [reflexivity|].
  change (m_log M f1) with (c_log M f1). now apply zero_finite.
Qed.

Lemma in_firstn {A : Type} (n : nat) (l : list A) (x : A) : In x (firstn n l) -> In x l.
Proof.
  revert l. induction n as [|n IH]; intros [|y l]; simpl; try tauto.
  intros [H | H]; [now left | right; now apply IH].
Qed.

Lemma in_skipn {A : Type} (n : nat) (l : list A) (x : A) : In x (skipn n l) -> In x l.
Proof.
  revert l. induction n as [|n IH]; intros [|y l]; simpl; try tauto.
  intros H. right. now apply IH.
Qed.

Lemma mirror_in {A : Type} (l : list A) (x : A) : In x (mirror l) -> In x l.
Proof.
  unfold mirror. intros H. apply in_rev in H.
  apply (in_skipn 1). eapply in_firstn; exact H.
Qed.

Lemma getitem_all {A : Type} (l : list A) (P : A -> Prop) (j : Z) :
  Forall P l -> In j (range (length l)) -> exists x, getitem l j = Ok x /\ P x.
Proof.
  intros H Hj. destruct (getitem_range l j Hj) as (x & Hx & Hn).
  exists x. split; [exact Hx|]. rewrite Forall_forall in H. apply H.
  eapply nth_error_In; exact Hn.
Qed.

Lemma of_int_finite (n : Z) :
  0 < n < 2 ^ 53 -> is_finite (of_int n) = true /\ is_zero (of_int n) = false.
Proof. intros H. rewrite (of_int_canon n H). split; reflexivity. Qed.

(** ** The last transform *)

Lemma of_int_succ (j : Z) : 0 <= j -> j + 1 < 2 ^ 53 -> add (of_int j) f1 = of_int (j + 1).
Proof.
  intros Hj Hj1. destruct (Z.eq_dec j 0) as [-> | Hne]; [reflexivity|].
  rewrite (of_int_canon j), (of_int_canon (j + 1)) by lia. apply add_one; lia.
Qed.

(** A row whose terms are all 1.0 counts them. *)
Lemma count_ones (step : float * float -> Z -> result (float * float)) (l : list Z) :
  (forall acc j, In j l -> step acc j = Ok (add (fst acc) f1, add (snd acc) f0)) ->
  forall c, 0 <= c -> c + len l < 2 ^ 53 ->
    foldM step l (of_int c, f0) = Ok (of_int (c + len l), f0).
Proof.
  induction l as [|j l IH]; intros H c Hc Hlen.
  - simpl. now rewrite Z.add_0_r.
  - cbn [foldM]. rewrite (H _ j (or_introl eq_refl)). cbn [bind fst snd].
    assert (Hl : len (j :: l) = 1 + len l) by (unfold len; simpl length; lia).
    rewrite Hl in Hlen. pose proof (len_nonneg l).
    rewrite of_int_succ by lia. change (add f0 f0) with f0.
    rewrite IH; [|intros acc i Hi; apply H; now right|lia|lia].
    do 3 f_equal. lia.
Qed.

Lemma angle_row0 (j n : Z) :
  0 <= j < 2 ^ 53 -> 0 < n < 2 ^ 53 -> angle 0 j n = Ok (S754_zero false).
Proof.
  intros Hj Hn. unfold angle.
  change (mul (mul (of_int 2) pi) (of_int 0)) with (S754_zero false).
  rewrite (of_int_canon n Hn).
  destruct (Z.eq_dec j 0) as [-> | Hne]; [reflexivity|].
  rewrite (of_int_canon j) by lia. reflexivity.
Qed.

Lemma same_number_refl (x : float) : Spec.same_number x x.
Proof. now left. Qed.

Lemma same_number_add (x x' y y' : float) :
  Spec.same_number x x' -> Spec.same_number y y' ->
  Spec.same_number (add x y) (add x' y').
Proof.
  intros [-> | [Hx Hx']] [-> | [Hy Hy']]; [now left | | |].
  - destruct y as [[]| | |], y' as [[]| | |]; try discriminate;
      destruct x' as [[]|[]| |]; (now left) || (right; split; reflexivity).
  - destruct x as [[]| | |], x' as [[]| | |]; try discriminate;
      destruct y' as [[]|[]| |]; (now left) || (right; split; reflexivity).
  - right. split; now apply add_zeros.
Qed.

Lemma same_number_sub_zero (u z : float) :
  is_zero z = true -> Spec.same_number (sub u z) u.
Proof.
  intros Hz. destruct z as [sz| | |]; try discriminate.
  destruct u as [su|su| |su mu eu]; try (now left).
  right. split; [destruct su, sz|]; reflexivity.
Qed.

Lemma same_number_div (x x' d : float) :
  Spec.same_number x x' -> is_finite d = true -> is_zero d = false ->
  exists q q', div x d = Ok q /\ div x' d = Ok q' /\ Spec.same_number q q'.
Proof.
  intros H Hd Hd0. unfold div. rewrite Hd0. do 2 eexists.
  split; [reflexivity|]. split; [reflexivity|].
  destruct H as [-> | [Hx Hx']]; [now left|].
  destruct x, x', d; try discriminate. right. split; reflexivity.
Qed.

Lemma same_number_within (tol x y : float) :
  Spec.same_number x y -> Spec.within tol x f0 = Spec.within tol y f0.
Proof.
  intros [-> | [Hx Hy]]; [reflexivity|].
  destruct x as [[]| | |], y as [[]| | |]; try discriminate; reflexivity.
Qed.

Section LastTransform.
Variable mp_spec : list (float * float).
Variable n : nat.
Hypothesis Hlen : length mp_spec = n.
Hypothesis Hunit : Forall Spec.unit_bin mp_spec.
Hypothesis Hzero : Spec.libm_at_zero M.
Hypothesis Hangles : Spec.angles_finite M n.
Hypothesis Hn : 0 < Z.of_nat n < 2 ^ 53.

Lemma range_bounds (j : Z) : In j (range n) -> 0 <= j < Z.of_nat n.
Proof.
  unfold range. intros H. apply in_map_iff in H as (i & <- & Hi). apply in_seq in Hi. lia.
Qed.

Lemma last_row0 : dft_row (Spec.last_term M mp_spec n) n 0 = Ok (of_int (Z.of_nat n), f0).
Proof.
  unfold dft_row. change (f0, f0) with (of_int 0, f0).
  rewrite (count_ones _ (range n)); [|..].
  - unfold len. rewrite range_length. reflexivity.
  - intros acc j Hj. pose proof (range_bounds j Hj) as Hjb.
    unfold Spec.last_term. rewrite angle_row0 by lia. cbn [bind].
    rewrite <- Hlen in Hj.
    destruct (getitem_all mp_spec Spec.unit_bin j Hunit Hj) as (m & Hm & Hm1 & Hm2).
    rewrite Hm. cbn [bind].
    destruct Hzero as (_ & _ & Hcos & Hsin).
    unfold math_cos, math_sin.
    rewrite (math_finite (c_cos M) false), (math_finite (c_sin M) false);
      [|apply zero_finite, Hsin | rewrite Hcos; reflexivity].
    cbn [bind fst snd]. rewrite Hcos, Hm1. change (mul f1 f1) with f1.
    specialize (Hsin false).
    destruct (c_sin M (S754_zero false)) as [ss| | |]; try discriminate.
    destruct (snd m) as [sm| | |]; try discriminate.
    reflexivity.
  - lia.
  - unfold len. rewrite range_length. lia.
Qed.

Lemma last_row (k : Z) :
  In k (range n) ->
  exists r i m,
    dft_row (Spec.last_term M mp_spec n) n k = Ok (r, i) /\
    foldM (fun acc j => a <- angle k j (Z.of_nat n) ;;
                        c <- math_cos M a ;;
                        Ok (add acc (mul f1 c))) (range n) f0 = Ok m /\
    Spec.same_number r m.
Proof.
  intros Hk. unfold dft_row.
  destruct (foldM_related
              (fun acc j => t <- Spec.last_term M mp_spec n k j ;;
                            Ok (add (fst acc) (fst t), add (snd acc) (snd t)))
              (fun acc j => a <- angle k j (Z.of_nat n) ;;
                            c <- math_cos M a ;;
                            Ok (add acc (mul f1 c)))
              (fun s t => Spec.same_number (fst s) t) (range n))
    with (s := (f0, f0)) (t := f0) as ([r i] & m & Hr & Hm & Hrel).
  - intros acc t j Hj Hrel.
    destruct (Hangles k j Hk Hj) as (a & Ha & Hc & Hs).
    unfold Spec.last_term. rewrite Ha. cbn [bind].
    rewrite <- Hlen in Hj.
    destruct (getitem_all mp_spec Spec.unit_bin j Hunit Hj) as (b & Hb & Hb1 & Hb2).
    rewrite Hb. cbn [bind].
    unfold math_cos, math_sin.
    rewrite (math_finite (c_cos M) false _ Hc), (math_finite (c_sin M) false _ Hs).
    cbn [bind fst snd]. do 2 eexists. split; [reflexivity|]. split; [reflexivity|].
    cbn [fst]. apply same_number_add; [exact Hrel|].
    rewrite Hb1. apply same_number_sub_zero.
    apply mul_zero_l; [exact Hb2 | now rewrite neg_finite].
  - apply same_number_refl.
  - exists r, i, m. auto.
Qed.

End LastTransform.

Lemma transform_size_bounds (ir_length : Z) :
  0 < ir_length ->
  (0 < Spec.transform_size ir_length)%nat /\
  Z.of_nat (Spec.transform_size ir_length) <= ir_length.
Proof.
  intros H. unfold Spec.transform_size.
  pose proof (Z.div_mod ir_length 2 ltac:(lia)) as Hdm.
  pose proof (Z.mod_pos_bound ir_length 2 ltac:(lia)) as Hmb.
  assert (0 <= ir_length / 2) by (apply Z.div_pos; lia).
  cbv zeta. split; lia.
Qed.


End FlatCurve.

Section FlatExamples.
Import Py Float Models Dsp.



End FlatExamples.
